(** * Retrieval layer of GNU Wget (src/retr.c): a shallow embedding

    The C functions of [retr.c] are written as Rocq functions over explicit
    state.  Process-wide variables ([opt], [global_download_count], the
    static [first_retrieval]) are fields of records that are threaded through
    the calls; functions of other translation units (URL parsing, the
    protocol loops, stdio, the progress gauge) are operations of type
    classes, so that every theorem holds for all of their behaviours.

    Integers: [int] and [long] values are modelled in [Z].  Signed overflow
    is undefined in C and no function below relies on it; the unsigned
    [VERY_LONG_TYPE] counter wraps, and its wrap-around is written out. *)

From stdpp Require Import gmap strings list.
From Stdlib Require Import ZArith Lia Bool DecimalString.
From Stdlib Require Import Floats.SpecFloat.

Local Open Scope Z_scope.

(** ** Parameters of the build

    [VERY_LONG_TYPE] is defined in [sysdep.h] as the widest unsigned integer
    type of the platform, [wtimer_granularity] in [utils.c], and the bits
    [RETROKF] and [TEXTHTML] of a download descriptor in [wget.h]; none of
    them is part of [retr.c], so all are parameters.  [HAVE_SSL] is the
    configuration macro of the same name. *)
Class Platform := {
  VERY_LONG_BITS : Z;
  wtimer_granularity : Z;
  HAVE_SSL : bool;
  RETROKF : Z;
  TEXTHTML : Z
}.

(** ** The option block

    The fields of [struct options] (options.h) that [retr.c] reads or
    writes.  Flags are [int]s used as truth values and are kept as [bool];
    [quota], [wait] and [waitretry] are [long]; [downloaded] is a
    [VERY_LONG_TYPE]. *)
Record options := {
  opt_verbose : bool;
  opt_use_proxy : bool;
  opt_no_proxy : list string;
  opt_referer : option string;
  opt_recursive : bool;
  opt_delete_after : bool;
  opt_quota : Z;
  opt_downloaded : Z;
  opt_downloaded_overflow : bool;
  opt_wait : Z;
  opt_waitretry : Z
}.

Definition set_downloaded (d : Z) (ovf : bool) (o : options) : options :=
  {| opt_verbose := opt_verbose o;
     opt_use_proxy := opt_use_proxy o;
     opt_no_proxy := opt_no_proxy o;
     opt_referer := opt_referer o;
     opt_recursive := opt_recursive o;
     opt_delete_after := opt_delete_after o;
     opt_quota := opt_quota o;
     opt_downloaded := d;
     opt_downloaded_overflow := ovf;
     opt_wait := opt_wait o;
     opt_waitretry := opt_waitretry o |}.

Definition set_quota (q : Z) (o : options) : options :=
  {| opt_verbose := opt_verbose o;
     opt_use_proxy := opt_use_proxy o;
     opt_no_proxy := opt_no_proxy o;
     opt_referer := opt_referer o;
     opt_recursive := opt_recursive o;
     opt_delete_after := opt_delete_after o;
     opt_quota := q;
     opt_downloaded := opt_downloaded o;
     opt_downloaded_overflow := opt_downloaded_overflow o;
     opt_wait := opt_wait o;
     opt_waitretry := opt_waitretry o |}.

Definition set_recursive (r : bool) (o : options) : options :=
  {| opt_verbose := opt_verbose o;
     opt_use_proxy := opt_use_proxy o;
     opt_no_proxy := opt_no_proxy o;
     opt_referer := opt_referer o;
     opt_recursive := r;
     opt_delete_after := opt_delete_after o;
     opt_quota := opt_quota o;
     opt_downloaded := opt_downloaded o;
     opt_downloaded_overflow := opt_downloaded_overflow o;
     opt_wait := opt_wait o;
     opt_waitretry := opt_waitretry o |}.

(** ** Download accounting: [downloaded_increase], [downloaded_exceeds_quota] *)

(** Values of [VERY_LONG_TYPE] are the integers below [vl_modulus];
    arithmetic on them is reduced by [vl_wrap]. *)
Definition vl_modulus `{Platform} : Z := 2 ^ VERY_LONG_BITS.

Definition vl_wrap `{Platform} (z : Z) : Z := z mod vl_modulus.

Definition vl_range `{Platform} (z : Z) : Prop := 0 <= z < vl_modulus.

(** [~((VERY_LONG_TYPE)0)]: all bits set. *)
Definition VERY_LONG_MAX `{Platform} : Z := vl_wrap (Z.lnot 0).

(** [downloaded_increase (unsigned long by_how_much)], lines 470-485. *)
Definition downloaded_increase `{Platform} (by_how_much : Z) (o : options)
  : options :=
  if opt_downloaded_overflow o then o
  else
    let old := opt_downloaded o in
    let o1 := set_downloaded (vl_wrap (opt_downloaded o + by_how_much))
                             (opt_downloaded_overflow o) o in
    if opt_downloaded o1 <? old
    then set_downloaded VERY_LONG_MAX true o1
    else o1.

(** A run of calls [downloaded_increase(b1); ...; downloaded_increase(bn)]. *)
Definition increase_all `{Platform} (bs : list Z) (o : options) : options :=
  foldl (fun acc b => downloaded_increase b acc) o bs.

(** [downloaded_exceeds_quota (void)], lines 490-500.  In the comparison
    [opt.downloaded > opt.quota] the [long] quota is converted to
    [VERY_LONG_TYPE] by the usual arithmetic conversions. *)
Definition downloaded_exceeds_quota `{Platform} (o : options) : bool :=
  if opt_quota o =? 0 then false
  else if opt_downloaded_overflow o then false
  else vl_wrap (opt_quota o) <? opt_downloaded o.

(** ** Retry delays: [sleep_between_retrievals] *)

(** The static [first_retrieval] of the function, and the numbers of
    seconds that the calls to [sleep] made so far were given, oldest
    first. *)
Record backoff := {
  first_retrieval : bool;
  slept : list Z
}.

Definition backoff_init : backoff :=
  {| first_retrieval := true; slept := [] |}.

(** The [unsigned int] values, for a 32-bit [unsigned int]. *)
Definition UINT_MAX : Z := 2 ^ 32 - 1.

(** The conversion of an [int] or a [long] to [unsigned int]: reduction
    modulo [UINT_MAX + 1]. *)
Definition to_unsigned_int (z : Z) : Z := z mod (UINT_MAX + 1).

(** [unsigned int sleep (unsigned int seconds)] of unistd.h.  The source
    passes an [int] ([count - 1]) or a [long] ([opt.wait],
    [opt.waitretry]); what [sleep] is given is the converted value. *)
Definition sleep (secs : Z) (b : backoff) : backoff :=
  {| first_retrieval := first_retrieval b;
     slept := slept b ++ [to_unsigned_int secs] |}.

Definition clear_first (b : backoff) : backoff :=
  {| first_retrieval := false; slept := slept b |}.

(** [sleep_between_retrievals (int count)], lines 508-531. *)
Definition sleep_between_retrievals (o : options) (count : Z) (b : backoff)
  : backoff :=
  let b1 :=
    if negb (first_retrieval b)
       && (negb (opt_wait o =? 0) || negb (opt_waitretry o =? 0))
    then
      if negb (opt_waitretry o =? 0) && (1 <? count)
      then
        if count <=? opt_waitretry o
        then sleep (count - 1) b
        else sleep (opt_waitretry o) b
      else if negb (opt_wait o =? 0)
      then sleep (opt_wait o) b
      else b
    else b in
  if first_retrieval b1 then clear_first b1 else b1.


(** ** Streaming a connection into a file: [get_contents] *)

(** The stdio stream [fp].  [fwrite n f] is [fwrite (c, sizeof (char), n, fp)]
    and returns the number of items written; [fflush]'s return value is not
    used by the source.  Nothing is assumed about when writes fail. *)
Class Stdio (F : Type) := {
  fwrite : Z -> F -> Z * F;
  fflush : F -> F;
  ferror : F -> bool
}.

(** The part of [struct rbuf] (rbuf.h) that [get_contents] looks at: the
    descriptor, whether an SSL session is attached ([rbuf->ssl != NULL]),
    and the number of bytes read ahead. *)
Record rbuf := {
  RBUF_FD : Z;
  rbuf_ssl : bool;
  buffer_left : Z
}.

(** Modelled from the spec: [rbuf_flush] (rbuf.c) is not in [retr.c].
    "Repeatedly drain buffered bytes into the output file until empty": a
    call hands over at most [maxsize] of the bytes read ahead and returns
    their number, which is 0 exactly when nothing is left. *)
Definition rbuf_flush (rb : rbuf) (maxsize : Z) : Z * rbuf :=
  if 0 <? buffer_left rb
  then
    let howmuch := Z.min (buffer_left rb) maxsize in
    (howmuch, {| RBUF_FD := RBUF_FD rb; rbuf_ssl := rbuf_ssl rb;
                 buffer_left := buffer_left rb - howmuch |})
  else (0, rb).

(** How a connection ends once its data is used up. *)
Inductive conn_end := Closed | Failed (code : positive).

Definition end_code (e : conn_end) : Z :=
  match e with
  | Closed => 0
  | Failed c => Z.neg c
  end.

(** Modelled from the spec: [iread] and [ssl_iread] (connect.c,
    gen_sslfunc.c) are not in [retr.c].  "Read primitive over a connection
    ..., returning bytes-read or a negative error code": a connection is the
    script of the results of its coming reads; after the script the peer has
    closed or failed and every read returns [end_code]. *)
Record connection := {
  conn_reads : list Z;
  conn_at_end : conn_end
}.

(** The two call sites of [fwrite]: line 95 writes read-ahead data, line 128
    writes data that came from the network. *)
Inductive write_site := Buffered | Network.

(** Calls to other translation units, in the order they are made. *)
Inductive io_event :=
  | EvProgressCreate (initial total : Z)
  | EvProgressUpdate (howmuch : Z)
  | EvProgressFinish
  | EvRbufFlush (res : Z)
  | EvRead (secure : bool) (amount res : Z)
  | EvFwrite (site : write_site) (n written : Z)
  | EvFflush
  | EvFerror (e : bool).

(** The locals and out-parameters of one call: [res], [*len], the stream,
    and the log of calls made so far (oldest first). *)
Record transfer (F : Type) := Transfer {
  t_res : Z;
  t_len : Z;
  t_fp : F;
  t_log : list io_event
}.
Arguments Transfer {F}.
Arguments t_res {F}.
Arguments t_len {F}.
Arguments t_fp {F}.
Arguments t_log {F}.

Definition emit {F} (ev : io_event) (t : transfer F) : transfer F :=
  Transfer (t_res t) (t_len t) (t_fp t) (t_log t ++ [ev]).

Definition set_res {F} (r : Z) (t : transfer F) : transfer F :=
  Transfer r (t_len t) (t_fp t) (t_log t).

Definition set_fp {F} (f : F) (t : transfer F) : transfer F :=
  Transfer (t_res t) (t_len t) f (t_log t).

Definition add_len {F} (n : Z) (t : transfer F) : transfer F :=
  Transfer (t_res t) (t_len t + n) (t_fp t) (t_log t).

Definition emit_if {F} (b : bool) (ev : io_event) (t : transfer F)
  : transfer F :=
  if b then emit ev t else t.

(** Either a [return] statement was executed inside a loop, or control
    goes on to the next statement. *)
Inductive flow (A : Type) :=
  | Returned (code : Z) (a : A)
  | Running (a : A).
Arguments Returned {A}.
Arguments Running {A}.

(** [sizeof (c)] for [static char c[8192]]. *)
Definition chunk_size : Z := 8192.

(** [#define MIN(i, j) ((i) <= (j) ? (i) : (j))] *)
Definition MIN (i j : Z) : Z := if i <=? j then i else j.

(** Lines 93-101: [while ((res = rbuf_flush (rbuf, c, sizeof (c))) != 0)].
    Every iteration takes at least one byte out of the read-ahead buffer, so
    [fuel] above [buffer_left] is never used up ([flush_loop_fuel]). *)
Fixpoint flush_loop {F} `{Stdio F} (fuel : nat) (verbose : bool) (rb : rbuf)
  (need_flush : bool) (t : transfer F) : flow (transfer F) * rbuf * bool :=
  match fuel with
  | O => (Running t, rb, need_flush)
  | S fuel' =>
    let '(res, rb1) := rbuf_flush rb chunk_size in
    let t1 := emit (EvRbufFlush res) (set_res res t) in
    if res =? 0 then (Running t1, rb1, need_flush)
    else
      let '(w, fp1) := fwrite res (t_fp t1) in
      let t2 := emit (EvFwrite Buffered res w) (set_fp fp1 t1) in
      if w <? res then (Returned (-2) t2, rb1, need_flush)
      else
        let t3 := emit_if verbose (EvProgressUpdate res) t2 in
        flush_loop fuel' verbose rb1 true (add_len res t3)
  end.

(** Lines 90-106: the read-ahead data goes to the file first. *)
Definition flush_phase {F} `{Stdio F} (verbose : bool) (fd : Z)
  (rbufp : option rbuf) (t : transfer F) : flow (transfer F) * option rbuf :=
  match rbufp with
  | Some rb =>
    if RBUF_FD rb =? fd then
      match flush_loop (S (Z.to_nat (buffer_left rb))) verbose rb false t with
      | (Returned code t1, rb1, _) => (Returned code t1, Some rb1)
      | (Running t1, rb1, need_flush) =>
        let t2 := if need_flush
                  then emit EvFflush (set_fp (fflush (t_fp t1)) t1)
                  else t1 in
        let e := ferror (t_fp t2) in
        let t3 := emit (EvFerror e) t2 in
        if e then (Returned (-2) t3, Some rb1) else (Running t3, Some rb1)
      end
    else (Running t, rbufp)
  | None => (Running t, rbufp)
  end.


(** Lines 112-141: [while (!use_expected || *len < expected)].  The
    recursion follows the script of the connection: an iteration either
    leaves the loop or uses up one scripted read, and at the end of the
    script the read returns [end_code], which is not positive. *)
Fixpoint main_loop {F} `{Stdio F} (verbose secure use_expected : bool)
  (expected : Z) (reads : list Z) (at_end : conn_end) (t : transfer F)
  : flow (transfer F) * list Z :=
  if negb use_expected || (t_len t <? expected) then
    let amount_to_read :=
      if use_expected then MIN (expected - t_len t) chunk_size
      else chunk_size in
    match reads with
    | [] =>
      let res := end_code at_end in
      (Running (emit (EvRead secure amount_to_read res) (set_res res t)), [])
    | res :: rest =>
      let t1 := emit (EvRead secure amount_to_read res) (set_res res t) in
      if 0 <? res then
        let '(w, fp1) := fwrite res (t_fp t1) in
        let t2 := emit (EvFwrite Network res w) (set_fp fp1 t1) in
        let t3 := emit EvFflush (set_fp (fflush (t_fp t2)) t2) in
        let e := ferror (t_fp t3) in
        let t4 := emit (EvFerror e) t3 in
        if e then (Returned (-2) t4, rest)
        else
          let t5 := emit_if verbose (EvProgressUpdate res) t4 in
          main_loop verbose secure use_expected expected rest at_end
                    (add_len res t5)
      else (Running t1, rest)
    end
  else (Running t, reads).

(** What a call of [get_contents] leaves behind: the returned code, [*len],
    the stream, the read-ahead buffer, the connection and the log. *)
Record gc_result (F : Type) := {
  gc_code : Z;
  gc_len : Z;
  gc_fp : F;
  gc_rbuf : option rbuf;
  gc_conn : connection;
  gc_log : list io_event
}.
Arguments gc_code {F}.
Arguments gc_len {F}.
Arguments gc_fp {F}.
Arguments gc_rbuf {F}.
Arguments gc_conn {F}.
Arguments gc_log {F}.

Definition gc_return {F} (code : Z) (t : transfer F) (rbufp : option rbuf)
  (c : connection) : gc_result F :=
  {| gc_code := code; gc_len := t_len t; gc_fp := t_fp t; gc_rbuf := rbufp;
     gc_conn := c; gc_log := t_log t |}.

(** Lines 117-125.  With [HAVE_SSL] every iteration of the loop evaluates
    [rbuf->ssl] and reads through [ssl_iread] when it is not [NULL];
    otherwise, and without [HAVE_SSL], it reads through [iread].  Line 118
    does not test [rbuf] itself: with [HAVE_SSL], a call with a null [rbuf]
    that enters the loop has no defined behaviour.  Those calls are the
    ones for which [null_dereference] holds; what the model computes for
    them (a read through [iread]) describes no run of the program, and the
    statements about results are meant for the other calls. *)
Definition reads_secure `{Platform} (rbufp : option rbuf) : bool :=
  match rbufp with
  | Some rb => HAVE_SSL && rbuf_ssl rb
  | None => false
  end.

(** The call evaluates [rbuf->ssl] with [rbuf == NULL]: the build has
    [HAVE_SSL], [rbuf] is null (so that lines 90-106 are skipped and [*len]
    is still [restval]) and the condition of the loop holds. *)
Definition null_dereference `{Platform} (rbufp : option rbuf)
  (use_expected : bool) (restval expected : Z) : bool :=
  HAVE_SSL
  && match rbufp with Some _ => false | None => true end
  && (negb use_expected || (restval <? expected)).

(** [get_contents (fd, fp, len, restval, expected, rbuf, use_expected)],
    lines 78-147.  [conn] is the connection behind [fd]. *)
Definition get_contents {F} `{Stdio F} `{Platform} (o : options) (fd : Z)
  (conn : connection) (fp : F) (restval expected : Z) (rbufp : option rbuf)
  (use_expected : bool) : gc_result F :=
  let verbose := opt_verbose o in
  let t0 := Transfer 0 restval fp [] in
  let t1 := emit_if verbose (EvProgressCreate restval expected) t0 in
  match flush_phase verbose fd rbufp t1 with
  | (Returned code t2, rbuf1) => gc_return code t2 rbuf1 conn
  | (Running t2, rbuf1) =>
    match main_loop verbose (reads_secure rbufp) use_expected expected
                    (conn_reads conn) (conn_at_end conn) t2 with
    | (Returned code t3, rest) =>
      gc_return code t3 rbuf1
                {| conn_reads := rest; conn_at_end := conn_at_end conn |}
    | (Running t3, rest) =>
      let t4 := if t_res t3 <? -1 then set_res (-1) t3 else t3 in
      let t5 := emit_if verbose EvProgressFinish t4 in
      gc_return (t_res t5) t5 rbuf1
                {| conn_reads := rest; conn_at_end := conn_at_end conn |}
    end
  end.

(** The state carried by a flow. *)
Definition flow_state {A} (fl : flow A) : A :=
  match fl with
  | Returned _ a => a
  | Running a => a
  end.

(** The two ways in which the source notices that output failed: a short
    count from the [fwrite] of line 95, or a set error indicator. *)
Definition write_failure (ev : io_event) : Prop :=
  match ev with
  | EvFerror e => e = true
  | EvFwrite Buffered n written => written < n
  | _ => False
  end.

Definition is_read (ev : io_event) : Prop :=
  match ev with
  | EvRead _ _ _ => True
  | _ => False
  end.

(** Creation and completion of the progress gauge. *)
Definition is_gauge_end (ev : io_event) : Prop :=
  match ev with
  | EvProgressCreate _ _ | EvProgressFinish => True
  | _ => False
  end.






(** A stream for running the model: a file on a device with [d_room] bytes
    left.  A write stores what fits and sets the error indicator when it
    falls short. *)
Record disk := {
  d_stored : Z;
  d_room : Z;
  d_err : bool
}.

#[export] Instance disk_stdio : Stdio disk := {
  fwrite n d :=
    let k := Z.max 0 (Z.min n (d_room d)) in
    (k, {| d_stored := d_stored d + k; d_room := d_room d - k;
           d_err := d_err d || (k <? n) |});
  fflush d := d;
  ferror d := d_err d
}.

(** ** Retrieving one URL: [retrieve_url] *)

(** [enum url_scheme] and the fields of [struct url] (url.h) that
    [retr.c] reads. *)
Inductive url_scheme := SCHEME_HTTP | SCHEME_HTTPS | SCHEME_FTP | SCHEME_INVALID.

#[export] Instance url_scheme_eq_dec : EqDecision url_scheme.
Proof. solve_decision. Defined.

Record struct_url := {
  u_url : string;
  u_scheme : url_scheme;
  u_host : string
}.

(** The values of [uerr_t] (wget.h) that [retr.c] names; every other
    status of the protocol loops is an [OTHER_STATUS]. *)
Inductive uerr_t :=
  | NOCONERROR | URLERROR | PROXERR | NEWLOCATION | WRONGCODE
  | RETROK | QUOTEXC
  | OTHER_STATUS (code : nat).

#[export] Instance uerr_t_eq_dec : EqDecision uerr_t.
Proof. solve_decision. Defined.

(** What [http_loop (u, &mynewloc, &local_file, refurl, dt, proxy)] leaves
    behind: its status, the two strings it may have stored, [*dt], and the
    option block and the outside world as it left them. *)
Record http_result (E : Type) := {
  hr_status : uerr_t;
  hr_newloc : option string;
  hr_local_file : option string;
  hr_dt : Z;
  hr_opt : options;
  hr_ext : E
}.
Arguments hr_status {E}.
Arguments hr_newloc {E}.
Arguments hr_local_file {E}.
Arguments hr_dt {E}.
Arguments hr_opt {E}.
Arguments hr_ext {E}.

(** The same for [ftp_loop (u, dt)] and for [recursive_retrieve]. *)
Record ftp_result (E : Type) := {
  fr_status : uerr_t;
  fr_dt : Z;
  fr_opt : options;
  fr_ext : E
}.
Arguments fr_status {E}.
Arguments fr_dt {E}.
Arguments fr_opt {E}.
Arguments fr_ext {E}.

Record recur_result (E : Type) := {
  rr_status : uerr_t;
  rr_opt : options;
  rr_ext : E
}.
Arguments rr_status {E}.
Arguments rr_opt {E}.
Arguments rr_ext {E}.

(** The functions of other translation units that [retrieve_url] and
    [retrieve_from_file] call.  [E] is the state of everything outside
    [retr.c] (network, file system, registries, environment).  The protocol
    loops may change the option block (they call [downloaded_increase]) and
    read [global_download_count], which only [retrieve_url] writes.
    Nothing is assumed about what these functions compute. *)
Class Collaborators (E : Type) := {
  url_parse : string -> option struct_url;
  uri_merge : string -> string -> string;
  getproxy : url_scheme -> E -> option string;
  no_proxy_match : string -> list string -> bool;
  http_loop : struct_url -> option string -> option struct_url -> Z -> Z -> options -> E
              -> http_result E;
  ftp_loop : struct_url -> Z -> Z -> options -> E -> ftp_result E;
  register_download : string -> string -> E -> E;
  register_html : string -> string -> E -> E;
  get_urls_html : string -> E -> list string;
  get_urls_file : string -> E -> list string;
  recursive_reset : E -> E;
  recursive_retrieve : option string -> string -> options -> E
                       -> recur_result E;
  file_exists_p : string -> E -> bool;
  unlink : string -> E -> E
}.

(** Calls made by [retrieve_url] and [retrieve_from_file], in order.
    [DownloadCounted] is not a call: it marks the place of
    [++global_download_count] among the calls. *)
Inductive call :=
  | CallRetrieveUrl (origurl : string)
  | CallHttpLoop (u : struct_url) (proxy : option struct_url)
  | CallFtpLoop (u : struct_url) (recursive : bool)
  | CallRegisterDownload (url file : string)
  | CallRegisterHtml (url file : string)
  | CallRecursiveRetrieve (file : option string) (url : string)
  | CallUnlink (file : string)
  | DownloadCounted.

(** The process as [retr.c] sees it: the option block, the outside world,
    [int global_download_count], and the log of calls and of increments of
    that counter (oldest first). *)
Record state (E : Type) := State {
  st_opt : options;
  st_ext : E;
  global_download_count : Z;
  st_calls : list call
}.
Arguments State {E}.
Arguments st_opt {E}.
Arguments st_ext {E}.
Arguments global_download_count {E}.
Arguments st_calls {E}.

Definition record_call {E} (c : call) (s : state E) : state E :=
  State (st_opt s) (st_ext s) (global_download_count s) (st_calls s ++ [c]).

Definition set_env {E} (o : options) (e : E) (s : state E) : state E :=
  State o e (global_download_count s) (st_calls s).

(** [++global_download_count], with its mark in the log. *)
Definition count_download {E} (s : state E) : state E :=
  State (st_opt s) (st_ext s) (global_download_count s + 1)
        (st_calls s ++ [DownloadCounted]).

(** The [return] statements of [retrieve_url], by what led to them:
    lines 224, 250, 262, 271, 340, 369 and 406. *)
Inductive return_site :=
  | AtUrlParse | AtNoProxy | AtProxyParse | AtProxyScheme
  | AtRedirectParse | AtCycle | AtEnd.

(** An out-parameter of type [char **]: [None] when the caller passed
    [NULL], otherwise the string pointer stored in the caller's variable,
    [Some None] when that pointer is [NULL]. *)
Definition out_param := option (option string).

Definition store (p : out_param) (v : option string) : out_param :=
  match p with
  | Some _ => Some v
  | None => None
  end.

(** What a call of [retrieve_url] leaves behind.  [r_dt] is the final
    content of the [int] that [dt] points to after line 210, [r_hops] the
    number of times control went back to [redirected:]. *)
Record retrieval (E : Type) := {
  r_status : uerr_t;
  r_site : return_site;
  r_file : out_param;
  r_newloc : out_param;
  r_dt : Z;
  r_hops : nat;
  r_state : state E
}.
Arguments r_status {E}.
Arguments r_site {E}.
Arguments r_file {E}.
Arguments r_newloc {E}.
Arguments r_dt {E}.
Arguments r_hops {E}.
Arguments r_state {E}.

(** A run of [retrieve_url] returns, stops the process on a failed
    [assert], or is still following redirections when the fuel is used up
    (the source puts no bound on the length of a redirection chain). *)
Inductive outcome (A : Type) :=
  | Finished (a : A)
  | Aborted
  | Unfinished.
Arguments Finished {A}.
Arguments Aborted {A}.
Arguments Unfinished {A}.

(** The locals that the protocol loops set: [result], [mynewloc],
    [local_file], together with [*dt] and the state. *)
Record dispatched (E : Type) := {
  d_result : uerr_t;
  d_mynewloc : option string;
  d_local_file : option string;
  d_dt : Z;
  d_state : state E
}.
Arguments d_result {E}.
Arguments d_mynewloc {E}.
Arguments d_local_file {E}.
Arguments d_dt {E}.
Arguments d_state {E}.

(** [#define USE_PROXY_P(u)], lines 187-189. *)
Definition USE_PROXY_P {E} `{Collaborators E} (u : struct_url) (s : state E) : bool :=
  opt_use_proxy (st_opt s)
  && bool_decide (is_Some (getproxy (u_scheme u) (st_ext s)))
  && no_proxy_match (u_host u) (opt_no_proxy (st_opt s)).

Definition call_http_loop {E} `{Collaborators E} (u : struct_url)
  (refurl : option string) (proxy : option struct_url) (dt : Z) (s : state E)
  : dispatched E :=
  let s1 := record_call (CallHttpLoop u proxy) s in
  let r := http_loop u refurl proxy dt (global_download_count s1)
                     (st_opt s1) (st_ext s1) in
  {| d_result := hr_status r; d_mynewloc := hr_newloc r;
     d_local_file := hr_local_file r; d_dt := hr_dt r;
     d_state := set_env (hr_opt r) (hr_ext r) s1 |}.

(** Lines 290-294: [opt.recursive] is switched off around [ftp_loop] when a
    redirection led here, and put back afterwards. *)
Definition call_ftp_loop {E} `{Collaborators E} (u : struct_url)
  (redirections : option (gset string)) (dt : Z) (s : state E)
  : dispatched E :=
  let oldrec := opt_recursive (st_opt s) in
  let o1 := match redirections with
            | Some _ => set_recursive false (st_opt s)
            | None => st_opt s
            end in
  let s1 := record_call (CallFtpLoop u (opt_recursive o1))
                        (set_env o1 (st_ext s) s) in
  let r := ftp_loop u dt (global_download_count s1) (st_opt s1) (st_ext s1) in
  {| d_result := fr_status r; d_mynewloc := None; d_local_file := None;
     d_dt := fr_dt r;
     d_state := set_env (set_recursive oldrec (fr_opt r)) (fr_ext r) s1 |}.

(** Lines 232-308: choose the proxy and the protocol loop.  [ProxyError] is
    one of the three [return PROXERR] statements. *)
Inductive dispatch_result (E : Type) :=
  | ProxyError (site : return_site)
  | Dispatched (d : dispatched E).
Arguments ProxyError {E}.
Arguments Dispatched {E}.

Definition dispatch {E} `{Collaborators E} `{Platform} (u : struct_url)
  (redirections : option (gset string)) (refurl : option string) (dt : Z)
  (s : state E) : dispatch_result E :=
  if USE_PROXY_P u s then
    match getproxy (u_scheme u) (st_ext s) with
    | None => ProxyError AtNoProxy
    | Some proxy =>
      match url_parse proxy with
      | None => ProxyError AtProxyParse
      | Some proxy_url =>
        if bool_decide (u_scheme proxy_url = SCHEME_HTTP)
        then Dispatched (call_http_loop u refurl (Some proxy_url) dt s)
        else ProxyError AtProxyScheme
      end
    end
  else if bool_decide (u_scheme u = SCHEME_HTTP)
          || (HAVE_SSL && bool_decide (u_scheme u = SCHEME_HTTPS))
  then Dispatched (call_http_loop u refurl None dt s)
  else if bool_decide (u_scheme u = SCHEME_FTP)
  then Dispatched (call_ftp_loop u redirections dt s)
  else Dispatched {| d_result := NOCONERROR; d_mynewloc := None;
                     d_local_file := None; d_dt := dt; d_state := s |}.

(** Modelled from the spec: the string sets of [utils.c] and [hash.c]
    ([make_string_hash_table], [string_set_add], [string_set_contains]) are
    not in [retr.c].  "Visited-Redirect Set: a set of canonical URL
    strings". *)
Definition make_string_hash_table : gset string := ∅.

Definition string_set_add (ht : gset string) (s : string) : gset string :=
  {[ s ]} ∪ ht.

Definition string_set_contains (ht : gset string) (s : string) : bool :=
  bool_decide (s ∈ ht).

(** Lines 380-388: a file that was retrieved in full is registered. *)
Definition register {E} `{Collaborators E} `{Platform} (url : string)
  (local_file : option string) (dt : Z) (s : state E) : state E :=
  match local_file with
  | Some lf =>
    if negb (Z.land dt RETROKF =? 0) then
      let s1 := record_call (CallRegisterDownload url lf)
                  (set_env (st_opt s) (register_download url lf (st_ext s)) s) in
      if negb (Z.land dt TEXTHTML =? 0) then
        record_call (CallRegisterHtml url lf)
          (set_env (st_opt s1) (register_html url lf (st_ext s1)) s1)
      else s1
    else s
  | None => s
  end.

(** Lines 230-406, from the label [redirected:] on.  [url], [u] and
    [redirections] are the locals of those names; [hops] counts the
    [goto redirected] executed so far. *)
Fixpoint redirected {E} `{Collaborators E} `{Platform} (fuel : nat)
  (hops : nat) (url : string) (u : struct_url) (redirections : option (gset string))
  (refurl : option string) (file newloc : out_param) (dt : Z) (s : state E)
  : outcome (retrieval E) :=
  match fuel with
  | O => Unfinished
  | S fuel' =>
    match dispatch u redirections refurl dt s with
    | ProxyError site =>
      Finished {| r_status := PROXERR; r_site := site; r_file := file;
                  r_newloc := newloc; r_dt := dt; r_hops := hops;
                  r_state := s |}
    | Dispatched d =>
      if bool_decide (d_result d = NEWLOCATION) then
        match d_mynewloc d with
        | None => Aborted
        | Some mynewloc =>
          let construced_newloc := uri_merge url mynewloc in
          match url_parse construced_newloc with
          | None =>
            Finished {| r_status := d_result d; r_site := AtRedirectParse;
                        r_file := file; r_newloc := newloc; r_dt := d_dt d;
                        r_hops := hops; r_state := d_state d |}
          | Some newloc_struct =>
            let mynewloc := u_url newloc_struct in
            let redirections1 :=
              match redirections with
              | None => string_set_add make_string_hash_table (u_url u)
              | Some ht => ht
              end in
            if string_set_contains redirections1 (u_url newloc_struct) then
              Finished {| r_status := WRONGCODE; r_site := AtCycle;
                          r_file := file; r_newloc := newloc; r_dt := d_dt d;
                          r_hops := hops; r_state := d_state d |}
            else
              redirected fuel' (S hops) mynewloc newloc_struct
                (Some (string_set_add redirections1 (u_url newloc_struct)))
                refurl file newloc (d_dt d) (d_state d)
          end
        end
      else
        let s1 := register url (d_local_file d) (d_dt d) (d_state d) in
        Finished {| r_status := d_result d; r_site := AtEnd;
                    r_file := store file (d_local_file d);
                    r_newloc := store newloc (Some url);
                    r_dt := d_dt d; r_hops := hops;
                    r_state := count_download s1 |}
    end
  end.

(** [retrieve_url (origurl, file, newloc, refurl, dt)], lines 194-407.
    [dt] is the content of the [int] that the pointer of that name refers
    to after line 210. *)
Definition retrieve_url {E} `{Collaborators E} `{Platform} (fuel : nat)
  (origurl : string) (file newloc : out_param) (refurl : option string)
  (dt : Z) (s : state E) : outcome (retrieval E) :=
  let s0 := record_call (CallRetrieveUrl origurl) s in
  let url := origurl in
  let newloc := store newloc None in
  let file := store file None in
  match url_parse url with
  | None =>
    Finished {| r_status := URLERROR; r_site := AtUrlParse; r_file := file;
                r_newloc := newloc; r_dt := dt; r_hops := 0%nat;
                r_state := s0 |}
  | Some u =>
    let refurl := match refurl with
                  | Some r => Some r
                  | None => opt_referer (st_opt s0)
                  end in
    redirected fuel 0 url u None refurl file newloc dt s0
  end.

(** The same collaborators, except that the protocol loops find [n] in
    [global_download_count] whatever the variable holds when they are
    called. *)
Definition with_count {E} (n : Z) (C : Collaborators E) : Collaborators E :=
  {| url_parse := url_parse;
     uri_merge := uri_merge;
     getproxy := getproxy;
     no_proxy_match := no_proxy_match;
     http_loop u refurl proxy dt count o e := http_loop u refurl proxy dt n o e;
     ftp_loop u dt count o e := ftp_loop u dt n o e;
     register_download := register_download;
     register_html := register_html;
     get_urls_html := get_urls_html;
     get_urls_file := get_urls_file;
     recursive_reset := recursive_reset;
     recursive_retrieve := recursive_retrieve;
     file_exists_p := file_exists_p;
     unlink := unlink |}.

(** ** Retrieving a list of URLs: [retrieve_from_file] *)

(** What the loop leaves behind: [status], [*count] and the state. *)
Record batch (E : Type) := {
  b_status : uerr_t;
  b_count : Z;
  b_state : state E
}.
Arguments b_status {E}.
Arguments b_count {E}.
Arguments b_state {E}.

(** Lines 436-451: what is done with one item after [retrieve_url]
    returned.  The assignment [dt &= ~RETROKF] changes a variable that is
    not read again. *)
Definition after_retrieval {E} `{Collaborators E} `{Platform}
  (cur_url : string) (r : retrieval E) : uerr_t * state E :=
  let filename := default None (r_file r) in
  let new_file := default None (r_newloc r) in
  let s := r_state r in
  let '(status, s1) :=
    if opt_recursive (st_opt s)
       && bool_decide (r_status r = RETROK)
       && negb (Z.land (r_dt r) TEXTHTML =? 0)
    then
      let target := default cur_url new_file in
      let s' := record_call (CallRecursiveRetrieve filename target) s in
      let rr := recursive_retrieve filename target (st_opt s') (st_ext s') in
      (rr_status rr, set_env (rr_opt rr) (rr_ext rr) s')
    else (r_status r, s) in
  match filename with
  | Some fname =>
    if opt_delete_after (st_opt s1) && file_exists_p fname (st_ext s1)
    then (status,
          record_call (CallUnlink fname)
            (set_env (st_opt s1) (unlink fname (st_ext s1)) s1))
    else (status, s1)
  | None => (status, s1)
  end.

(** Lines 425-452:
    [for (cur_url = url_list; cur_url; cur_url = cur_url->next, ++*count)].
    [dt0] is the indeterminate initial content of the local [dt]. *)
Fixpoint retrieve_list {E} `{Collaborators E} `{Platform} (fuel : nat)
  (url_list : list string) (status : uerr_t) (count : Z) (dt0 : Z)
  (s : state E) : outcome (batch E) :=
  match url_list with
  | [] => Finished {| b_status := status; b_count := count; b_state := s |}
  | cur_url :: next =>
    if downloaded_exceeds_quota (st_opt s) then
      Finished {| b_status := QUOTEXC; b_count := count; b_state := s |}
    else
      match retrieve_url fuel cur_url (Some None) (Some None) None dt0 s with
      | Finished r =>
        let '(status1, s1) := after_retrieval cur_url r in
        retrieve_list fuel next status1 (count + 1) dt0 s1
      | Aborted => Aborted
      | Unfinished => Unfinished
      end
  end.

(** [retrieve_from_file (file, html, count)], lines 414-458. *)
Definition retrieve_from_file {E} `{Collaborators E} `{Platform} (fuel : nat)
  (file : string) (html : bool) (dt0 : Z) (s : state E)
  : outcome (batch E) :=
  let url_list := if html then get_urls_html file (st_ext s)
                  else get_urls_file file (st_ext s) in
  let s1 := set_env (st_opt s) (recursive_reset (st_ext s)) s in
  retrieve_list fuel url_list RETROK 0 dt0 s1.

(** The URLs for which [retrieve_url] was entered, oldest first. *)
Definition retrieve_calls (l : list call) : list string :=
  omap (fun c => match c with
                 | CallRetrieveUrl origurl => Some origurl
                 | _ => None
                 end) l.

(** The calls of [http_loop] and [ftp_loop]. *)
Definition is_protocol_call (c : call) : Prop :=
  match c with
  | CallHttpLoop _ _ | CallFtpLoop _ _ => True
  | _ => False
  end.

(** ** Printing a download rate: [rate] *)

(** [double] is IEEE 754 binary64: 53 bits of precision, exponents below
    1024.  The operations are those of the standard library's executable
    specification of binary floating point, rounding to nearest even. *)
Definition double := spec_float.

Definition dbl_prec : Z := 53.
Definition dbl_emax : Z := 1024.

(** The conversion [(double) z] of an integer. *)
Definition double_of_Z (z : Z) : double :=
  binary_normalize dbl_prec dbl_emax z 0 false.

Definition dmul : double -> double -> double := SFmul dbl_prec dbl_emax.
Definition ddiv : double -> double -> double := SFdiv dbl_prec dbl_emax.
Definition dlt : double -> double -> bool := SFltb.
Definition dle : double -> double -> bool := SFleb.

(** A positive normal double: 53 bits of mantissa.  [mag] is the exponent
    of the power of two above it: the value is at least [2^(mag-1)] and
    below [2^mag]. *)
Definition normal_with (mag : Z) (x : double) : Prop :=
  match x with
  | S754_finite false m e => Zpos (digits2_pos m) = 53 /\ 53 + e = mag
  | _ => False
  end.

(** The double [2^k], for [k] in the range of the normal exponents. *)
Definition dpow2 (k : Z) : double := S754_finite false 4503599627370496 (k - 52).

(** Neither an infinity nor a NaN. *)
Definition is_finite (x : double) : bool :=
  match x with
  | S754_zero _ | S754_finite _ _ _ => true
  | S754_infinity _ | S754_nan => false
  end.

(** A double that is zero or finite, with sign [sx], at most 53 bits of
    mantissa and an exponent between [lo] and [hi]. *)
Definition finite_within (sx : bool) (lo hi : Z) (x : double) : Prop :=
  match x with
  | S754_zero s => s = sx
  | S754_finite s m e => s = sx /\ Zpos (digits2_pos m) <= 53 /\ lo <= e <= hi
  | _ => False
  end.

(** The constants [1024.0], [1024.0 * 1024.0] and
    [1024.0 * 1024.0 * 1024.0]. *)
Definition d1024 : double := double_of_Z 1024.
Definition d1024_2 : double := dmul d1024 d1024.
Definition d1024_3 : double := dmul d1024_2 d1024.

(** The value of a finite double times 100, rounded to the nearest integer
    with ties going to the even one: the digits that [%.2f] prints. *)
Definition hundredths (m : positive) (e : Z) : Z :=
  match e with
  | Zneg p =>
    let d := 2 ^ Zpos p in
    let q := (Zpos m * 100) / d in
    let r := (Zpos m * 100) mod d in
    match 2 * r ?= d with
    | Lt => q
    | Gt => q + 1
    | Eq => if Z.even q then q else q + 1
    end
  | _ => Zpos m * 100 * 2 ^ e
  end.

Definition decimal (n : Z) : string :=
  NilZero.string_of_uint (N.to_uint (Z.to_N n)).

Definition two_digits (n : Z) : string :=
  if n <? 10 then "0" +:+ decimal n else decimal n.

(** Right-justification in a field of [width] characters. *)
Definition pad_left (width : nat) (s : string) : string :=
  String.concat "" (replicate (width - String.length s) " ") +:+ s.

(** [sprintf] with the conversion [%.2f], or [%7.2f] when [pad] is set. *)
Definition sprintf_f2 (pad : bool) (x : double) : string :=
  let body :=
    match x with
    | S754_zero s => (if s then "-" else "") +:+ "0.00"
    | S754_infinity s => (if s then "-" else "") +:+ "inf"
    | S754_nan => "nan"
    | S754_finite s m e =>
      let h := hundredths m e in
      (if s then "-" else "") +:+ decimal (h / 100) +:+ "."
        +:+ two_digits (h mod 100)
    end in
  if pad then pad_left 7 body else body.

(** The [long] values, for a 64-bit [long]; a narrower [long] has fewer. *)
Definition LONG_MAX : Z := 2 ^ 63 - 1.

(** [msecs] after line 169. *)
Definition effective_msecs `{Platform} (msecs : Z) : Z :=
  if msecs =? 0 then wtimer_granularity else msecs.

(** [dlrate = (double)1000 * bytes / msecs], line 171. *)
Definition dlrate `{Platform} (bytes msecs : Z) : double :=
  ddiv (dmul (double_of_Z 1000) (double_of_Z bytes))
       (double_of_Z (effective_msecs msecs)).

(** [static char res[15]], line 159. *)
Definition res_size : nat := 15.

(** [sprintf (res, ...)] writes the text and a terminating null character
    to [res].  A text of [res_size] characters or more is written beyond
    the end of the array, which has no defined behaviour: [None]. *)
Definition sprintf_res (text : string) : option string :=
  if (String.length text <? res_size)%nat then Some text else None.

(** [rate (bytes, msecs, pad)], lines 156-185.  [None]: the call does not
    return a string, because an [assert] failed or because [sprintf] wrote
    beyond [res]. *)
Definition rate `{Platform} (bytes msecs : Z) (pad : bool) : option string :=
  if negb (0 <=? msecs) then None
  else if negb (0 <=? bytes) then None
  else
    let dlrate := dlrate bytes msecs in
    if dlt dlrate d1024 then
      sprintf_res (sprintf_f2 pad dlrate +:+ " B/s")
    else if dlt dlrate d1024_2 then
      sprintf_res (sprintf_f2 pad (ddiv dlrate d1024) +:+ " K/s")
    else if dlt dlrate d1024_3 then
      sprintf_res (sprintf_f2 pad (ddiv dlrate d1024_2) +:+ " M/s")
    else
      sprintf_res (sprintf_f2 pad (ddiv dlrate d1024_3) +:+ " GB/s").

(** ** An instance for running the model

    A 64-bit build with SSL, a timer that resolves milliseconds, and the
    descriptor bits of [wget.h]. *)
Definition build64 : Platform :=
  {| VERY_LONG_BITS := 64; wtimer_granularity := 1; HAVE_SSL := true;
     RETROKF := 2; TEXTHTML := 1 |}.

(** A build without SSL whose timer is [time ()]: it resolves seconds. *)
Definition build_time : Platform :=
  {| VERY_LONG_BITS := 64; wtimer_granularity := 1000; HAVE_SSL := false;
     RETROKF := 2; TEXTHTML := 1 |}.

(** An option block with everything switched off, and one with verbose
    output. *)
Definition plain_options : options :=
  {| opt_verbose := false; opt_use_proxy := false; opt_no_proxy := [];
     opt_referer := None; opt_recursive := false; opt_delete_after := false;
     opt_quota := 0; opt_downloaded := 0; opt_downloaded_overflow := false;
     opt_wait := 0; opt_waitretry := 0 |}.

Definition verbose_options : options :=
  {| opt_verbose := true; opt_use_proxy := false; opt_no_proxy := [];
     opt_referer := None; opt_recursive := false; opt_delete_after := false;
     opt_quota := 0; opt_downloaded := 0; opt_downloaded_overflow := false;
     opt_wait := 0; opt_waitretry := 0 |}.

Definition empty_disk (room : Z) : disk :=
  {| d_stored := 0; d_room := room; d_err := false |}.

(** Collaborators for running the model.  Every string that starts with
    [http://] or [ftp://] parses and is its own canonical form; locations
    are absolute; there is no proxy.  The server sends [http://a/] to
    [http://b/] and back, and [http://c/] is a page of 100 bytes that is
    stored in [c.html]; nothing else can be fetched. *)
Definition demo_parse (s : string) : option struct_url :=
  if String.prefix "http://" s
  then Some {| u_url := s; u_scheme := SCHEME_HTTP; u_host := "demo" |}
  else if String.prefix "ftp://" s
  then Some {| u_url := s; u_scheme := SCHEME_FTP; u_host := "demo" |}
  else None.

Definition demo_http_loop (u : struct_url) (refurl : option string)
  (proxy : option struct_url) (dt count : Z) (o : options) (e : unit)
  : http_result unit :=
  if String.eqb (u_url u) "http://a/" then
    {| hr_status := NEWLOCATION; hr_newloc := Some "http://b/";
       hr_local_file := None; hr_dt := 0; hr_opt := o; hr_ext := e |}
  else if String.eqb (u_url u) "http://b/" then
    {| hr_status := NEWLOCATION; hr_newloc := Some "http://a/";
       hr_local_file := None; hr_dt := 0; hr_opt := o; hr_ext := e |}
  else if String.eqb (u_url u) "http://c/" then
    {| hr_status := RETROK; hr_newloc := None;
       hr_local_file := Some "c.html"; hr_dt := 3;
       hr_opt := @downloaded_increase build64 100 o; hr_ext := e |}
  else
    {| hr_status := OTHER_STATUS 0; hr_newloc := None;
       hr_local_file := None; hr_dt := 0; hr_opt := o; hr_ext := e |}.

#[export] Instance demo_web : Collaborators unit := {
  url_parse := demo_parse;
  uri_merge base location := location;
  getproxy scheme e := None;
  no_proxy_match host no_proxy := true;
  http_loop := demo_http_loop;
  ftp_loop u dt count o e :=
    {| fr_status := OTHER_STATUS 0; fr_dt := dt; fr_opt := o; fr_ext := e |};
  register_download url file e := e;
  register_html url file e := e;
  get_urls_html file e := [];
  get_urls_file file e := ["http://c/"; "http://c/"; "http://c/"];
  recursive_reset e := e;
  recursive_retrieve file url o e :=
    {| rr_status := RETROK; rr_opt := o; rr_ext := e |};
  file_exists_p file e := true;
  unlink file e := e
}.

Definition demo_state (o : options) : state unit :=
  State o tt 0 [].

(** A second set of collaborators, for a world that is just whether the
    environment names a proxy: if so, the proxy of every scheme is
    [http://proxy/].  Through a proxy everything can be fetched.  Without
    one, the server sends [http://old/] to [ftp://new/], and [ftp_loop]
    switches [opt.recursive] off before it returns. *)
Definition mirror_http_loop (u : struct_url) (refurl : option string)
  (proxy : option struct_url) (dt count : Z) (o : options) (e : bool)
  : http_result bool :=
  match proxy with
  | Some _ =>
    {| hr_status := RETROK; hr_newloc := None;
       hr_local_file := Some "fetched"; hr_dt := 2; hr_opt := o; hr_ext := e |}
  | None =>
    if String.eqb (u_url u) "http://old/" then
      {| hr_status := NEWLOCATION; hr_newloc := Some "ftp://new/";
         hr_local_file := None; hr_dt := 0; hr_opt := o; hr_ext := e |}
    else
      {| hr_status := OTHER_STATUS 0; hr_newloc := None;
         hr_local_file := None; hr_dt := 0; hr_opt := o; hr_ext := e |}
  end.

#[export] Instance demo_mirror : Collaborators bool := {
  url_parse := demo_parse;
  uri_merge base location := location;
  getproxy scheme e := if e then Some "http://proxy/" else None;
  no_proxy_match host no_proxy := true;
  http_loop := mirror_http_loop;
  ftp_loop u dt count o e :=
    {| fr_status := RETROK; fr_dt := dt; fr_opt := set_recursive false o;
       fr_ext := e |};
  register_download url file e := e;
  register_html url file e := e;
  get_urls_html file e := [];
  get_urls_file file e := [];
  recursive_reset e := e;
  recursive_retrieve file url o e :=
    {| rr_status := RETROK; rr_opt := o; rr_ext := e |};
  file_exists_p file e := false;
  unlink file e := e
}.

(** Options with recursive retrieval, and with the use of proxies. *)
Definition recursive_options : options :=
  {| opt_verbose := false; opt_use_proxy := false; opt_no_proxy := [];
     opt_referer := None; opt_recursive := true; opt_delete_after := false;
     opt_quota := 0; opt_downloaded := 0; opt_downloaded_overflow := false;
     opt_wait := 0; opt_waitretry := 0 |}.

Definition proxy_options : options :=
  {| opt_verbose := false; opt_use_proxy := true; opt_no_proxy := [];
     opt_referer := None; opt_recursive := false; opt_delete_after := false;
     opt_quota := 0; opt_downloaded := 0; opt_downloaded_overflow := false;
     opt_wait := 0; opt_waitretry := 0 |}.

(** ** Further definitions for the properties below *)

(** What [printwhat] hands to [logputs] at level [LOG_VERBOSE]. *)
Inductive notice := GivingUp | Retrying.

(** [printwhat (int n1, int n2)], lines 462-466. *)
Definition printwhat (n1 n2 : Z) : notice :=
  if n1 =? n2 then GivingUp else Retrying.

(** The notices of the attempts [1 .. tries] against the limit [limit]:
    [printwhat (1, limit); ...; printwhat (tries, limit)]. *)
Definition notices (tries : nat) (limit : Z) : list notice :=
  map (fun i => printwhat (Z.of_nat (S i)) limit) (seq 0 tries).

(** A run of calls [sleep_between_retrievals(c1); ...;
    sleep_between_retrievals(cn)]. *)
Definition retrievals (o : options) (counts : list Z) (b : backoff) : backoff :=
  foldl (fun acc count => sleep_between_retrievals o count acc) b counts.

(** The sum of a list of increments. *)
Definition sum_list (bs : list Z) : Z := foldr Z.add 0 bs.

(** The bytes reported to the gauge: the sum of the arguments of
    [progress_update]. *)
Definition progress_total (log : list io_event) : Z :=
  foldr (fun ev acc => match ev with
                       | EvProgressUpdate n => n + acc
                       | _ => acc
                       end) 0 log.

(** How often the gauge was created, and how often completed. *)
Definition gauge_creations (log : list io_event) : nat :=
  length (omap (fun ev => match ev with
                          | EvProgressCreate _ _ => Some tt
                          | _ => None
                          end) log).

Definition gauge_finishes (log : list io_event) : nat :=
  length (omap (fun ev => match ev with
                          | EvProgressFinish => Some tt
                          | _ => None
                          end) log).

(** The bytes that the read-ahead buffer holds for the descriptor [fd]:
    what lines 90-106 have to write out. *)
Definition read_ahead (fd : Z) (rbufp : option rbuf) : Z :=
  match rbufp with
  | Some rb => if RBUF_FD rb =? fd then Z.max 0 (buffer_left rb) else 0
  | None => 0
  end.

(** The canonical URLs for which a protocol loop was entered, oldest
    first. *)
Definition protocol_urls (l : list call) : list string :=
  omap (fun c => match c with
                 | CallHttpLoop u _ | CallFtpLoop u _ => Some (u_url u)
                 | _ => None
                 end) l.

(** The calls that lines 380-388 make for a local file. *)
Definition register_calls `{Platform} (url : string)
  (local_file : option string) (dt : Z) : list call :=
  match local_file with
  | Some lf =>
    if negb (Z.land dt RETROKF =? 0) then
      CallRegisterDownload url lf
      :: (if negb (Z.land dt TEXTHTML =? 0)
          then [CallRegisterHtml url lf] else [])
    else []
  | None => []
  end.

(** The protocol loop fits the URL: [ftp_loop] is for an FTP URL,
    [http_loop] without a proxy for an HTTP URL (or an HTTPS URL in a build
    with [HAVE_SSL]), and a proxy that is handed to [http_loop] is an HTTP
    URL. *)
Definition loop_fits `{Platform} (c : call) : Prop :=
  match c with
  | CallHttpLoop u (Some proxy) => u_scheme proxy = SCHEME_HTTP
  | CallHttpLoop u None =>
    u_scheme u = SCHEME_HTTP \/ (HAVE_SSL = true /\ u_scheme u = SCHEME_HTTPS)
  | CallFtpLoop u _ => u_scheme u = SCHEME_FTP
  | _ => True
  end.

(** What a return of [retrieve_url] adds to the log after the calls: the
    mark of the increment, for the return from the end of the function. *)
Definition closing_mark (site : return_site) : list call :=
  match site with
  | AtEnd => [DownloadCounted]
  | _ => []
  end.

(** A read asks for at least one byte and at most a buffer full, and with
    an expected length for no more than is missing from [base] on. *)
Definition read_sized (use_expected : bool) (expected base : Z)
  (ev : io_event) : Prop :=
  forall s a x, ev = EvRead s a x ->
    0 < a <= chunk_size /\ (use_expected = true -> a <= expected - base).

(** A read returned no more than was asked for. *)
Definition read_honest (ev : io_event) : Prop :=
  forall s a x, ev = EvRead s a x -> x <= a.


(** * Theorems *)

(** ** Download accounting *)

Section Accounting.
Context `{P : Platform}.

Lemma vl_modulus_pos : 0 <= VERY_LONG_BITS -> 0 < vl_modulus.
Proof. intros Hb. unfold vl_modulus. apply Z.pow_pos_nonneg; lia. Qed.

Lemma VERY_LONG_MAX_eq : 0 <= VERY_LONG_BITS -> VERY_LONG_MAX = vl_modulus - 1.
Proof.
  intros Hb. pose proof (vl_modulus_pos Hb) as Hm.
  unfold VERY_LONG_MAX, vl_wrap. change (Z.lnot 0) with (-1).
  symmetry. apply (Z.mod_unique_pos _ _ (-1)); lia.
Qed.

(** Without carry the sum is stored as it is. *)
Lemma downloaded_increase_fits (o : options) (b : Z) :
  0 <= VERY_LONG_BITS -> vl_range (opt_downloaded o) -> 0 <= b ->
  opt_downloaded_overflow o = false ->
  opt_downloaded o + b < vl_modulus ->
  downloaded_increase b o = set_downloaded (opt_downloaded o + b) false o.
Proof.
  intros Hb [Hd0 Hd1] Hb0 Hovf Hfit. unfold downloaded_increase.
  rewrite Hovf. cbn [set_downloaded opt_downloaded].
  unfold vl_wrap. rewrite Z.mod_small by lia.
  destruct (Z.ltb_spec (opt_downloaded o + b) (opt_downloaded o)); [lia|].
  reflexivity.
Qed.

(** With carry the wrapped sum is below the old value: the flag latches and
    the counter is set to the largest value. *)
Lemma downloaded_increase_carry (o : options) (b : Z) :
  0 <= VERY_LONG_BITS -> vl_range (opt_downloaded o) -> 0 <= b < vl_modulus ->
  opt_downloaded_overflow o = false ->
  vl_modulus <= opt_downloaded o + b ->
  vl_wrap (opt_downloaded o + b) < opt_downloaded o /\
  opt_downloaded (downloaded_increase b o) = VERY_LONG_MAX /\
  opt_downloaded_overflow (downloaded_increase b o) = true.
Proof.
  intros Hb [Hd0 Hd1] [Hb0 Hb1] Hovf Hcarry.
  assert (Hw : vl_wrap (opt_downloaded o + b)
               = opt_downloaded o + b - vl_modulus).
  { unfold vl_wrap. symmetry. apply (Z.mod_unique_pos _ _ 1); lia. }
  split; [lia|]. unfold downloaded_increase.
  rewrite Hovf. cbn [set_downloaded opt_downloaded]. rewrite Hw.
  destruct (Z.ltb_spec (opt_downloaded o + b - vl_modulus) (opt_downloaded o));
    [|lia].
  split; reflexivity.
Qed.

Lemma downloaded_increase_latched (o : options) (b : Z) :
  opt_downloaded_overflow o = true -> downloaded_increase b o = o.
Proof. intros Hovf. unfold downloaded_increase. now rewrite Hovf. Qed.

(** One call: the counter stays in range and does not decrease, and a
    latched flag stays latched. *)
Lemma downloaded_increase_step (o : options) (b : Z) :
  0 <= VERY_LONG_BITS -> vl_range (opt_downloaded o) -> 0 <= b < vl_modulus ->
  vl_range (opt_downloaded (downloaded_increase b o)) /\
  opt_downloaded o <= opt_downloaded (downloaded_increase b o) /\
  (opt_downloaded_overflow o = true ->
   opt_downloaded_overflow (downloaded_increase b o) = true) /\
  (opt_downloaded_overflow o = false ->
   opt_downloaded_overflow (downloaded_increase b o) = true ->
   opt_downloaded (downloaded_increase b o) = VERY_LONG_MAX).
Proof.
  intros Hb Hd Hbr. pose proof (vl_modulus_pos Hb) as Hm.
  destruct (opt_downloaded_overflow o) eqn:Hovf.
  - rewrite downloaded_increase_latched by assumption.
    split; [exact Hd|]. split; [lia|].
    split; [intros _; exact Hovf | intros Hf; congruence].
  - destruct (Z.lt_ge_cases (opt_downloaded o + b) vl_modulus) as [Hfit|Hc].
    + rewrite downloaded_increase_fits by (try assumption; lia).
      cbn [set_downloaded opt_downloaded opt_downloaded_overflow].
      unfold vl_range in *. repeat split; try lia; congruence.
    + destruct (downloaded_increase_carry _ _ Hb Hd Hbr Hovf Hc) as (_ & Hmax & Hl).
      rewrite Hmax, VERY_LONG_MAX_eq by assumption.
      unfold vl_range in *. repeat split; try lia; congruence.
Qed.

Lemma increase_all_app (bs1 bs2 : list Z) (o : options) :
  increase_all (bs1 ++ bs2) o = increase_all bs2 (increase_all bs1 o).
Proof. unfold increase_all. apply foldl_app. Qed.

Lemma increase_all_latched (bs : list Z) (o : options) :
  opt_downloaded_overflow o = true -> increase_all bs o = o.
Proof.
  intros Hovf. induction bs as [|b bs IH]; [reflexivity|].
  unfold increase_all in *. cbn [foldl].
  rewrite downloaded_increase_latched by assumption. exact IH.
Qed.

Lemma increase_all_run (bs : list Z) (o : options) :
  0 <= VERY_LONG_BITS -> vl_range (opt_downloaded o) ->
  Forall (fun b => 0 <= b < vl_modulus) bs ->
  vl_range (opt_downloaded (increase_all bs o)) /\
  opt_downloaded o <= opt_downloaded (increase_all bs o) /\
  (opt_downloaded_overflow o = false ->
   opt_downloaded_overflow (increase_all bs o) = true ->
   opt_downloaded (increase_all bs o) = VERY_LONG_MAX).
Proof.
  intros Hb Hd Hbs. revert o Hd.
  induction Hbs as [|b bs Hbr Hbs IH]; intros o Hd.
  - cbn. repeat split; try apply Hd; try lia. congruence.
  - change (increase_all (b :: bs) o)
      with (increase_all bs (downloaded_increase b o)).
    destruct (downloaded_increase_step _ _ Hb Hd Hbr) as (Hr & Hle & Hk & Hmax).
    destruct (IH _ Hr) as (Hr' & Hle' & Hmax').
    repeat split; try apply Hr'; try lia.
    intros Hovf Hl.
    destruct (opt_downloaded_overflow (downloaded_increase b o)) eqn:Hmid.
    + rewrite increase_all_latched by assumption. auto.
    + auto.
Qed.

(** C6.  Along any sequence of calls [downloaded_increase(b)] with
    [0 <= b], the byte counter never decreases; the overflow flag latches
    exactly when the wrapped sum is numerically below the old value, the
    counter then holds the largest value of its type, and no later call
    changes the counter or clears the flag. *)
Theorem downloaded_increase_saturates (o : options) (bs1 bs2 : list Z) :
  0 <= VERY_LONG_BITS -> vl_range (opt_downloaded o) ->
  Forall (fun b => 0 <= b < vl_modulus) (bs1 ++ bs2) ->
  let o1 := increase_all bs1 o in
  let o2 := increase_all bs2 o1 in
  opt_downloaded o1 <= opt_downloaded o2 /\
  (opt_downloaded_overflow o1 = true -> o2 = o1) /\
  (opt_downloaded_overflow o = false -> opt_downloaded_overflow o1 = true ->
   opt_downloaded o1 = VERY_LONG_MAX) /\
  VERY_LONG_MAX = vl_modulus - 1 /\
  (forall b, 0 <= b < vl_modulus -> opt_downloaded_overflow o1 = false ->
     (opt_downloaded_overflow (downloaded_increase b o1) = true <->
      vl_wrap (opt_downloaded o1 + b) < opt_downloaded o1)).
Proof.
  intros Hb Hd Hbs o1 o2. apply Forall_app in Hbs as [Hbs1 Hbs2].
  destruct (increase_all_run _ _ Hb Hd Hbs1) as (Hr1 & Hle1 & Hmax1).
  destruct (increase_all_run _ _ Hb Hr1 Hbs2) as (Hr2 & Hle2 & _).
  split; [exact Hle2|]. split; [apply increase_all_latched|].
  split; [exact Hmax1|]. split; [apply VERY_LONG_MAX_eq; assumption|].
  intros b Hbr Hovf. fold o1 in Hr1.
  pose proof (vl_modulus_pos Hb) as Hm.
  destruct (Z.lt_ge_cases (opt_downloaded o1 + b) vl_modulus) as [Hfit|Hc].
  - rewrite downloaded_increase_fits by (try assumption; lia).
    cbn [set_downloaded opt_downloaded_overflow].
    unfold vl_wrap. rewrite Z.mod_small by (unfold vl_range in Hr1; lia).
    split; [discriminate | lia].
  - destruct (downloaded_increase_carry _ _ Hb Hr1 Hbr Hovf Hc) as (Hlt & _ & Hl).
    split; auto.
Qed.

(** C7.  [downloaded_exceeds_quota] is false when no quota is set, false
    when the overflow flag is latched whatever the counter holds, and
    otherwise true exactly when the counter is strictly above the quota. *)
Theorem downloaded_exceeds_quota_spec (o : options) :
  (opt_quota o = 0 -> downloaded_exceeds_quota o = false) /\
  (opt_downloaded_overflow o = true -> downloaded_exceeds_quota o = false) /\
  (opt_quota o <> 0 -> opt_downloaded_overflow o = false ->
   vl_range (opt_quota o) ->
   (downloaded_exceeds_quota o = true <-> opt_quota o < opt_downloaded o) /\
   (opt_downloaded o = opt_quota o -> downloaded_exceeds_quota o = false)).
Proof.
  unfold downloaded_exceeds_quota. split; [|split].
  - intros ->. reflexivity.
  - intros ->. now destruct (opt_quota o =? 0).
  - intros Hq Hovf [Hq0 Hq1]. rewrite Hovf.
    destruct (Z.eqb_spec (opt_quota o) 0); [contradiction|].
    unfold vl_wrap. rewrite Z.mod_small by (split; assumption).
    split; [apply Z.ltb_lt|]. intros ->. apply Z.ltb_irrefl.
Qed.

End Accounting.

(** On the 64-bit build: three increases, the last of which carries. *)
Lemma downloaded_increase_saturates_witness :
  let o := {| opt_verbose := false; opt_use_proxy := false; opt_no_proxy := [];
              opt_referer := None; opt_recursive := false;
              opt_delete_after := false; opt_quota := 0;
              opt_downloaded := 2 ^ 64 - 10; opt_downloaded_overflow := false;
              opt_wait := 0; opt_waitretry := 0 |} in
  let o1 := @increase_all build64 [4; 5; 7] o in
  let o2 := @increase_all build64 [1; 2] o1 in
  opt_downloaded o1 <= opt_downloaded o2 /\
  (opt_downloaded_overflow o1 = true -> o2 = o1) /\
  (opt_downloaded_overflow o = false -> opt_downloaded_overflow o1 = true ->
   opt_downloaded o1 = @VERY_LONG_MAX build64) /\
  @VERY_LONG_MAX build64 = @vl_modulus build64 - 1 /\
  (forall b, 0 <= b < @vl_modulus build64 ->
     opt_downloaded_overflow o1 = false ->
     (opt_downloaded_overflow (@downloaded_increase build64 b o1) = true <->
      @vl_wrap build64 (opt_downloaded o1 + b) < opt_downloaded o1)).
Proof.
  intros o.
  apply (@downloaded_increase_saturates build64 o [4; 5; 7] [1; 2]).
  - vm_compute. discriminate.
  - vm_compute. split; [discriminate | reflexivity].
  - repeat constructor; vm_compute; congruence.
Defined.

Lemma downloaded_exceeds_quota_spec_witness :
  let o := {| opt_verbose := false; opt_use_proxy := false; opt_no_proxy := [];
              opt_referer := None; opt_recursive := false;
              opt_delete_after := false; opt_quota := 1000;
              opt_downloaded := 1001; opt_downloaded_overflow := false;
              opt_wait := 0; opt_waitretry := 0 |} in
  @downloaded_exceeds_quota build64 o = true <-> 1000 < 1001.
Proof.
  intros o.
  destruct (@downloaded_exceeds_quota_spec build64 o) as (_ & _ & H3).
  apply H3.
  - vm_compute. discriminate.
  - reflexivity.
  - vm_compute. split; [discriminate | reflexivity].
Defined.

(** ** Retry delays *)

Lemma sleep_between_retrievals_first (o : options) (count : Z) (b : backoff) :
  first_retrieval b = true ->
  sleep_between_retrievals o count b = clear_first b.
Proof.
  intros Hf. unfold sleep_between_retrievals. rewrite Hf. cbn [negb andb].
  now rewrite Hf.
Qed.

Lemma sleep_between_retrievals_later (o : options) (count : Z) (b : backoff) :
  first_retrieval b = false ->
  sleep_between_retrievals o count b =
    if negb (opt_waitretry o =? 0) && (1 <? count)
    then sleep (Z.min (count - 1) (opt_waitretry o)) b
    else if negb (opt_wait o =? 0) then sleep (opt_wait o) b else b.
Proof.
  intros Hf. unfold sleep_between_retrievals. rewrite Hf. cbn [negb andb].
  destruct (Z.eqb_spec (opt_waitretry o) 0) as [Hr|Hr];
    destruct (Z.eqb_spec (opt_wait o) 0) as [Hw|Hw];
    destruct (Z.ltb_spec 1 count) as [Hc|Hc];
    cbn [negb andb orb sleep first_retrieval]; rewrite ?Hf; try reflexivity.
  all: destruct (Z.leb_spec count (opt_waitretry o));
    cbn [sleep first_retrieval]; rewrite ?Hf; f_equal; lia.
Qed.

Lemma to_unsigned_int_small (z : Z) :
  0 <= z <= UINT_MAX -> to_unsigned_int z = z.
Proof. intros Hz. unfold to_unsigned_int. apply Z.mod_small. lia. Qed.

(** C8.  The first call ever (the static flag still set) does not sleep
    but clears the flag, whatever waits are configured.  A later call, when
    a per-retry wait is configured and [count > 1], calls [sleep] once with
    [min (count - 1, waitretry)], converted to [unsigned int]: that many
    seconds for a wait in the range of [unsigned int]; otherwise it calls
    [sleep] with the flat wait if one is configured, and otherwise it does
    not sleep. *)
Theorem sleep_between_retrievals_spec (o : options) (count : Z) (b : backoff) :
  let b' := sleep_between_retrievals o count b in
  first_retrieval b' = false /\
  (first_retrieval b = true -> slept b' = slept b) /\
  (first_retrieval b = false -> opt_waitretry o <> 0 -> 1 < count ->
   slept b'
   = slept b ++ [to_unsigned_int (Z.min (count - 1) (opt_waitretry o))] /\
   (0 <= opt_waitretry o <= UINT_MAX ->
    slept b' = slept b ++ [Z.min (count - 1) (opt_waitretry o)])) /\
  (first_retrieval b = false -> opt_waitretry o = 0 \/ count <= 1 ->
   opt_wait o <> 0 ->
   slept b' = slept b ++ [to_unsigned_int (opt_wait o)] /\
   (0 <= opt_wait o <= UINT_MAX -> slept b' = slept b ++ [opt_wait o])) /\
  (first_retrieval b = false -> opt_waitretry o = 0 \/ count <= 1 ->
   opt_wait o = 0 -> slept b' = slept b).
Proof.
  intros b'. subst b'. destruct (first_retrieval b) eqn:Hf.
  - rewrite sleep_between_retrievals_first by assumption.
    repeat split; try reflexivity; intros; discriminate.
  - rewrite sleep_between_retrievals_later by assumption.
    split; [|split; [intros; discriminate|split; [|split]]].
    + repeat match goal with |- context [if ?c then _ else _] => destruct c end;
        exact Hf.
    + intros _ Hr Hc.
      destruct (Z.eqb_spec (opt_waitretry o) 0) as [|_]; [contradiction|].
      destruct (Z.ltb_spec 1 count) as [_|]; [|lia].
      cbn [negb andb sleep slept]. split; [reflexivity|].
      intros Hrange. rewrite to_unsigned_int_small by lia. reflexivity.
    + intros _ Hr Hw.
      assert (Hcond : negb (opt_waitretry o =? 0) && (1 <? count) = false).
      { destruct Hr as [->|Hc]; [reflexivity|].
        destruct (Z.ltb_spec 1 count); [lia|]. apply andb_false_r. }
      rewrite Hcond. destruct (Z.eqb_spec (opt_wait o) 0) as [|_]; [contradiction|].
      cbn [negb sleep slept]. split; [reflexivity|].
      intros Hrange. now rewrite to_unsigned_int_small.
    + intros _ Hr Hw.
      assert (Hcond : negb (opt_waitretry o =? 0) && (1 <? count) = false).
      { destruct Hr as [->|Hc]; [reflexivity|].
        destruct (Z.ltb_spec 1 count); [lia|]. apply andb_false_r. }
      rewrite Hcond, Hw. reflexivity.
Qed.

(** The example of the specification: with [waitretry = 5] the first call
    of the process does not sleep and a second call with [count = 3] sleeps
    [min (2, 5) = 2] seconds. *)
Lemma sleep_between_retrievals_spec_witness :
  let o := {| opt_verbose := false; opt_use_proxy := false; opt_no_proxy := [];
              opt_referer := None; opt_recursive := false;
              opt_delete_after := false; opt_quota := 0;
              opt_downloaded := 0; opt_downloaded_overflow := false;
              opt_wait := 7; opt_waitretry := 5 |} in
  let b1 := sleep_between_retrievals o 3 backoff_init in
  let b2 := sleep_between_retrievals o 3 b1 in
  slept b1 = [] /\ first_retrieval b1 = false /\ slept b2 = [2].
Proof.
  intros o b1 b2.
  destruct (sleep_between_retrievals_spec o 3 backoff_init)
    as (Hc1 & Hs1 & _).
  destruct (sleep_between_retrievals_spec o 3 b1) as (_ & _ & Hs2 & _).
  split; [apply Hs1; reflexivity|]. split; [exact Hc1|].
  apply Hs2; [reflexivity | discriminate | reflexivity |].
  vm_compute. split; discriminate.
Defined.

(** ** Streaming a connection into a file *)

Section GetContents.
Context {F : Type} `{SF : Stdio F} `{P : Platform}.

Lemma rbuf_flush_range (rb : rbuf) (maxsize : Z) :
  0 < maxsize ->
  0 <= fst (rbuf_flush rb maxsize) /\
  (fst (rbuf_flush rb maxsize) = 0 -> buffer_left rb <= 0) /\
  (fst (rbuf_flush rb maxsize) <> 0 ->
   buffer_left (snd (rbuf_flush rb maxsize)) < buffer_left rb /\
   0 <= buffer_left (snd (rbuf_flush rb maxsize))).
Proof.
  intros Hm. unfold rbuf_flush.
  destruct (Z.ltb_spec 0 (buffer_left rb)); cbn [fst snd buffer_left]; lia.
Qed.

(** What the loop over the read-ahead buffer adds to the log: no read from
    the connection and no gauge creation or completion; a [return -2] right
    after the first short write and no failure before it; otherwise no
    failure at all, [res = 0] at the end, and [*len] has not decreased. *)
Lemma flush_loop_log (fuel : nat) (verbose : bool) :
  forall (rb : rbuf) (nf : bool) (t : transfer F),
  (Z.to_nat (buffer_left rb) < fuel)%nat ->
  exists new,
    t_log (flow_state (flush_loop fuel verbose rb nf t).1.1) = t_log t ++ new /\
    Forall (fun ev => ~ is_read ev /\ ~ is_gauge_end ev) new /\
    t_len t <= t_len (flow_state (flush_loop fuel verbose rb nf t).1.1) /\
    match (flush_loop fuel verbose rb nf t).1.1 with
    | Returned code _ =>
      code = -2 /\
      exists pre ev, new = pre ++ [ev] /\ write_failure ev /\
                     Forall (fun ev => ~ write_failure ev) pre
    | Running t' =>
      Forall (fun ev => ~ write_failure ev) new /\ t_res t' = 0
    end.
Proof.
  induction fuel as [|fuel IH]; intros rb nf t Hfuel; [lia|].
  cbn [flush_loop].
  pose proof (rbuf_flush_range rb chunk_size eq_refl) as (Hres0 & Hz & Hnz).
  destruct (rbuf_flush rb chunk_size) as [res rb1]. cbn [fst snd] in *.
  destruct (Z.eqb_spec res 0) as [->|Hne].
  - exists [EvRbufFlush 0]. cbn. repeat split; try lia.
    + repeat constructor; cbn; tauto.
    + repeat constructor; cbn; tauto.
  - destruct (fwrite res (t_fp _)) as [w fp1] eqn:Hw.
    destruct (Z.ltb_spec w res) as [Hshort|Hfull].
    + exists [EvRbufFlush res; EvFwrite Buffered res w]. cbn.
      rewrite <- app_assoc. repeat split; try lia.
      * repeat constructor; cbn; tauto.
      * exists [EvRbufFlush res], (EvFwrite Buffered res w).
        repeat split; [exact Hshort | repeat constructor; cbn; tauto].
    + destruct (Hnz Hne) as [Hless Hleft].
      match goal with |- context [flush_loop fuel verbose rb1 true ?t'] =>
        destruct (IH rb1 true t') as (new & Hlog & Hnr & Hlen & Hfl); [lia|]
      end.
      exists ([EvRbufFlush res; EvFwrite Buffered res w]
              ++ (if verbose then [EvProgressUpdate res] else []) ++ new).
      split; [|split; [|split]].
      * rewrite Hlog. destruct verbose; cbn; rewrite <- ?app_assoc; reflexivity.
      * repeat (apply Forall_cons; split; [cbn; tauto|]).
        apply Forall_app; split; [|exact Hnr].
        destruct verbose; repeat constructor; cbn; tauto.
      * destruct verbose; cbn in Hlen |- *; lia.
      * destruct (flush_loop fuel verbose rb1 true _).1.1 as [code t'|t'].
        -- destruct Hfl as (Hcode & pre & ev & -> & Hev & Hpre).
           split; [exact Hcode|].
           exists ([EvRbufFlush res; EvFwrite Buffered res w]
                   ++ (if verbose then [EvProgressUpdate res] else []) ++ pre), ev.
           rewrite <- !app_assoc. split; [reflexivity|]. split; [exact Hev|].
           repeat (apply Forall_cons; split; [cbn; lia|]).
           apply Forall_app; split; [|exact Hpre].
           destruct verbose; repeat constructor; cbn; tauto.
        -- destruct Hfl as (Hok & Hres). split; [|exact Hres].
           repeat (apply Forall_cons; split; [cbn; lia|]).
           apply Forall_app; split; [|exact Hok].
           destruct verbose; repeat constructor; cbn; tauto.
Qed.

Lemma flush_phase_log (verbose : bool) (fd : Z) (rbufp : option rbuf)
  (t : transfer F) :
  exists new,
    t_log (flow_state (flush_phase verbose fd rbufp t).1) = t_log t ++ new /\
    Forall (fun ev => ~ is_read ev /\ ~ is_gauge_end ev) new /\
    t_len t <= t_len (flow_state (flush_phase verbose fd rbufp t).1) /\
    match (flush_phase verbose fd rbufp t).1 with
    | Returned code _ =>
      code = -2 /\
      exists pre ev, new = pre ++ [ev] /\ write_failure ev /\
                     Forall (fun ev => ~ write_failure ev) pre
    | Running t' =>
      Forall (fun ev => ~ write_failure ev) new /\
      (t_res t = 0 -> t_res t' = 0)
    end.
Proof.
  assert (Hskip : exists new : list io_event,
    t_log t = t_log t ++ new /\
    Forall (fun ev => ~ is_read ev /\ ~ is_gauge_end ev) new /\
    t_len t <= t_len t /\
    Forall (fun ev => ~ write_failure ev) new /\ (t_res t = 0 -> t_res t = 0)).
  { exists []. rewrite app_nil_r. repeat split; auto; lia. }
  unfold flush_phase. destruct rbufp as [rb|]; [|exact Hskip].
  destruct (RBUF_FD rb =? fd); [|exact Hskip]. clear Hskip.
  destruct (flush_loop_log (S (Z.to_nat (buffer_left rb))) verbose rb false t)
    as (new & Hlog & Hnr & Hlen & Hfl); [lia|].
  destruct (flush_loop _ verbose rb false t) as [[fl rb1] nf].
  cbn [fst snd] in *. destruct fl as [code t1|t1]; cbn [fst flow_state] in *.
  - exists new. auto.
  - destruct Hfl as [Hok Hres].
    set (t2 := if nf then emit EvFflush (set_fp (fflush (t_fp t1)) t1) else t1).
    assert (Ht2 : t_log t2 = t_log t1 ++ (if nf then [EvFflush] else [])
                  /\ t_len t2 = t_len t1 /\ t_res t2 = t_res t1).
    { subst t2. destruct nf; cbn; rewrite ?app_nil_r; auto. }
    destruct Ht2 as (Hlog2 & Hlen2 & Hres2).
    exists (new ++ (if nf then [EvFflush] else []) ++ [EvFerror (ferror (t_fp t2))]).
    assert (Hshape : Forall (fun ev => ~ is_read ev /\ ~ is_gauge_end ev)
              (new ++ (if nf then [EvFflush] else [])
                   ++ [EvFerror (ferror (t_fp t2))])).
    { apply Forall_app; split; [exact Hnr|].
      destruct nf; repeat constructor; cbn; tauto. }
    assert (Hpre : Forall (fun ev => ~ write_failure ev)
              (new ++ (if nf then [EvFflush] else []))).
    { apply Forall_app; split; [exact Hok|].
      destruct nf; repeat constructor; cbn; tauto. }
    destruct (ferror (t_fp t2)) eqn:He; cbn [fst flow_state emit t_log t_len].
    + rewrite Hlog2, Hlog, <- !app_assoc. repeat split; auto; try lia.
      exists (new ++ (if nf then [EvFflush] else [])), (EvFerror true).
      rewrite <- app_assoc. repeat split; auto.
    + rewrite Hlog2, Hlog, <- !app_assoc. repeat split; auto; try lia.
      * rewrite app_assoc. apply Forall_app; split; [exact Hpre|].
        repeat constructor. cbn. discriminate.
      * intros _. cbn. lia.
Qed.

(** What the loop over the connection adds to the log: no gauge creation
    or completion; nothing at all when the expected length is already
    there; a [return -2] right after the first set error indicator, with
    only positive reads before it; otherwise no failure, and a read that is
    not positive is what [res] holds at the end. *)
Lemma main_loop_log (verbose secure use_expected : bool) (expected : Z)
  (at_end : conn_end) :
  forall (reads : list Z) (t : transfer F),
  exists new,
    t_log (flow_state
             (main_loop verbose secure use_expected expected reads at_end t).1)
      = t_log t ++ new /\
    Forall (fun ev => ~ is_gauge_end ev) new /\
    (use_expected = true -> expected <= t_len t -> new = []) /\
    match (main_loop verbose secure use_expected expected reads at_end t).1 with
    | Returned code _ =>
      code = -2 /\
      (exists pre, new = pre ++ [EvFerror true] /\
                   Forall (fun ev => ~ write_failure ev) pre) /\
      Forall (fun ev => forall s a x, ev = EvRead s a x -> 0 < x) new
    | Running t' =>
      Forall (fun ev => ~ write_failure ev) new /\
      Forall (fun ev => forall s a x, ev = EvRead s a x -> x <= 0 ->
                                      t_res t' = x) new /\
      (new = [] -> t_res t' = t_res t)
    end.
Proof.
  assert (Hstop : forall t : transfer F, exists new : list io_event,
    t_log t = t_log t ++ new /\
    Forall (fun ev => ~ is_gauge_end ev) new /\
    (use_expected = true -> expected <= t_len t -> new = []) /\
    Forall (fun ev => ~ write_failure ev) new /\
    Forall (fun ev => forall s a x, ev = EvRead s a x -> x <= 0 ->
                                    t_res t = x) new /\
    (new = [] -> t_res t = t_res t)).
  { intros t. exists []. rewrite app_nil_r. repeat split; auto. }
  induction reads as [|res rest IH]; intros t; cbn [main_loop].
  - destruct (negb use_expected || (t_len t <? expected)) eqn:Hcond;
      [|apply Hstop]. cbn [fst flow_state emit set_res t_log t_res].
    eexists [_]. split; [reflexivity|]. repeat split.
    + repeat constructor. cbn. tauto.
    + intros -> Hlen. cbn in Hcond. apply Z.ltb_lt in Hcond. lia.
    + repeat constructor. cbn. tauto.
    + repeat constructor. intros s a x [= _ _ ->] _. reflexivity.
    + discriminate.
  - destruct (negb use_expected || (t_len t <? expected)) eqn:Hcond;
      [|apply Hstop].
    assert (Hne : use_expected = true -> expected <= t_len t -> False).
    { intros -> Hlen. cbn in Hcond. apply Z.ltb_lt in Hcond. lia. }
    set (amount := if use_expected then MIN (expected - t_len t) chunk_size
                   else chunk_size).
    destruct (Z.ltb_spec 0 res) as [Hpos|Hnpos].
    + destruct (fwrite res (t_fp _)) as [w fp1] eqn:Hw.
      cbn [emit set_fp set_res t_fp t_log t_res t_len].
      destruct (ferror (fflush fp1)) eqn:He;
        cbn [fst flow_state emit set_fp set_res t_fp t_log t_res t_len].
      * eexists [_; _; _; _]. rewrite <- !app_assoc. split; [reflexivity|].
        repeat split.
        -- repeat constructor; cbn; tauto.
        -- intros; exfalso; auto.
        -- eexists [_; _; _]. split; [reflexivity|].
           repeat constructor; cbn; tauto.
        -- repeat constructor; intros s a x [=]; subst; lia.
      * match goal with |- context [main_loop _ _ _ _ rest at_end ?t'] =>
          destruct (IH t') as (new & Hlog & Hg & _ & Hfl)
        end.
        exists ([EvRead secure amount res; EvFwrite Network res w; EvFflush;
                 EvFerror false]
                ++ (if verbose then [EvProgressUpdate res] else []) ++ new).
        split; [|split; [|split]].
        -- rewrite Hlog. destruct verbose; cbn; rewrite <- !app_assoc;
             reflexivity.
        -- repeat (apply Forall_cons; split; [cbn; tauto|]).
           apply Forall_app; split; [|exact Hg].
           destruct verbose; repeat constructor; cbn; tauto.
        -- intros; exfalso; auto.
        -- destruct (main_loop _ _ _ _ rest at_end _).1 as [code t'|t'].
           ++ destruct Hfl as (Hcode & (pre & -> & Hpre) & Hreads).
              split; [exact Hcode|]. split.
              ** exists ([EvRead secure amount res; EvFwrite Network res w;
                          EvFflush; EvFerror false]
                         ++ (if verbose then [EvProgressUpdate res] else [])
                         ++ pre).
                 rewrite <- !app_assoc. split; [reflexivity|].
                 repeat (apply Forall_cons; split;
                         [cbn; try tauto; discriminate|]).
                 apply Forall_app; split; [|exact Hpre].
                 destruct verbose; repeat constructor; cbn; tauto.
              ** apply Forall_cons; split;
                   [intros s a x [=]; subst; lia|].
                 repeat (apply Forall_cons; split; [discriminate|]).
                 apply Forall_app; split; [|exact Hreads].
                 destruct verbose; repeat constructor; discriminate.
           ++ destruct Hfl as (Hok & Hreads & _). repeat split.
              ** repeat (apply Forall_cons; split;
                         [cbn; try tauto; discriminate|]).
                 apply Forall_app; split; [|exact Hok].
                 destruct verbose; repeat constructor; cbn; tauto.
              ** apply Forall_cons; split;
                   [intros s a x [=]; subst; lia|].
                 repeat (apply Forall_cons; split; [discriminate|]).
                 apply Forall_app; split; [|exact Hreads].
                 destruct verbose; repeat constructor; discriminate.
              ** discriminate.
    + cbn [fst flow_state emit set_res t_log t_res].
      eexists [_]. split; [reflexivity|]. repeat split.
      * repeat constructor. cbn. tauto.
      * intros; exfalso; auto.
      * repeat constructor. cbn. tauto.
      * repeat constructor. intros s a x [= _ _ ->] _. reflexivity.
      * discriminate.
Qed.

(** The log of a whole call: the gauge is created first if at all; then
    comes the transfer, which ends with the first output failure exactly
    when -2 is returned; the gauge is completed last, and only when the
    return is not one of the [return -2] statements. *)
Lemma get_contents_shape (o : options) (fd : Z) (conn : connection) (fp : F)
  (restval expected : Z) (rbufp : option rbuf) (use_expected : bool) :
  let r := get_contents o fd conn fp restval expected rbufp use_expected in
  exists body,
    gc_log r =
      (if opt_verbose o then [EvProgressCreate restval expected] else [])
      ++ body
      ++ (if opt_verbose o && negb (gc_code r =? -2)
          then [EvProgressFinish] else []) /\
    Forall (fun ev => ~ is_gauge_end ev) body /\
    (gc_code r = -2 ->
     (exists pre ev, body = pre ++ [ev] /\ write_failure ev /\
                     Forall (fun ev => ~ write_failure ev) pre) /\
     Forall (fun ev => forall s a x, ev = EvRead s a x -> 0 < x) body) /\
    (gc_code r <> -2 ->
     -1 <= gc_code r /\
     Forall (fun ev => ~ write_failure ev) body /\
     Forall (fun ev => forall s a x, ev = EvRead s a x -> x <= 0 ->
                                     gc_code r = Z.max x (-1)) body) /\
    (use_expected = true -> expected <= restval ->
     Forall (fun ev => ~ is_read ev) body /\
     (gc_code r = 0 \/ gc_code r = -2)).
Proof.
  intros r. subst r. unfold get_contents.
  set (t1 := emit_if (opt_verbose o) (EvProgressCreate restval expected)
                     (Transfer 0 restval fp [])).
  assert (Ht1 : t_log t1 = (if opt_verbose o
                            then [EvProgressCreate restval expected] else [])
                /\ t_res t1 = 0 /\ t_len t1 = restval).
  { subst t1. destruct (opt_verbose o); cbn; auto. }
  destruct Ht1 as (Hlog1 & Hres1 & Hlen1).
  destruct (flush_phase_log (opt_verbose o) fd rbufp t1)
    as (new1 & Hlog2 & Hshape1 & Hlen2 & Hfl1).
  destruct (flush_phase (opt_verbose o) fd rbufp t1) as [fl1 rb1].
  cbn [fst] in *. destruct fl1 as [code t2|t2]; cbn [flow_state] in *.
  - destruct Hfl1 as (-> & pre & ev & -> & Hev & Hpre).
    exists (pre ++ [ev]). cbn [gc_return gc_log gc_code].
    rewrite andb_false_r, app_nil_r, Hlog2, Hlog1.
    split; [reflexivity|]. split.
    { eapply Forall_impl; [exact Hshape1|]. cbn. tauto. }
    split; [|split].
    + intros _. split; [eauto|].
      eapply Forall_impl; [exact Hshape1|].
      intros ev' [Hnr _] s a x ->. cbn in Hnr. tauto.
    + intros Hne. contradiction.
    + intros _ _. split; [|now right].
      eapply Forall_impl; [exact Hshape1|]. cbn. tauto.
  - destruct Hfl1 as [Hok1 Hres2]. specialize (Hres2 Hres1).
    destruct (main_loop_log (opt_verbose o) (reads_secure rbufp) use_expected
                expected (conn_at_end conn) (conn_reads conn) t2)
      as (new2 & Hlog3 & Hshape2 & Hnone & Hfl2).
    destruct (main_loop _ _ use_expected expected _ _ t2) as [fl2 rest].
    cbn [fst] in *. destruct fl2 as [code t3|t3]; cbn [flow_state] in *.
    + destruct Hfl2 as (-> & (pre & -> & Hpre) & Hreads).
      exists (new1 ++ pre ++ [EvFerror true]). cbn [gc_return gc_log gc_code].
      rewrite andb_false_r, app_nil_r, Hlog3, Hlog2, Hlog1, <- !app_assoc.
      split; [reflexivity|]. split.
      { apply Forall_app; split; [|exact Hshape2].
        eapply Forall_impl; [exact Hshape1|]. cbn. tauto. }
      split; [|split].
      * intros _. split.
        -- exists (new1 ++ pre), (EvFerror true). rewrite <- app_assoc.
           split; [reflexivity|]. split; [reflexivity|].
           apply Forall_app; auto.
        -- apply Forall_app; split; [|exact Hreads].
           eapply Forall_impl; [exact Hshape1|].
           intros ev' [Hnr _] s a x ->. cbn in Hnr. tauto.
      * intros Hne. contradiction.
      * intros Hue Hexp. exfalso.
        assert (Hnil : pre ++ [EvFerror true] = []) by (apply Hnone; [auto|lia]).
        destruct pre; discriminate.
    + destruct Hfl2 as (Hok2 & Hreads & Hnil).
      set (t4 := if t_res t3 <? -1 then set_res (-1) t3 else t3).
      assert (Ht4 : t_log t4 = t_log t3 /\ t_res t4 = Z.max (t_res t3) (-1)).
      { subst t4. destruct (Z.ltb_spec (t_res t3) (-1)); cbn; split; auto; lia. }
      destruct Ht4 as [Hlog4 Hres4].
      set (t5 := emit_if (opt_verbose o) EvProgressFinish t4).
      assert (Ht5 : t_log t5 = t_log t4 ++ (if opt_verbose o
                                            then [EvProgressFinish] else [])
                    /\ t_res t5 = t_res t4).
      { subst t5. destruct (opt_verbose o); cbn; rewrite ?app_nil_r; auto. }
      destruct Ht5 as [Hlog5 Hres5].
      exists (new1 ++ new2). cbn [gc_return gc_log gc_code].
      assert (Hcode : t_res t5 <> -2) by lia.
      destruct (Z.eqb_spec (t_res t5) (-2)) as [|_]; [contradiction|].
      rewrite andb_true_r, Hlog5, Hlog4, Hlog3, Hlog2, Hlog1, <- !app_assoc.
      split; [reflexivity|]. split.
      { apply Forall_app; split; [|exact Hshape2].
        eapply Forall_impl; [exact Hshape1|]. cbn. tauto. }
      split; [|split].
      * intros Hc. contradiction.
      * intros _. split; [lia|]. split; [apply Forall_app; auto|].
        apply Forall_app; split.
        -- eapply Forall_impl; [exact Hshape1|].
           intros ev' [Hnr _] s a x ->. cbn in Hnr. tauto.
        -- eapply Forall_impl; [exact Hreads|].
           intros ev' Hev s a x -> Hx. rewrite Hres5, Hres4.
           now rewrite (Hev s a x eq_refl Hx).
      * intros Hue Hexp.
        assert (Hn2 : new2 = []) by (apply Hnone; [auto|lia]). subst new2.
        rewrite app_nil_r. split.
        -- eapply Forall_impl; [exact Hshape1|]. cbn. tauto.
        -- left. rewrite Hres5, Hres4, (Hnil eq_refl), Hres2. reflexivity.
Qed.

(** When no length is expected the loop over the connection is left only
    by a [return -2] or after a read that was not positive. *)
Lemma main_loop_unbounded (verbose secure : bool) (expected : Z)
  (at_end : conn_end) :
  forall (reads : list Z) (t : transfer F),
  match (main_loop verbose secure false expected reads at_end t).1 with
  | Returned _ _ => True
  | Running t' => t_res t' <= 0
  end.
Proof.
  induction reads as [|res rest IH]; intros t; cbn [main_loop negb orb].
  - cbn. destruct at_end; cbn; lia.
  - destruct (Z.ltb_spec 0 res) as [Hpos|Hnpos]; [|cbn; lia].
    destruct (fwrite res (t_fp _)) as [w fp1].
    cbn [emit set_fp set_res t_fp].
    destruct (ferror (fflush fp1)); [exact I|]. apply IH.
Qed.

Lemma get_contents_unbounded (o : options) (fd : Z) (conn : connection)
  (fp : F) (restval expected : Z) (rbufp : option rbuf) :
  let r := get_contents o fd conn fp restval expected rbufp false in
  gc_code r = 0 \/ gc_code r = -1 \/ gc_code r = -2.
Proof.
  intros r. subst r. unfold get_contents.
  set (t1 := emit_if _ _ _).
  destruct (flush_phase_log (opt_verbose o) fd rbufp t1)
    as (new1 & _ & _ & _ & Hfl1).
  destruct (flush_phase (opt_verbose o) fd rbufp t1) as [fl1 rb1].
  cbn [fst] in *. destruct fl1 as [code t2|t2].
  - destruct Hfl1 as [-> _]. cbn. auto.
  - pose proof (main_loop_unbounded (opt_verbose o) (reads_secure rbufp)
                  expected (conn_at_end conn) (conn_reads conn) t2) as Hres.
    destruct (main_loop_log (opt_verbose o) (reads_secure rbufp) false
                expected (conn_at_end conn) (conn_reads conn) t2)
      as (new2 & _ & _ & _ & Hfl2).
    destruct (main_loop _ _ false expected _ _ t2) as [fl2 rest].
    cbn [fst] in *. destruct fl2 as [code t3|t3].
    + destruct Hfl2 as [-> _]. cbn. auto.
    + cbn [gc_return gc_code].
      destruct (opt_verbose o); cbn [emit_if emit t_res];
        destruct (Z.ltb_spec (t_res t3) (-1)); cbn [set_res t_res]; lia.
Qed.

End GetContents.

(** ** Lengths and sizes in [get_contents] *)

Lemma progress_total_app (l1 l2 : list io_event) :
  progress_total (l1 ++ l2) = progress_total l1 + progress_total l2.
Proof.
  unfold progress_total. induction l1 as [|ev l1 IH]; cbn; [reflexivity|].
  destruct ev; rewrite IH; lia.
Qed.

Section GetContentsLengths.
Context {F : Type} `{SF : Stdio F} `{P : Platform}.

(** The loop over the read-ahead buffer moves bytes from the buffer to
    [*len]: none is counted twice, and when the loop is left without a
    [return] the buffer is empty and all its bytes are counted. *)
Lemma flush_loop_len (fuel : nat) (verbose : bool) :
  forall (rb : rbuf) (nf : bool) (t : transfer F),
  (Z.to_nat (buffer_left rb) < fuel)%nat ->
  let out := flush_loop fuel verbose rb nf t in
  t_len t <= t_len (flow_state out.1.1) /\
  t_len (flow_state out.1.1) + Z.max 0 (buffer_left out.1.2)
    <= t_len t + Z.max 0 (buffer_left rb) /\
  RBUF_FD out.1.2 = RBUF_FD rb /\
  (verbose = true ->
   t_len (flow_state out.1.1) - progress_total (t_log (flow_state out.1.1))
   = t_len t - progress_total (t_log t)) /\
  match out.1.1 with
  | Returned _ _ => True
  | Running t' =>
    buffer_left out.1.2 <= 0 /\
    t_len t' = t_len t + Z.max 0 (buffer_left rb)
  end.
Proof.
  induction fuel as [|fuel IH]; intros rb nf t Hfuel; [lia|].
  cbn [flush_loop]. cbv zeta.
  pose proof (rbuf_flush_range rb chunk_size eq_refl) as (Hres0 & Hz & Hnz).
  assert (Hfd : RBUF_FD (rbuf_flush rb chunk_size).2 = RBUF_FD rb).
  { unfold rbuf_flush. destruct (0 <? buffer_left rb); reflexivity. }
  assert (Hsum : (rbuf_flush rb chunk_size).1
                 + Z.max 0 (buffer_left (rbuf_flush rb chunk_size).2)
                 = Z.max 0 (buffer_left rb)).
  { unfold rbuf_flush, chunk_size.
    destruct (Z.ltb_spec 0 (buffer_left rb)); cbn [fst snd buffer_left]; lia. }
  destruct (rbuf_flush rb chunk_size) as [res rb1]. cbn [fst snd] in *.
  destruct (Z.eqb_spec res 0) as [->|Hne].
  - cbn [fst snd flow_state emit set_res t_len t_log].
    rewrite progress_total_app. cbn. repeat split; try lia.
  - destruct (fwrite res (t_fp _)) as [w fp1].
    destruct (Z.ltb_spec w res) as [Hshort|Hfull].
    + cbn [fst snd flow_state emit set_res set_fp t_len t_log].
      rewrite !progress_total_app. cbn. repeat split; try lia.
    + destruct (Hnz Hne) as [Hless Hleft].
      match goal with |- context [flush_loop fuel verbose rb1 true ?t'] =>
        specialize (IH rb1 true t' ltac:(lia)); cbv zeta in IH;
        assert (Ht' : t_len t' = t_len t + res
                      /\ (verbose = true ->
                          progress_total (t_log t')
                          = progress_total (t_log t) + res))
      end.
      { destruct verbose; cbn; rewrite !progress_total_app; cbn;
          split; try lia; discriminate. }
      destruct Ht' as [Hlen' Hprog'].
      destruct (flush_loop fuel verbose rb1 true _) as [[fl rb2] nf2].
      cbn [fst snd] in *.
      destruct IH as (I1 & I2 & I3 & I4 & I5).
      split; [lia|]. split; [lia|]. split; [congruence|]. split.
      * intros Hv. rewrite (I4 Hv), (Hprog' Hv). lia.
      * destruct fl; [exact I|]. lia.
Qed.

Lemma flush_phase_len (verbose : bool) (fd : Z) (rbufp : option rbuf)
  (t : transfer F) :
  let out := flush_phase verbose fd rbufp t in
  t_len t <= t_len (flow_state out.1) <= t_len t + read_ahead fd rbufp /\
  (verbose = true ->
   t_len (flow_state out.1) - progress_total (t_log (flow_state out.1))
   = t_len t - progress_total (t_log t)) /\
  match out.1 with
  | Returned _ _ => True
  | Running t' =>
    read_ahead fd out.2 = 0 /\ t_len t' = t_len t + read_ahead fd rbufp
  end.
Proof.
  unfold flush_phase, read_ahead. destruct rbufp as [rb|].
  - destruct (Z.eqb_spec (RBUF_FD rb) fd) as [Hfd|Hfd].
    + pose proof (flush_loop_len (S (Z.to_nat (buffer_left rb))) verbose rb
                    false t ltac:(lia)) as Hloop. cbv zeta in Hloop.
      destruct (flush_loop _ verbose rb false t) as [[fl rb1] nf].
      cbn [fst snd] in Hloop. destruct Hloop as (L1 & L2 & L3 & L4 & L5).
      destruct fl as [code t1|t1]; cbn [fst snd flow_state] in *.
      * repeat split; try lia. exact L4.
      * destruct L5 as [Hempty Hlen].
        assert (Hra : (if RBUF_FD rb1 =? fd
                       then Z.max 0 (buffer_left rb1) else 0) = 0).
        { destruct (RBUF_FD rb1 =? fd); lia. }
        destruct nf; destruct (ferror _);
          cbn [fst snd flow_state emit set_fp t_len t_log];
          rewrite ?progress_total_app; cbn [progress_total foldr];
          (split; [lia|]); (split; [intros Hv; specialize (L4 Hv); lia|]);
          try exact I; split; assumption.
    + cbn. rewrite (proj2 (Z.eqb_neq _ _) Hfd). repeat split; lia.
  - cbn. repeat split; lia.
Qed.

(** The loop over the connection: [*len] grows by what was read and
    written, the gauge is told the same, every read is sized as
    [read_sized] says, the loop is left without a [return] only after a
    read that was not positive or with the expected length reached, and
    with honest reads [*len] does not pass the expected length. *)
Lemma main_loop_len (verbose secure use_expected : bool) (expected base : Z)
  (at_end : conn_end) :
  forall (reads : list Z) (t : transfer F),
  base <= t_len t ->
  let out := main_loop verbose secure use_expected expected reads at_end t in
  t_len t <= t_len (flow_state out.1) /\
  (forall ev, ev ∈ t_log t -> ev ∈ t_log (flow_state out.1)) /\
  (verbose = true ->
   t_len (flow_state out.1) - progress_total (t_log (flow_state out.1))
   = t_len t - progress_total (t_log t)) /\
  (Forall (read_sized use_expected expected base) (t_log t) ->
   Forall (read_sized use_expected expected base) (t_log (flow_state out.1))) /\
  (use_expected = true ->
   Forall read_honest (t_log (flow_state out.1)) ->
   t_len (flow_state out.1) <= Z.max (t_len t) expected) /\
  match out.1 with
  | Returned _ _ => True
  | Running t' =>
    (t_res t' <= 0 \/ (use_expected = true /\ expected <= t_len t')) /\
    (t_res t' = t_res t \/ exists s a, EvRead s a (t_res t') ∈ t_log t')
  end.
Proof.
  assert (Hstop : forall t : transfer F,
    negb use_expected || (t_len t <? expected) = false ->
    t_len t <= t_len t /\
    (forall ev, ev ∈ t_log t -> ev ∈ t_log t) /\
    (verbose = true ->
     t_len t - progress_total (t_log t) = t_len t - progress_total (t_log t)) /\
    (Forall (read_sized use_expected expected base) (t_log t) ->
     Forall (read_sized use_expected expected base) (t_log t)) /\
    (use_expected = true -> Forall read_honest (t_log t) ->
     t_len t <= Z.max (t_len t) expected) /\
    (t_res t <= 0 \/ (use_expected = true /\ expected <= t_len t)) /\
    (t_res t = t_res t \/ exists s a, EvRead s a (t_res t) ∈ t_log t)).
  { intros t Hcond. repeat split; auto; try lia.
    right. destruct use_expected; [|discriminate]. cbn in Hcond.
    apply Z.ltb_ge in Hcond. auto. }
  assert (Hsized : forall (t : transfer F) res,
    base <= t_len t ->
    negb use_expected || (t_len t <? expected) = true ->
    read_sized use_expected expected base
      (EvRead secure (if use_expected
                      then MIN (expected - t_len t) chunk_size
                      else chunk_size) res)).
  { intros t res Hbase Hcond s a x [= _ <- _]. unfold MIN, chunk_size.
    destruct use_expected; [|split; [lia|discriminate]].
    cbn in Hcond. apply Z.ltb_lt in Hcond.
    destruct (Z.leb_spec (expected - t_len t) 8192); split; try lia;
      intros _; lia. }
  induction reads as [|res rest IH]; intros t Hbase; cbn [main_loop]; cbv zeta.
  - destruct (negb use_expected || (t_len t <? expected)) eqn:Hcond;
      [|cbn [fst flow_state]; apply Hstop, Hcond].
    cbn [fst flow_state emit set_res t_len t_log t_res].
    rewrite progress_total_app. cbn [progress_total foldr].
    split; [lia|]. split; [intros ev Hev; apply elem_of_app; auto|].
    split; [intros _; lia|]. split.
    { intros Hall. apply Forall_app; split; [exact Hall|].
      apply Forall_singleton. now apply Hsized. }
    split; [intros; lia|]. split.
    + left. destruct at_end; cbn; lia.
    + right. eexists _, _. apply elem_of_app; right. apply list_elem_of_here.
  - destruct (negb use_expected || (t_len t <? expected)) eqn:Hcond;
      [|cbn [fst flow_state]; apply Hstop, Hcond].
    pose proof (Hsized t res Hbase Hcond) as Hthis.
    set (amount := if use_expected then MIN (expected - t_len t) chunk_size
                   else chunk_size) in *.
    destruct (Z.ltb_spec 0 res) as [Hpos|Hnpos].
    + destruct (fwrite res (t_fp _)) as [w fp1].
      cbn [emit set_fp set_res t_fp t_log t_res t_len].
      destruct (ferror (fflush fp1)) eqn:He.
      * cbn [fst flow_state emit set_fp set_res t_fp t_log t_res t_len].
        rewrite !progress_total_app. cbn [progress_total foldr].
        split; [lia|]. split; [intros ev Hev; rewrite !elem_of_app; auto|].
        split; [intros _; lia|]. split; [|split; [intros; lia | exact I]].
        intros Hall. repeat (apply Forall_app; split);
          try exact Hall; apply Forall_singleton; try exact Hthis;
          intros s a x [=].
      * match goal with |- context [main_loop _ _ _ _ rest at_end ?t'] =>
          specialize (IH t'); set (tin := t') in *
        end.
        assert (Htin : t_len tin = t_len t + res /\
                       t_res tin = res /\
                       EvRead secure amount res ∈ t_log tin /\
                       (forall ev, ev ∈ t_log t -> ev ∈ t_log tin) /\
                       (verbose = true -> progress_total (t_log tin)
                                          = progress_total (t_log t) + res) /\
                       (Forall (read_sized use_expected expected base) (t_log t)
                        -> Forall (read_sized use_expected expected base)
                                  (t_log tin))).
        { subst tin. destruct verbose;
            cbn [emit_if emit add_len set_fp set_res t_len t_res t_log t_fp].
          all: rewrite !progress_total_app; cbn [progress_total foldr].
          all: split; [reflexivity|]; split; [reflexivity|]; split.
          all: try (rewrite !elem_of_app, !list_elem_of_singleton; auto 10; fail).
          all: split; [intros ev Hev; rewrite !elem_of_app; auto 10|].
          all: split; [intros Hv; try discriminate; lia|].
          all: intros Hall; repeat (apply Forall_app; split);
            try exact Hall; apply Forall_singleton; try exact Hthis;
            intros s a x [=]. }
        destruct Htin as (Hlen & Hres & Hread & Hgrow & Hprog & Hsz).
        specialize (IH ltac:(lia)). cbv zeta in IH.
        destruct (main_loop _ _ _ _ rest at_end tin) as [fl rest'].
        cbn [fst] in *. destruct IH as (I1 & I2 & I3 & I4 & I5 & I6).
        split; [lia|]. split; [auto|].
        split; [intros Hv; rewrite (I3 Hv), (Hprog Hv); lia|].
        split; [auto|]. split.
        -- intros Hue Hhon. specialize (I5 Hue Hhon).
           assert (Hle : res <= amount).
           { rewrite Forall_forall in Hhon.
             exact (Hhon _ (I2 _ Hread) secure amount res eq_refl). }
           destruct (Hthis secure amount res eq_refl) as [_ Hcap].
           specialize (Hcap Hue). subst amount. rewrite Hue in Hle.
           unfold MIN in Hle.
           destruct (Z.leb_spec (expected - t_len t) chunk_size); lia.
        -- destruct fl as [code t'|t']; [exact I|].
           destruct I6 as [Hend Hlast]. split; [exact Hend|].
           right. destruct Hlast as [Heq|Hex]; [|exact Hex].
           rewrite Heq, Hres. eauto.
    + cbn [fst flow_state emit set_res t_len t_log t_res].
      rewrite progress_total_app. cbn [progress_total foldr].
      split; [lia|]. split; [intros ev Hev; apply elem_of_app; auto|].
      split; [intros _; lia|]. split.
      { intros Hall. apply Forall_app; split; [exact Hall|].
        apply Forall_singleton. exact Hthis. }
      split; [intros; lia|]. split; [left; lia|].
      right. eexists _, _. apply elem_of_app; right. apply list_elem_of_here.
Qed.

End GetContentsLengths.


(** *** The log against the connection and the stream *)





Section GetContentsTrace.
Context {F : Type} `{SF : Stdio F} `{P : Platform}.







End GetContentsTrace.

Section GetContentsCodes.
Context {F : Type} `{SF : Stdio F} `{P : Platform}.




(** With verbose output the gauge is created first, with the restart
    offset and the expected length, and it is completed, as the last call,
    exactly when the result is not -2. *)
Lemma get_contents_gauge (o : options) (fd : Z) (conn : connection) (fp : F)
  (restval expected : Z) (rbufp : option rbuf) (use_expected : bool) :
  let r := get_contents o fd conn fp restval expected rbufp use_expected in
  opt_verbose o = true ->
  head (gc_log r) = Some (EvProgressCreate restval expected) /\
  (gc_code r <> -2 -> last (gc_log r) = Some EvProgressFinish) /\
  (gc_code r = -2 -> EvProgressFinish ∉ gc_log r).
Proof.
  intros r Hv.
  destruct (get_contents_shape o fd conn fp restval expected rbufp use_expected)
    as (body & Hlog & Hgauge & _).
  fold r in Hlog. rewrite Hv in Hlog. cbn [andb] in Hlog.
  split; [now rewrite Hlog|]. split.
  - intros Hc. rewrite Hlog.
    destruct (Z.eqb_spec (gc_code r) (-2)); [contradiction|]. cbn [negb].
    rewrite app_assoc. apply last_snoc.
  - intros Hc Hin. rewrite Hlog, Hc in Hin. cbn in Hin.
    rewrite app_nil_r in Hin. apply elem_of_cons in Hin as [Hin|Hin];
      [discriminate|].
    rewrite Forall_forall in Hgauge. apply (Hgauge _ Hin). exact I.
Qed.

End GetContentsCodes.



(** C4, at the failing input: verbose output, a read-ahead buffer for the
    descriptor that holds nothing, a first chunk of 5 bytes and an output
    device without room.  The gauge is created, the write fails, -2 is
    returned, and the gauge is never completed.  No null pointer is
    involved. *)
Theorem get_contents_write_error_leaves_gauge :
  let rb := {| RBUF_FD := 3; rbuf_ssl := false; buffer_left := 0 |} in
  let r := @get_contents disk disk_stdio build64 verbose_options 3
             {| conn_reads := [5]; conn_at_end := Closed |}
             (empty_disk 0) 0 0 (Some rb) false in
  @null_dereference build64 (Some rb) false 0 0 = false /\
  gc_code r = -2 /\
  gc_log r = [EvProgressCreate 0 0; EvRbufFlush 0; EvFerror false;
              EvRead false 8192 5; EvFwrite Network 5 0; EvFflush;
              EvFerror true] /\
  gauge_creations (gc_log r) = 1%nat /\
  EvProgressFinish ∉ gc_log r.
Proof.
  intros rb r. split; [reflexivity|]. split; [reflexivity|].
  split; [reflexivity|]. split; [reflexivity|].
  apply (@get_contents_gauge disk disk_stdio build64); reflexivity.
Qed.

(** ** Retrieving one URL *)

Section Retrieval.
Context {E : Type} `{C : Collaborators E} `{P : Platform}.

Lemma retrieve_calls_app (l1 l2 : list call) :
  retrieve_calls (l1 ++ l2) = retrieve_calls l1 ++ retrieve_calls l2.
Proof. unfold retrieve_calls. apply omap_app. Qed.

(** A protocol loop is entered at most once per dispatch; the counter of
    retrievals is not touched. *)
Lemma dispatch_state (u : struct_url) (redirections : option (gset string))
  (refurl : option string) (dt : Z) (s : state E) (d : dispatched E) :
  dispatch u redirections refurl dt s = Dispatched d ->
  global_download_count (d_state d) = global_download_count s /\
  ((st_calls (d_state d) = st_calls s /\ d_result d = NOCONERROR) \/
   exists c, is_protocol_call c /\ st_calls (d_state d) = st_calls s ++ [c]).
Proof.
  unfold dispatch. intros Hd.
  repeat match type of Hd with
         | (if ?b then _ else _) = _ => destruct b
         | match ?x with _ => _ end = _ => destruct x
         end;
    try discriminate; injection Hd as <-; cbn; split; try reflexivity;
    try (right; eexists; split; [|reflexivity]; exact I).
  left. auto.
Qed.

Lemma register_state (url : string) (local_file : option string) (dt : Z)
  (s : state E) :
  global_download_count (register url local_file dt s)
    = global_download_count s /\
  exists l, st_calls (register url local_file dt s) = st_calls s ++ l /\
            retrieve_calls l = [] /\ DownloadCounted ∉ l.
Proof.
  unfold register. destruct local_file as [lf|].
  - destruct (negb (Z.land dt RETROKF =? 0)).
    + destruct (negb (Z.land dt TEXTHTML =? 0)); cbn.
      * split; [reflexivity|]. eexists [_; _].
        rewrite <- app_assoc. split; [reflexivity|]. split; [reflexivity|].
        intros Hin. repeat (apply elem_of_cons in Hin as [Hin|Hin];
                            [discriminate|]).
        now apply not_elem_of_nil in Hin.
      * split; [reflexivity|]. eexists [_]. split; [reflexivity|].
        split; [reflexivity|].
        intros Hin. apply list_elem_of_singleton in Hin. discriminate.
    + split; [reflexivity|]. exists []. rewrite app_nil_r.
      repeat split. apply not_elem_of_nil.
  - split; [reflexivity|]. exists []. rewrite app_nil_r.
    repeat split. apply not_elem_of_nil.
Qed.

(** From the label [redirected:] to a [return]: either the function is
    left at its end, where the out-parameters are assigned and the counter
    is incremented as the last step, or it is left by one of the error
    returns, with out-parameters and counter as they were.  No other
    retrieval is started on the way. *)
Lemma redirected_finished (fuel : nat) :
  forall hops url u redirections refurl file newloc dt (s : state E) r,
  redirected fuel hops url u redirections refurl file newloc dt s
    = Finished r ->
  retrieve_calls (st_calls (r_state r)) = retrieve_calls (st_calls s) /\
  ((r_site r = AtEnd /\
    exists s' local_file url',
      r_state r = count_download s' /\
      global_download_count s' = global_download_count s /\
      r_file r = store file local_file /\
      r_newloc r = store newloc (Some url'))
   \/
   (r_site r <> AtEnd /\
    global_download_count (r_state r) = global_download_count s /\
    r_file r = file /\ r_newloc r = newloc)).
Proof.
  induction fuel as [|fuel IH];
    intros hops url u redirections refurl file newloc dt s r Hrun;
    [discriminate|].
  cbn [redirected] in Hrun.
  destruct (dispatch u redirections refurl dt s) as [site|d] eqn:Hd.
  - injection Hrun as <-. cbn. split; [reflexivity|]. right.
    unfold dispatch in Hd.
    repeat match type of Hd with
           | (if ?b then _ else _) = _ => destruct b
           | match ?x with _ => _ end = _ => destruct x
           end; try discriminate; injection Hd as <-; auto.
  - destruct (dispatch_state _ _ _ _ _ _ Hd) as [Hcount Hcalls].
    assert (Hrc : retrieve_calls (st_calls (d_state d))
                  = retrieve_calls (st_calls s)).
    { destruct Hcalls as [[-> _]|(c & Hc & ->)]; [reflexivity|].
      rewrite retrieve_calls_app. destruct c; try contradiction;
        cbn; now rewrite app_nil_r. }
    destruct (bool_decide (d_result d = NEWLOCATION)).
    + destruct (d_mynewloc d) as [mynewloc|]; [|discriminate].
      destruct (url_parse (uri_merge url mynewloc)) as [newloc_struct|].
      * destruct (string_set_contains _ _).
        -- injection Hrun as <-. cbn. split; [exact Hrc|]. right. auto.
        -- apply IH in Hrun as [Hcalls' Hsite]. rewrite Hcount, Hrc in *.
           split; [exact Hcalls'|]. exact Hsite.
      * injection Hrun as <-. cbn. split; [exact Hrc|]. right. auto.
    + injection Hrun as <-. cbn [r_site r_state r_file r_newloc].
      destruct (register_state url (d_local_file d) (d_dt d) (d_state d))
        as (Hrcount & l & Hl & Hnone & _).
      split.
      * cbn. rewrite Hl, !retrieve_calls_app, Hnone. cbn.
        rewrite !app_nil_r. exact Hrc.
      * left. split; [reflexivity|]. eexists _, _, _.
        split; [reflexivity|]. split; [congruence|]. split; reflexivity.
Qed.

(** The place of the increment among the calls: when the function is left
    at its end, the mark of the increment is the last entry of the log and
    there is no other; when it is left by an error return there is none. *)
Lemma redirected_counted (fuel : nat) :
  forall hops url u redirections refurl file newloc dt (s : state E) r,
  redirected fuel hops url u redirections refurl file newloc dt s
    = Finished r ->
  exists before,
    (DownloadCounted ∉ before) /\
    ((r_site r = AtEnd /\
      st_calls (r_state r) = st_calls s ++ before ++ [DownloadCounted] /\
      global_download_count (r_state r) = global_download_count s + 1)
     \/
     (r_site r <> AtEnd /\
      st_calls (r_state r) = st_calls s ++ before /\
      global_download_count (r_state r) = global_download_count s)).
Proof.
  induction fuel as [|fuel IH];
    intros hops url u redirections refurl file newloc dt s r Hrun;
    [discriminate|].
  cbn [redirected] in Hrun.
  destruct (dispatch u redirections refurl dt s) as [site|d] eqn:Hd.
  - injection Hrun as <-. exists []. split; [apply not_elem_of_nil|].
    right. cbn. rewrite app_nil_r. unfold dispatch in Hd.
    repeat match type of Hd with
           | (if ?b then _ else _) = _ => destruct b
           | match ?x with _ => _ end = _ => destruct x
           end; try discriminate; injection Hd as <-; auto.
  - destruct (dispatch_state _ _ _ _ _ _ Hd) as [Hcount Hcalls].
    assert (Hl : exists l, st_calls (d_state d) = st_calls s ++ l /\
                           DownloadCounted ∉ l).
    { destruct Hcalls as [[-> _]|(c & Hc & ->)].
      - exists []. rewrite app_nil_r. split; [reflexivity|].
        apply not_elem_of_nil.
      - exists [c]. split; [reflexivity|]. intros Hin.
        apply list_elem_of_singleton in Hin. subst c. exact Hc. }
    destruct Hl as (l & Hl & Hnl).
    assert (Herr : forall r',
              r_site r' <> AtEnd -> r_state r' = d_state d ->
              exists before,
                (DownloadCounted ∉ before) /\
                ((r_site r' = AtEnd /\
                  st_calls (r_state r')
                  = st_calls s ++ before ++ [DownloadCounted] /\
                  global_download_count (r_state r')
                  = global_download_count s + 1)
                 \/
                 (r_site r' <> AtEnd /\
                  st_calls (r_state r') = st_calls s ++ before /\
                  global_download_count (r_state r')
                  = global_download_count s))).
    { intros r' Hsite ->. exists l. split; [exact Hnl|]. right. auto. }
    destruct (bool_decide (d_result d = NEWLOCATION)).
    + destruct (d_mynewloc d) as [mynewloc|]; [|discriminate].
      destruct (url_parse (uri_merge url mynewloc)) as [newloc_struct|].
      * destruct (string_set_contains _ _).
        -- injection Hrun as <-. apply Herr; [discriminate | reflexivity].
        -- apply IH in Hrun as (before & Hnb & Hsite).
           exists (l ++ before). split.
           { intros Hin. apply elem_of_app in Hin as [Hin|Hin]; auto. }
           rewrite Hl, Hcount, <- !app_assoc in Hsite.
           rewrite <- !app_assoc. exact Hsite.
      * injection Hrun as <-. apply Herr; [discriminate | reflexivity].
    + injection Hrun as <-.
      destruct (register_state url (d_local_file d) (d_dt d) (d_state d))
        as (Hrcount & l' & Hl' & _ & Hnl').
      exists (l ++ l'). split.
      { intros Hin. apply elem_of_app in Hin as [Hin|Hin]; auto. }
      left. cbn. rewrite Hl', Hl, Hrcount, Hcount, <- !app_assoc. auto.
Qed.

(** The protocol loops are handed the value that [global_download_count]
    had when [retrieve_url] was entered: showing them that value, whatever
    the variable holds, changes nothing. *)
Lemma dispatch_with_count (n : Z) (u : struct_url)
  (redirections : option (gset string)) (refurl : option string) (dt : Z)
  (s : state E) :
  global_download_count s = n ->
  @dispatch E (with_count n C) P u redirections refurl dt s
  = dispatch u redirections refurl dt s.
Proof.
  intros <-. unfold dispatch, USE_PROXY_P, call_http_loop, call_ftp_loop.
  cbn. reflexivity.
Qed.

Lemma redirected_with_count (n : Z) (fuel : nat) :
  forall hops url u redirections refurl file newloc dt (s : state E),
  global_download_count s = n ->
  @redirected E (with_count n C) P fuel hops url u redirections refurl file
              newloc dt s
  = redirected fuel hops url u redirections refurl file newloc dt s.
Proof.
  induction fuel as [|fuel IH];
    intros hops url u redirections refurl file newloc dt s Hn; [reflexivity|].
  cbn [redirected]. rewrite (dispatch_with_count n) by exact Hn.
  destruct (dispatch u redirections refurl dt s) as [site|d] eqn:Hd;
    [reflexivity|].
  destruct (dispatch_state _ _ _ _ _ _ Hd) as [Hcount _].
  destruct (bool_decide (d_result d = NEWLOCATION)); [|reflexivity].
  destruct (d_mynewloc d) as [mynewloc|]; [|reflexivity].
  change (@uri_merge E (with_count n C)) with (@uri_merge E C).
  change (@url_parse E (with_count n C)) with (@url_parse E C).
  destruct (url_parse (uri_merge url mynewloc)) as [newloc_struct|];
    [|reflexivity].
  destruct (string_set_contains _ _); [reflexivity|].
  apply IH. congruence.
Qed.

(** The same for a whole call. *)
Lemma retrieve_url_finished (fuel : nat) (origurl : string)
  (file newloc : out_param) (refurl : option string) (dt : Z) (s : state E)
  (r : retrieval E) :
  retrieve_url fuel origurl file newloc refurl dt s = Finished r ->
  retrieve_calls (st_calls (r_state r))
    = retrieve_calls (st_calls s) ++ [origurl] /\
  ((r_site r = AtEnd /\
    exists s' local_file url',
      r_state r = count_download s' /\
      global_download_count s' = global_download_count s /\
      r_file r = store file local_file /\
      r_newloc r = store newloc (Some url'))
   \/
   (r_site r <> AtEnd /\
    global_download_count (r_state r) = global_download_count s /\
    r_file r = store file None /\ r_newloc r = store newloc None)).
Proof.
  unfold retrieve_url. intros Hrun.
  destruct (url_parse origurl) as [u|].
  - apply redirected_finished in Hrun as [Hcalls Hsite].
    cbn in Hcalls. rewrite retrieve_calls_app in Hcalls. split; [exact Hcalls|].
    destruct Hsite as [(Hend & s' & lf & url' & Hs & Hcount & Hf & Hn)|Herr].
    + left. split; [exact Hend|]. exists s', lf, url'.
      split; [exact Hs|]. split; [exact Hcount|]. split.
      * rewrite Hf. now destruct file.
      * rewrite Hn. now destruct newloc.
    + right. exact Herr.
  - injection Hrun as <-. cbn. rewrite retrieve_calls_app. split; [reflexivity|].
    right. repeat split; auto.
Qed.

(** C1.  When the URL [A] is redirected to [B] and [B] back to [A], the set
    of visited URLs is made on the first redirection, with [A] in it before
    [B] is added, and on the second redirection [A] is found in it:
    [retrieve_url] returns [WRONGCODE] from the cycle check after exactly two
    calls of a protocol loop, without a third. *)
Theorem redirection_cycle_detected (n : nat) (origurl : string)
  (file newloc : out_param) (refurl : option string) (dt : Z) (s : state E)
  (uA uB uA' : struct_url) (d1 d2 : dispatched E) (loc1 loc2 : string) :
  let s0 := record_call (CallRetrieveUrl origurl) s in
  let refurl' := match refurl with
                 | Some r => Some r
                 | None => opt_referer (st_opt s0)
                 end in
  let first := string_set_add make_string_hash_table (u_url uA) in
  let visited := string_set_add first (u_url uB) in
  url_parse origurl = Some uA ->
  dispatch uA None refurl' dt s0 = Dispatched d1 ->
  d_result d1 = NEWLOCATION -> d_mynewloc d1 = Some loc1 ->
  url_parse (uri_merge origurl loc1) = Some uB ->
  u_url uB <> u_url uA ->
  dispatch uB (Some visited) refurl' (d_dt d1) (d_state d1) = Dispatched d2 ->
  d_result d2 = NEWLOCATION -> d_mynewloc d2 = Some loc2 ->
  url_parse (uri_merge (u_url uB) loc2) = Some uA' ->
  u_url uA' = u_url uA ->
  redirected (S (S n)) 0 origurl uA None refurl' (store file None)
             (store newloc None) dt s0
    = redirected (S n) 1 (u_url uB) uB (Some visited) refurl'
                 (store file None) (store newloc None) (d_dt d1) (d_state d1) /\
  exists r c1 c2,
    retrieve_url (S (S n)) origurl file newloc refurl dt s = Finished r /\
    r_status r = WRONGCODE /\ r_site r = AtCycle /\ r_hops r = 1%nat /\
    r_state r = d_state d2 /\
    is_protocol_call c1 /\ is_protocol_call c2 /\
    st_calls (r_state r) = st_calls s ++ [CallRetrieveUrl origurl; c1; c2].
Proof.
  intros s0 refurl' first visited HpA Hd1 Hr1 Hl1 HpB Hne Hd2 Hr2 Hl2 HpA' Heq.
  assert (Hhop : redirected (S (S n)) 0 origurl uA None refurl'
                   (store file None) (store newloc None) dt s0
                 = redirected (S n) 1 (u_url uB) uB (Some visited) refurl'
                     (store file None) (store newloc None) (d_dt d1)
                     (d_state d1)).
  { cbn [redirected]. rewrite Hd1, Hr1.
    rewrite bool_decide_eq_true_2 by reflexivity. rewrite Hl1, HpB.
    unfold string_set_contains.
    rewrite bool_decide_eq_false_2; [reflexivity|].
    unfold string_set_add, make_string_hash_table. intros Hin.
    apply elem_of_union in Hin as [Hin|Hin].
    - apply elem_of_singleton in Hin. contradiction.
    - exact (not_elem_of_empty _ Hin). }
  split; [exact Hhop|].
  destruct (dispatch_state _ _ _ _ _ _ Hd1) as [_ [[_ Hno]|(c1 & Hc1 & Hcalls1)]];
    [congruence|].
  destruct (dispatch_state _ _ _ _ _ _ Hd2) as [_ [[_ Hno]|(c2 & Hc2 & Hcalls2)]];
    [congruence|].
  eexists _, c1, c2. split.
  - unfold retrieve_url. rewrite HpA. fold s0. fold refurl'. rewrite Hhop.
    cbn [redirected]. rewrite Hd2, Hr2.
    rewrite bool_decide_eq_true_2 by reflexivity. rewrite Hl2, HpA'.
    unfold string_set_contains.
    rewrite bool_decide_eq_true_2; [reflexivity|].
    rewrite Heq. unfold visited, first, string_set_add.
    apply elem_of_union; right. apply elem_of_union; left.
    now apply elem_of_singleton.
  - cbn. repeat split; try assumption.
    rewrite Hcalls2, Hcalls1. subst s0. cbn. now rewrite <- !app_assoc.
Qed.

(** C2, as amended.  When [retrieve_url] returns from its end (the
    protocol loop gave a status that is not a redirection), it has
    incremented [global_download_count] once, as its last step: the mark of
    the increment is the last entry of the log, after the calls of the
    protocol loops and the registrations, and there is no other.  When it
    returns from one of the error returns (URL parse error, proxy errors,
    unparsable redirection target, redirection cycle), the counter is what
    it was and the log has no mark.  In both cases every protocol loop was
    handed the old value of the counter: the run is the same when the loops
    are shown that value whatever the variable holds. *)
Theorem retrieve_url_counts_at_end (fuel : nat) (origurl : string)
  (file newloc : out_param) (refurl : option string) (dt : Z) (s : state E)
  (r : retrieval E) :
  retrieve_url fuel origurl file newloc refurl dt s = Finished r ->
  (exists new,
     st_calls (r_state r) = st_calls s ++ new /\
     (r_site r = AtEnd ->
      global_download_count (r_state r) = global_download_count s + 1 /\
      exists before, new = before ++ [DownloadCounted] /\
                     DownloadCounted ∉ before) /\
     (r_site r <> AtEnd ->
      global_download_count (r_state r) = global_download_count s /\
      DownloadCounted ∉ new)) /\
  @retrieve_url E (with_count (global_download_count s) C) P fuel origurl
                file newloc refurl dt s
  = Finished r.
Proof.
  intros Hrun. split.
  - unfold retrieve_url in Hrun. destruct (url_parse origurl) as [u|].
    + apply redirected_counted in Hrun as (before & Hnb & Hsite).
      cbn [record_call st_calls global_download_count] in Hsite.
      assert (Hnb' : DownloadCounted ∉ CallRetrieveUrl origurl :: before).
      { intros Hin. apply elem_of_cons in Hin as [Hin|Hin];
          [discriminate | auto]. }
      destruct Hsite as [(Hend & Hcalls & Hcount)|(Herr & Hcalls & Hcount)].
      * exists ((CallRetrieveUrl origurl :: before) ++ [DownloadCounted]).
        split; [rewrite Hcalls, <- !app_assoc; reflexivity|].
        split; [|contradiction]. intros _. split; [exact Hcount|]. eauto.
      * exists (CallRetrieveUrl origurl :: before).
        split; [rewrite Hcalls, <- !app_assoc; reflexivity|].
        split; [contradiction|]. intros _. auto.
    + injection Hrun as <-. exists [CallRetrieveUrl origurl]. cbn.
      split; [reflexivity|]. split; [discriminate|]. intros _.
      split; [reflexivity|]. intros Hin.
      apply list_elem_of_singleton in Hin. discriminate.
  - rewrite <- Hrun. unfold retrieve_url.
    change (@url_parse E (with_count (global_download_count s) C))
      with (@url_parse E C).
    destruct (url_parse origurl) as [u|]; [|reflexivity].
    apply redirected_with_count. reflexivity.
Qed.

(** C10.  With non-null [file] and [newloc], whatever the caller's
    variables held, both are [NULL] when the redirection loop is entered,
    and they are still [NULL] when [retrieve_url] returns from any of its
    error returns; they are assigned only when it returns from its end. *)
Theorem retrieve_url_outputs (fuel : nat) (origurl : string)
  (file0 newloc0 : option string) (refurl : option string) (dt : Z)
  (s : state E) :
  (forall u, url_parse origurl = Some u ->
     retrieve_url fuel origurl (Some file0) (Some newloc0) refurl dt s
     = redirected fuel 0 origurl u None
         (match refurl with
          | Some r => Some r
          | None => opt_referer (st_opt s)
          end)
         (Some None) (Some None) dt (record_call (CallRetrieveUrl origurl) s)) /\
  (forall r,
     retrieve_url fuel origurl (Some file0) (Some newloc0) refurl dt s
     = Finished r ->
     (r_site r <> AtEnd -> r_file r = Some None /\ r_newloc r = Some None) /\
     (r_site r = AtEnd ->
      exists local_file url',
        r_file r = Some local_file /\ r_newloc r = Some (Some url'))).
Proof.
  split.
  - intros u Hu. unfold retrieve_url. now rewrite Hu.
  - intros r Hrun. apply retrieve_url_finished in Hrun as [_ Hsite].
    destruct Hsite as [(Hend & s' & lf & url' & _ & _ & Hf & Hn)|(Herr & _ & Hf & Hn)].
    + split; [contradiction|]. intros _. exists lf, url'. auto.
    + split; [|contradiction]. intros _. auto.
Qed.

End Retrieval.

(** The cycle of the demonstration server. *)
Lemma redirection_cycle_detected_witness :
  exists r,
    @retrieve_url unit demo_web build64 2 "http://a/" (Some (Some "x"))
      (Some (Some "y")) None 0 (demo_state plain_options) = Finished r /\
    r_status r = WRONGCODE /\
    length (st_calls (r_state r)) = 3%nat.
Proof.
  destruct (@redirection_cycle_detected unit demo_web build64 0 "http://a/"
              (Some (Some "x")) (Some (Some "y")) None 0
              (demo_state plain_options)
              {| u_url := "http://a/"; u_scheme := SCHEME_HTTP; u_host := "demo" |}
              {| u_url := "http://b/"; u_scheme := SCHEME_HTTP; u_host := "demo" |}
              {| u_url := "http://a/"; u_scheme := SCHEME_HTTP; u_host := "demo" |}
              _ _ "http://b/" "http://a/"
              eq_refl eq_refl eq_refl eq_refl eq_refl
              ltac:(discriminate) eq_refl eq_refl eq_refl eq_refl eq_refl)
    as (_ & r & c1 & c2 & Hrun & Hstatus & _ & _ & _ & _ & _ & Hcalls).
  exists r. split; [exact Hrun|]. split; [exact Hstatus|].
  rewrite Hcalls. reflexivity.
Defined.

(** C2 as stated fails: an unparsable URL makes [retrieve_url] return
    [URLERROR] with the counter not incremented. *)
Lemma retrieve_url_parse_error_not_counted :
  exists r,
    @retrieve_url unit demo_web build64 1 "bogus" None None None 0
      (demo_state plain_options) = Finished r /\
    r_status r = URLERROR /\
    global_download_count (r_state r)
      <> global_download_count (demo_state plain_options) + 1.
Proof. eexists. split; [reflexivity|]. split; [reflexivity|]. discriminate. Qed.

(** The page of the demonstration server: the protocol loop, the two
    registrations, and then the increment. *)
Lemma retrieve_url_counts_at_end_witness :
  match @retrieve_url unit demo_web build64 1 "http://c/" None None None 0
          (demo_state plain_options) with
  | Finished r =>
    global_download_count (r_state r) = 0 + 1 /\
    exists before,
      st_calls (r_state r) = before ++ [DownloadCounted] /\
      (DownloadCounted ∉ before) /\ length before = 4%nat
  | _ => False
  end.
Proof.
  destruct (@retrieve_url unit demo_web build64 1 "http://c/" None None None 0
              (demo_state plain_options)) as [r| |] eqn:Hrun.
  - destruct (@retrieve_url_counts_at_end unit demo_web build64 1 "http://c/"
                None None None 0 (demo_state plain_options) r Hrun)
      as [(new & Hcalls & Hend & _) _].
    assert (Hsite : r_site r = AtEnd)
      by (vm_compute in Hrun; injection Hrun as <-; reflexivity).
    destruct (Hend Hsite) as (Hcount & before & -> & Hnone).
    split; [exact Hcount|]. exists before. cbn in Hcalls.
    split; [exact Hcalls|]. split; [exact Hnone|].
    vm_compute in Hrun. injection Hrun as <-. cbn in Hcalls.
    apply (f_equal length) in Hcalls. rewrite length_app in Hcalls.
    cbn in Hcalls. lia.
  - vm_compute in Hrun. discriminate.
  - vm_compute in Hrun. discriminate.
Defined.


Lemma retrieve_url_outputs_witness :
  exists r,
    @retrieve_url unit demo_web build64 2 "http://a/" (Some (Some "x"))
      (Some (Some "y")) None 0 (demo_state plain_options) = Finished r /\
    r_file r = Some None /\ r_newloc r = Some None.
Proof.
  eexists. split; [reflexivity|].
  refine (proj1 (proj2 (@retrieve_url_outputs unit demo_web build64 2
                   "http://a/" (Some "x") (Some "y") None 0
                   (demo_state plain_options)) _ eq_refl) _).
  discriminate.
Defined.

(** ** Retrieving a list of URLs *)

Section Batch.
Context {E : Type} `{C : Collaborators E} `{P : Platform}.

(** What follows a retrieval starts no other retrieval. *)
Lemma after_retrieval_calls (cur_url : string) (r : retrieval E) :
  retrieve_calls (st_calls (after_retrieval cur_url r).2)
    = retrieve_calls (st_calls (r_state r)).
Proof.
  unfold after_retrieval.
  destruct (opt_recursive _ && _ && _); destruct (default None (r_file r));
    cbn; repeat match goal with
                | |- context [if ?b then _ else _] => destruct b; cbn
                end;
    rewrite ?retrieve_calls_app; cbn; now rewrite ?app_nil_r.
Qed.

(** The loop counts the items for which [retrieve_url] was called: the
    first [k] of the list.  When [k] is less than the length of the list,
    the quota check stopped the loop at the next item. *)
Lemma retrieve_list_count (fuel : nat) (dt0 : Z) :
  forall (url_list : list string) (status : uerr_t) (count : Z) (s : state E)
         (b : batch E),
  retrieve_list fuel url_list status count dt0 s = Finished b ->
  exists k : nat,
    (k <= length url_list)%nat /\
    b_count b = count + Z.of_nat k /\
    retrieve_calls (st_calls (b_state b))
      = retrieve_calls (st_calls s) ++ take k url_list /\
    ((k < length url_list)%nat ->
     b_status b = QUOTEXC /\
     downloaded_exceeds_quota (st_opt (b_state b)) = true).
Proof.
  induction url_list as [|cur_url next IH]; intros status count s b Hrun;
    cbn [retrieve_list] in Hrun.
  - injection Hrun as <-. exists 0%nat. cbn.
    rewrite app_nil_r. repeat split; try lia.
  - destruct (downloaded_exceeds_quota (st_opt s)) eqn:Hq.
    + injection Hrun as <-. exists 0%nat. cbn.
      rewrite app_nil_r. repeat split; try lia. exact Hq.
    + destruct (retrieve_url fuel cur_url _ _ None dt0 s) as [r| |] eqn:Hr;
        try discriminate.
      pose proof (after_retrieval_calls cur_url r) as Hafter.
      destruct (after_retrieval cur_url r) as [status1 s1]. cbn [snd] in Hafter.
      apply IH in Hrun as (k & Hk & Hcount & Hcalls & Hstop).
      apply retrieve_url_finished in Hr as [Hr _].
      exists (S k). cbn [length take]. split; [lia|]. split; [lia|]. split.
      * rewrite Hcalls, Hafter, Hr, <- app_assoc. reflexivity.
      * intros Hlt. apply Hstop. lia.
Qed.

(** C5, as amended.  The count that [retrieve_from_file] reports is the
    number of items for which [retrieve_url] was called, which are the
    first items of the list.  When the quota check stops the loop at an
    item, the status is [QUOTEXC] and that item is not counted: the count
    is the number of items before it. *)
Theorem retrieve_from_file_count (fuel : nat) (file : string) (html : bool)
  (dt0 : Z) (s : state E) (b : batch E) :
  retrieve_from_file fuel file html dt0 s = Finished b ->
  let url_list := if html then get_urls_html file (st_ext s)
                  else get_urls_file file (st_ext s) in
  exists k : nat,
    (k <= length url_list)%nat /\
    b_count b = Z.of_nat k /\
    retrieve_calls (st_calls (b_state b))
      = retrieve_calls (st_calls s) ++ take k url_list /\
    ((k < length url_list)%nat ->
     b_status b = QUOTEXC /\
     downloaded_exceeds_quota (st_opt (b_state b)) = true).
Proof.
  intros Hrun. unfold retrieve_from_file in Hrun. cbv zeta.
  apply retrieve_list_count in Hrun as (k & Hk & Hcount & Hcalls & Hstop).
  exists k. auto.
Qed.

End Batch.

(** C5 as stated fails: with a quota of 150 bytes and three pages of 100
    bytes, the quota check stops the loop at the third item;
    [retrieve_url] was called for two items and the count is 2, not 3. *)
Lemma retrieve_from_file_quota_stop_not_counted :
  match @retrieve_from_file unit demo_web build64 1 "list" false 0
          (demo_state (set_quota 150 plain_options)) with
  | Finished b =>
    b_status b = QUOTEXC /\
    retrieve_calls (st_calls (b_state b)) = ["http://c/"; "http://c/"] /\
    b_count b = 2 /\
    b_count b <> Z.of_nat (length (retrieve_calls (st_calls (b_state b)))) + 1
  | _ => False
  end.
Proof. vm_compute. repeat split. discriminate. Qed.

Lemma retrieve_from_file_count_witness :
  match @retrieve_from_file unit demo_web build64 1 "list" false 0
          (demo_state (set_quota 150 plain_options)) with
  | Finished b => exists k : nat, b_count b = Z.of_nat k /\ (k <= 3)%nat
  | _ => False
  end.
Proof.
  destruct (@retrieve_from_file unit demo_web build64 1 "list" false 0
              (demo_state (set_quota 150 plain_options))) as [b| |] eqn:Hrun.
  - destruct (@retrieve_from_file_count unit demo_web build64 1 "list" false 0
                (demo_state (set_quota 150 plain_options)) b Hrun)
      as (k & Hk & Hcount & _).
    exists k. split; [exact Hcount | exact Hk].
  - vm_compute in Hrun. discriminate.
  - vm_compute in Hrun. discriminate.
Defined.

(** ** Printing a download rate *)

(** *** Facts about binary64 rounding

    [Zdigits2] is the bit length; shifting a mantissa right to its
    canonical exponent leaves at most 53 bits, and rounding adds at most
    one. *)

Lemma digits2_pos_size (p : positive) : digits2_pos p = Pos.size p.
Proof. induction p; cbn; congruence. Qed.

Lemma Zdigits2_log2 (p : positive) : Zdigits2 (Zpos p) = Z.log2 (Zpos p) + 1.
Proof.
  cbn [Zdigits2]. rewrite digits2_pos_size.
  destruct p; cbn [Pos.size Z.log2]; lia.
Qed.

Lemma Zdigits2_nonneg (m : Z) : 0 <= Zdigits2 m.
Proof. destruct m; cbn; lia. Qed.

Lemma Zdigits2_mono (a b : Z) : 0 <= a <= b -> Zdigits2 a <= Zdigits2 b.
Proof.
  intros [Ha Hab]. destruct a as [|p|p]; [apply Zdigits2_nonneg| |lia].
  destruct b as [|q|q]; try lia.
  rewrite !Zdigits2_log2. apply Z.add_le_mono_r. apply Z.log2_le_mono. lia.
Qed.

Lemma Zdigits2_succ (m : Z) : 0 <= m -> Zdigits2 (m + 1) <= Zdigits2 m + 1.
Proof.
  intros Hm. destruct m as [|p|p]; [cbv; discriminate| |lia].
  change (Zpos p + 1) with (Zpos (p + 1)). rewrite !Zdigits2_log2.
  pose proof (Z.log2_succ_le (Zpos p)). change (Z.succ (Zpos p)) with (Zpos (p + 1)) in H.
  lia.
Qed.

Lemma Zdigits2_mul (p q : positive) :
  Zdigits2 (Zpos (p * q)) <= Zdigits2 (Zpos p) + Zdigits2 (Zpos q).
Proof.
  rewrite !Zdigits2_log2, Pos2Z.inj_mul.
  pose proof (Z.log2_mul_above (Zpos p) (Zpos q)). lia.
Qed.

Lemma Zdigits2_shiftl (p : positive) (s : Z) :
  0 <= s -> Zdigits2 (Z.shiftl (Zpos p) s) = Zdigits2 (Zpos p) + s.
Proof.
  intros Hs. pose proof (Z.log2_shiftl (Zpos p) s ltac:(lia) Hs) as Hl.
  assert (0 < Z.shiftl (Zpos p) s).
  { rewrite Z.shiftl_mul_pow2 by lia. apply Z.mul_pos_pos; [lia|]. apply Z.pow_pos_nonneg; lia. }
  destruct (Z.shiftl (Zpos p) s) as [|r|r] eqn:Hr; try lia.
  rewrite !Zdigits2_log2. lia.
Qed.

Lemma digits2_pos_iter_xO (p n : positive) :
  Zpos (digits2_pos (Pos.iter xO p n)) = Zpos (digits2_pos p) + Zpos n.
Proof.
  induction n as [|n IH] using Pos.peano_ind.
  - cbn. lia.
  - rewrite Pos.iter_succ. cbn [digits2_pos]. lia.
Qed.

Lemma shr_1_digits (mrs : shr_record) :
  0 <= shr_m mrs ->
  0 <= shr_m (shr_1 mrs) /\
  Zdigits2 (shr_m (shr_1 mrs)) = Z.max 0 (Zdigits2 (shr_m mrs) - 1).
Proof.
  destruct mrs as [m r s]. cbn [shr_m]. intros Hm.
  destruct m as [|[p|p|]|p]; cbn [shr_1 shr_m Zdigits2 digits2_pos]; lia.
Qed.

Lemma iter_shr_1_digits (n : positive) :
  forall mrs : shr_record,
  0 <= shr_m mrs ->
  0 <= shr_m (iter_pos shr_1 n mrs) /\
  Zdigits2 (shr_m (iter_pos shr_1 n mrs))
    = Z.max 0 (Zdigits2 (shr_m mrs) - Zpos n).
Proof.
  induction n as [n IH|n IH|]; intros mrs Hm; cbn [iter_pos].
  - destruct (shr_1_digits mrs Hm) as [H1 D1].
    destruct (IH _ H1) as [H2 D2]. destruct (IH _ H2) as [H3 D3].
    split; [exact H3|]. rewrite D3, D2, D1. lia.
  - destruct (IH _ Hm) as [H2 D2]. destruct (IH _ H2) as [H3 D3].
    split; [exact H3|]. rewrite D3, D2. lia.
  - apply shr_1_digits, Hm.
Qed.

Lemma shr_m_of_loc (m : Z) (l : location) : shr_m (shr_record_of_loc m l) = m.
Proof. destruct l as [|[]]; reflexivity. Qed.

(** One shift to the canonical exponent: the mantissa fits 53 bits. *)
Lemma shr_fexp_bounds (m e : Z) (l : location) :
  0 <= m ->
  0 <= shr_m (shr_fexp dbl_prec dbl_emax m e l).1 /\
  Zdigits2 (shr_m (shr_fexp dbl_prec dbl_emax m e l).1) <= 53 /\
  e <= (shr_fexp dbl_prec dbl_emax m e l).2
    <= Z.max e (Z.max (Zdigits2 m + e - 53) (-1074)).
Proof.
  intros Hm. unfold shr_fexp, shr, fexp, emin, dbl_prec, dbl_emax.
  pose proof (Zdigits2_nonneg m) as Hd.
  destruct (Z.max (Zdigits2 m + e - 53) (3 - 1024 - 53) - e) as [|n|n] eqn:Hn;
    cbn [fst snd]; rewrite ?shr_m_of_loc.
  - repeat split; try lia.
  - destruct (iter_shr_1_digits n (shr_record_of_loc m l)) as [H1 D1];
      [now rewrite shr_m_of_loc|].
    rewrite shr_m_of_loc in D1. rewrite D1. repeat split; lia.
  - repeat split; lia.
Qed.

Lemma round_nearest_even_bounds (m : Z) (l : location) :
  0 <= m ->
  0 <= round_nearest_even m l /\
  Zdigits2 (round_nearest_even m l) <= Zdigits2 m + 1.
Proof.
  intros Hm. pose proof (Zdigits2_succ m Hm).
  unfold round_nearest_even. destruct l as [|[]]; try destruct (Z.even m);
    split; lia.
Qed.

Lemma binary_round_aux_bounds (sx : bool) (mx ex : Z) (lx : location) :
  0 <= mx ->
  Z.max ex (Z.max (Zdigits2 mx + ex - 53) (-1074)) + 1 <= 971 ->
  finite_within sx ex (Z.max ex (Z.max (Zdigits2 mx + ex - 53) (-1074)) + 1)
    (binary_round_aux dbl_prec dbl_emax sx mx ex lx).
Proof.
  intros Hm Hb. unfold binary_round_aux.
  destruct (shr_fexp_bounds mx ex lx Hm) as (H1 & D1 & E1).
  destruct (shr_fexp dbl_prec dbl_emax mx ex lx) as [mrs1 e1]. cbn [fst snd] in *.
  destruct (round_nearest_even_bounds (shr_m mrs1) (loc_of_shr_record mrs1) H1)
    as [H2 D2].
  destruct (shr_fexp_bounds _ e1 loc_Exact H2) as (H3 & D3 & E3).
  destruct (shr_fexp dbl_prec dbl_emax _ e1 loc_Exact) as [mrs2 e2].
  cbn [fst snd] in *.
  destruct (shr_m mrs2) as [|m|m] eqn:Hm2; cbn [finite_within].
  - reflexivity.
  - unfold dbl_emax, dbl_prec. destruct (Z.leb_spec e2 (1024 - 53)).
    + cbn [finite_within]. cbn [Zdigits2] in D3. repeat split; lia.
    + lia.
  - lia.
Qed.

Lemma shr_fexp_positive (m e : Z) (l : location) :
  0 < m -> -1074 <= Zdigits2 m + e - 53 ->
  0 < shr_m (shr_fexp dbl_prec dbl_emax m e l).1 /\
  Zdigits2 m + e <= Zdigits2 (shr_m (shr_fexp dbl_prec dbl_emax m e l).1)
                    + (shr_fexp dbl_prec dbl_emax m e l).2.
Proof.
  intros Hm Hn. unfold shr_fexp, shr, fexp, emin, dbl_prec, dbl_emax.
  assert (Hd : 0 < Zdigits2 m) by (destruct m; cbn; lia).
  destruct (Z.max (Zdigits2 m + e - 53) (3 - 1024 - 53) - e) as [|n|n] eqn:Hs;
    cbn [fst snd]; rewrite ?shr_m_of_loc; try (split; lia).
  destruct (iter_shr_1_digits n (shr_record_of_loc m l)) as [H1 D1];
    [rewrite shr_m_of_loc; lia|].
  rewrite shr_m_of_loc in D1. rewrite D1.
  split; [|lia].
  destruct (shr_m (iter_pos shr_1 n (shr_record_of_loc m l))); cbn in D1; lia.
Qed.

Lemma round_nearest_even_ge (m : Z) (l : location) :
  m <= round_nearest_even m l.
Proof.
  unfold round_nearest_even. destruct l as [|[]]; try destruct (Z.even m); lia.
Qed.

(** Away from the subnormal range a positive mantissa is not rounded to
    zero. *)
Lemma binary_round_aux_nonzero (sx : bool) (mx ex : Z) (lx : location) :
  0 < mx -> -1074 <= Zdigits2 mx + ex - 53 ->
  forall s, binary_round_aux dbl_prec dbl_emax sx mx ex lx <> S754_zero s.
Proof.
  intros Hm Hn s. unfold binary_round_aux.
  destruct (shr_fexp_positive mx ex lx Hm Hn) as [H1 S1].
  destruct (shr_fexp dbl_prec dbl_emax mx ex lx) as [mrs1 e1]. cbn [fst snd] in *.
  pose proof (round_nearest_even_ge (shr_m mrs1) (loc_of_shr_record mrs1)) as Hr.
  set (m1 := round_nearest_even (shr_m mrs1) (loc_of_shr_record mrs1)) in *.
  assert (Hd : Zdigits2 (shr_m mrs1) <= Zdigits2 m1)
    by (apply Zdigits2_mono; lia).
  destruct (shr_fexp_positive m1 e1 loc_Exact) as [H2 _]; [lia|lia|].
  destruct (shr_fexp dbl_prec dbl_emax m1 e1 loc_Exact) as [mrs2 e2].
  cbn [fst] in H2. destruct (shr_m mrs2); try lia.
  destruct (_ <=? _); discriminate.
Qed.

(** The conversion of a positive [long]. *)
Lemma double_of_Z_positive (z : Z) :
  0 < z <= LONG_MAX ->
  exists m e, double_of_Z z = S754_finite false m e /\
              Zpos (digits2_pos m) <= 53 /\ -52 <= e <= 11.
Proof.
  intros [Hz0 Hz1]. destruct z as [|p|p]; try lia.
  assert (Hd : 1 <= Zpos (digits2_pos p) <= 63).
  { split; [lia|]. change (Zpos (digits2_pos p)) with (Zdigits2 (Zpos p)).
    change 63 with (Zdigits2 LONG_MAX). apply Zdigits2_mono. lia. }
  unfold double_of_Z, binary_normalize, binary_round, shl_align, fexp, emin,
    dbl_prec, dbl_emax.
  rewrite Z.add_0_r, Z.sub_0_r.
  set (mzez := match Z.max (Zpos (digits2_pos p) - 53) (3 - 1024 - 53) with
               | Zneg d => (Pos.iter xO p d, Z.max (Zpos (digits2_pos p) - 53)
                                                   (3 - 1024 - 53))
               | _ => (p, 0)
               end).
  assert (Hmz : Zpos (digits2_pos mzez.1) + mzez.2 = Zpos (digits2_pos p) /\
                -52 <= mzez.2 <= 0).
  { subst mzez.
    destruct (Z.max (Zpos (digits2_pos p) - 53) (3 - 1024 - 53)) as [|d|d] eqn:Hm;
      cbn [fst snd]; rewrite ?digits2_pos_iter_xO; lia. }
  destruct mzez as [mz ez]. cbn [fst snd] in Hmz. destruct Hmz as [Hsum Hez].
  pose proof (binary_round_aux_bounds false (Zpos mz) ez loc_Exact) as Hb.
  pose proof (binary_round_aux_nonzero false (Zpos mz) ez loc_Exact) as Hnz.
  cbn [Zdigits2] in Hb, Hnz.
  specialize (Hb ltac:(lia) ltac:(lia)).
  specialize (Hnz ltac:(lia) ltac:(lia)).
  fold dbl_prec dbl_emax.
  destruct (binary_round_aux dbl_prec dbl_emax false (Zpos mz) ez loc_Exact)
    as [s|s| |s m e]; cbn [finite_within] in Hb; try contradiction.
  - exfalso. exact (Hnz s eq_refl).
  - destruct Hb as (-> & Hdig & He). exists m, e. unfold dbl_prec.
    repeat split; lia.
Qed.

Lemma double_of_Z_zero : double_of_Z 0 = S754_zero false.
Proof. reflexivity. Qed.

(** The product of two converted integers. *)
Lemma dmul_bounds (m1 m2 : positive) (e1 e2 : Z) :
  Zpos (digits2_pos m1) <= 53 -> -52 <= e1 <= 11 ->
  Zpos (digits2_pos m2) <= 53 -> -52 <= e2 <= 11 ->
  finite_within false (-104) 76
    (dmul (S754_finite false m1 e1) (S754_finite false m2 e2)).
Proof.
  intros Hd1 He1 Hd2 He2. unfold dmul, SFmul. cbn [xorb].
  pose proof (binary_round_aux_bounds false (Zpos (m1 * m2)) (e1 + e2) loc_Exact)
    as Hb.
  pose proof (Zdigits2_mul m1 m2) as Hmul. cbn [Zdigits2] in Hmul.
  cbn [Zdigits2] in Hb. specialize (Hb ltac:(lia) ltac:(lia)).
  destruct (binary_round_aux dbl_prec dbl_emax false (Zpos (m1 * m2)) (e1 + e2)
              loc_Exact); cbn [finite_within] in *; try assumption.
  destruct Hb as (-> & Hdig & He). repeat split; lia.
Qed.

(** A quotient by a double whose exponent is that of a converted integer
    or of one of the constants. *)
Lemma ddiv_bounds (x : double) (m2 : positive) (e2 lo hi : Z) :
  finite_within false lo hi x ->
  Zpos (digits2_pos m2) <= 53 -> -52 <= e2 <= 11 ->
  -900 <= lo -> hi <= 900 ->
  finite_within false (lo - 116) (hi + 53) (ddiv x (S754_finite false m2 e2)).
Proof.
  intros Hx Hd2 He2 Hlo Hhi. unfold ddiv, SFdiv.
  destruct x as [s|s| |s m1 e1]; cbn [finite_within] in Hx; try contradiction.
  - subst s. reflexivity.
  - destruct Hx as (-> & Hd1 & He1). cbn [xorb].
    unfold SFdiv_core_binary, fexp, emin, dbl_prec, dbl_emax. cbn [Zdigits2].
    set (d1 := Zpos (digits2_pos m1)) in *.
    set (d2 := Zpos (digits2_pos m2)) in *.
    assert (Hd1' : 1 <= d1) by (subst d1; lia).
    assert (Hd2' : 1 <= d2) by (subst d2; lia).
    set (e' := Z.min (Z.max (d1 + e1 - (d2 + e2) - 53) (3 - 1024 - 53))
                     (e1 - e2)).
    set (m' := match e1 - e2 - e' with
               | 0 => Zpos m1
               | Zpos _ => Z.shiftl (Zpos m1) (e1 - e2 - e')
               | Zneg _ => 0
               end).
    assert (Hm' : 0 <= m' /\ Zdigits2 m' <= d1 + (e1 - e2 - e')).
    { subst m'. destruct (e1 - e2 - e') as [|s|s] eqn:Hs.
      - cbn [Zdigits2]. fold d1. lia.
      - rewrite Zdigits2_shiftl by lia. cbn [Zdigits2]. fold d1.
        split; [apply Z.shiftl_nonneg|]; lia.
      - cbn. lia. }
    destruct Hm' as [Hm0 Hmd].
    destruct (Z.div_eucl m' (Zpos m2)) as [q r] eqn:Hdiv.
    assert (Hq : q = m' / Zpos m2) by (unfold Z.div; now rewrite Hdiv).
    assert (Hq0 : 0 <= q) by (rewrite Hq; apply Z.div_pos; lia).
    assert (Hqm : q <= m').
    { rewrite Hq. apply Z.div_le_upper_bound; [lia|]. nia. }
    pose proof (Zdigits2_mono q m' ltac:(lia)) as Hqd.
    pose proof (binary_round_aux_bounds false q e' (new_location (Zpos m2) r) Hq0)
      as Hb.
    assert (He' : lo - 116 <= e' <= hi + 52) by (subst e'; lia).
    specialize (Hb ltac:(lia)).
    fold dbl_prec dbl_emax in Hb |- *.
    destruct (binary_round_aux dbl_prec dbl_emax false q e' _);
      cbn [finite_within] in *; try assumption.
    destruct Hb as (-> & Hdig & He). unfold dbl_prec in *.
    repeat split; lia.
Qed.

Lemma is_finite_within (sx : bool) (lo hi : Z) (x : double) :
  finite_within sx lo hi x -> is_finite x = true.
Proof. destruct x; cbn; tauto. Qed.

(** Comparison the other way round. *)
Lemma SFcompare_antisym (x y : double) (c : comparison) :
  SFcompare x y = Some c -> SFcompare y x = Some (CompOpp c).
Proof.
  destruct x as [sx|sx| |sx mx ex], y as [sy|sy| |sy my ey]; cbn;
    try destruct sx; try destruct sy; try discriminate;
    try (intros [= <-]; reflexivity).
  all: rewrite (Z.compare_antisym ex ey);
    rewrite !Pos.compare_cont_spec; cbn [Pos.switch_Eq];
    rewrite (Pos.compare_antisym mx my);
    destruct (ex ?= ey), (mx ?= my)%positive; cbn; intros [= <-];
    reflexivity.
Qed.

Lemma dlt_false_dle (x y : double) :
  is_finite x = true -> is_finite y = true ->
  dlt x y = false <-> dle y x = true.
Proof.
  intros Hx Hy. unfold dlt, dle, SFltb, SFleb.
  destruct (SFcompare x y) as [c|] eqn:Hc.
  - rewrite (SFcompare_antisym x y c Hc). destruct c; cbn; intuition congruence.
  - destruct x, y; cbn in *; try discriminate;
      repeat match goal with b : bool |- _ => destruct b end; discriminate.
Qed.


(** *** Exact results *)

Lemma shr_1_even (m : Z) :
  0 < m ->
  shr_1 {| shr_m := m * 2; shr_r := false; shr_s := false |}
  = {| shr_m := m; shr_r := false; shr_s := false |}.
Proof. intros Hm. destruct m as [|p|p]; try lia. rewrite Z.mul_comm. reflexivity. Qed.

Lemma iter_shr_1_exact (n : positive) :
  forall m : Z, 0 < m ->
  iter_pos shr_1 n {| shr_m := m * 2 ^ Zpos n; shr_r := false;
                      shr_s := false |}
  = {| shr_m := m; shr_r := false; shr_s := false |}.
Proof.
  induction n as [n IH|n IH|]; intros m Hm; cbn [iter_pos].
  - assert (E : m * 2 ^ Zpos n~1 = m * 2 ^ Zpos n * 2 ^ Zpos n * 2).
    { assert (E : Zpos n~1 = Zpos n + Zpos n + 1) by lia. rewrite E.
      rewrite !Z.pow_add_r by lia. change (2 ^ 1) with 2. ring. }
    assert (0 < 2 ^ Zpos n) by (apply Z.pow_pos_nonneg; lia).
    rewrite E, shr_1_even by nia. rewrite IH by nia. now apply IH.
  - assert (E : m * 2 ^ Zpos n~0 = m * 2 ^ Zpos n * 2 ^ Zpos n).
    { assert (E : Zpos n~0 = Zpos n + Zpos n) by lia. rewrite E.
      rewrite !Z.pow_add_r by lia. ring. }
    assert (0 < 2 ^ Zpos n) by (apply Z.pow_pos_nonneg; lia).
    rewrite E. rewrite IH by nia. now apply IH.
  - change (2 ^ 1) with 2. now apply shr_1_even.
Qed.

(** A mantissa of 53 bits followed by zeros is not rounded. *)
Lemma binary_round_aux_exact (m : positive) (n e : Z) :
  Zpos (digits2_pos m) = 53 -> 0 <= n -> -1074 <= e + n <= 971 ->
  binary_round_aux dbl_prec dbl_emax false (Zpos m * 2 ^ n) e loc_Exact
  = S754_finite false m (e + n).
Proof.
  intros Hd Hn He. unfold binary_round_aux, shr_fexp, fexp, emin, dbl_prec, dbl_emax.
  assert (Hpow : 0 < 2 ^ n) by (apply Z.pow_pos_nonneg; lia).
  assert (Hdig : Zdigits2 (Zpos m * 2 ^ n) = 53 + n).
  { rewrite <- Z.shiftl_mul_pow2 by lia. rewrite Zdigits2_shiftl by lia.
    cbn [Zdigits2]. lia. }
  rewrite Hdig.
  replace (Z.max (53 + n + e - 53) (3 - 1024 - 53) - e) with n by lia.
  cbn [shr_record_of_loc]. unfold shr.
  destruct n as [|k|k]; try lia.
  - rewrite Z.mul_1_r, Z.add_0_r. cbn [shr_m loc_of_shr_record round_nearest_even].
    cbn [Zdigits2]. rewrite Hd.
    replace (Z.max (53 + e - 53) (3 - 1024 - 53) - e) with 0 by lia.
    cbn [shr_record_of_loc shr_m]. destruct (Z.leb_spec e (1024 - 53)); [reflexivity|lia].
  - rewrite iter_shr_1_exact by lia.
    cbn [shr_m loc_of_shr_record round_nearest_even Zdigits2]. rewrite Hd.
    replace (Z.max (53 + (e + Zpos k) - 53) (3 - 1024 - 53) - (e + Zpos k))
      with 0 by lia.
    cbn [shr_record_of_loc shr_m].
    destruct (Z.leb_spec (e + Zpos k) (1024 - 53)); [reflexivity|lia].
Qed.

Lemma iter_xO_value (p k : positive) :
  Zpos (Pos.iter xO p k) = Zpos p * 2 ^ Zpos k.
Proof.
  induction k as [|k IH] using Pos.peano_ind.
  - cbn. lia.
  - rewrite Pos.iter_succ, Pos2Z.inj_xO, IH, Pos2Z.inj_succ, Z.pow_succ_r by lia.
    ring.
Qed.

Lemma Zdigits2_bound (z : Z) (n : Z) :
  0 < z -> 0 <= n -> (Zdigits2 z <= n <-> z < 2 ^ n).
Proof.
  intros Hz Hn. destruct z as [|p|p]; try lia. rewrite Zdigits2_log2.
  destruct (Z.eq_dec n 0) as [->|Hn0].
  - pose proof (Z.log2_nonneg (Zpos p)). change (2 ^ 0) with 1. lia.
  - pose proof (Z.log2_lt_pow2 (Zpos p) n ltac:(lia)) as Hl. lia.
Qed.

Lemma Zdigits2_spec (z : Z) :
  0 < z -> 2 ^ (Zdigits2 z - 1) <= z < 2 ^ Zdigits2 z.
Proof.
  intros Hz. destruct z as [|p|p]; try lia. rewrite Zdigits2_log2.
  replace (Z.log2 (Zpos p) + 1 - 1) with (Z.log2 (Zpos p)) by lia.
  pose proof (Z.log2_spec (Zpos p) ltac:(lia)). 
  replace (Z.log2 (Zpos p) + 1) with (Z.succ (Z.log2 (Zpos p))) by lia. lia.
Qed.

Lemma Zdigits2_unique (z n : Z) :
  2 ^ (n - 1) <= z < 2 ^ n -> 0 < n -> Zdigits2 z = n.
Proof.
  intros Hz Hn.
  assert (0 < z).
  { assert (0 < 2 ^ (n - 1)) by (apply Z.pow_pos_nonneg; lia). lia. }
  destruct z as [|p|p]; try lia. rewrite Zdigits2_log2.
  rewrite (Z.log2_unique (Zpos p) (n - 1)); [lia|lia|].
  replace (Z.succ (n - 1)) with n by lia. exact Hz.
Qed.

(** The conversion of an integer of at most 53 bits is exact: the
    mantissa is the integer shifted to 53 bits. *)
Lemma double_of_Z_exact (z : Z) :
  0 < z < 2 ^ 53 ->
  exists m, double_of_Z z = S754_finite false m (Zdigits2 z - 53) /\
            Zpos m = z * 2 ^ (53 - Zdigits2 z) /\
            Zpos (digits2_pos m) = 53.
Proof.
  intros [Hz0 Hz1]. destruct z as [|p|p]; try lia.
  assert (Hd : 1 <= Zpos (digits2_pos p) <= 53).
  { split; [lia|]. apply (Zdigits2_bound (Zpos p) 53); lia. }
  unfold double_of_Z, binary_normalize, binary_round, shl_align, fexp, emin,
    dbl_prec, dbl_emax. cbn [Zdigits2].
  rewrite Z.add_0_r, Z.sub_0_r.
  replace (Z.max (Zpos (digits2_pos p) - 53) (3 - 1024 - 53))
    with (Zpos (digits2_pos p) - 53) by lia.
  destruct (Zpos (digits2_pos p) - 53) as [|k|k] eqn:Hk; try lia.
  - exists p.
    pose proof (binary_round_aux_exact p 0 0 ltac:(lia) ltac:(lia) ltac:(lia))
      as Hexact.
    rewrite Z.mul_1_r in Hexact. unfold dbl_prec, dbl_emax in Hexact.
    rewrite Hexact.
    replace (53 - Zpos (digits2_pos p)) with 0 by lia.
    split; [reflexivity|]. split; [lia|lia].
  - exists (Pos.iter xO p k).
    assert (Hdig : Zpos (digits2_pos (Pos.iter xO p k)) = 53).
    { rewrite digits2_pos_iter_xO. lia. }
    pose proof (binary_round_aux_exact (Pos.iter xO p k) 0 (Zneg k) Hdig
                  ltac:(lia) ltac:(lia)) as Hexact.
    rewrite Z.mul_1_r, Z.add_0_r in Hexact. unfold dbl_prec, dbl_emax in Hexact.
    rewrite Hexact.
    split; [reflexivity|]. split; [|exact Hdig].
    rewrite iter_xO_value. f_equal. f_equal. lia.
Qed.

(** The product of two converted integers is the converted product when
    that has at most 53 bits. *)
Lemma dmul_double_of_Z (a b : Z) :
  0 < a -> 0 < b -> a * b < 2 ^ 53 ->
  dmul (double_of_Z a) (double_of_Z b) = double_of_Z (a * b).
Proof.
  intros Ha Hb Hab.
  assert (Ha1 : a < 2 ^ 53) by nia.
  assert (Hb1 : b < 2 ^ 53) by nia.
  destruct (double_of_Z_exact a ltac:(lia)) as (ma & -> & Hma & Hda).
  destruct (double_of_Z_exact b ltac:(lia)) as (mb & -> & Hmb & Hdb).
  destruct (double_of_Z_exact (a * b) ltac:(nia)) as (mc & -> & Hmc & Hdc).
  unfold dmul, SFmul. cbn [xorb].
  pose proof (Zdigits2_spec a Ha) as Sa.
  pose proof (Zdigits2_spec b Hb) as Sb.
  pose proof (Zdigits2_spec (a * b) ltac:(nia)) as Sc.
  set (da := Zdigits2 a) in *. set (db := Zdigits2 b) in *.
  set (dc := Zdigits2 (a * b)) in *.
  assert (Hda1 : 1 <= da <= 53).
  { split; [|apply (Zdigits2_bound a 53); lia].
    subst da. destruct a; cbn; lia. }
  assert (Hdb1 : 1 <= db <= 53).
  { split; [|apply (Zdigits2_bound b 53); lia].
    subst db. destruct b; cbn; lia. }
  assert (Hdc1 : da + db - 1 <= dc <= 53).
  { split; [|apply (Zdigits2_bound (a * b) 53); nia].
    assert (Hlow : 2 ^ (da + db - 2) <= a * b).
    { replace (da + db - 2) with ((da - 1) + (db - 1)) by lia.
      rewrite Z.pow_add_r by lia.
      assert (0 < 2 ^ (da - 1)) by (apply Z.pow_pos_nonneg; lia).
      assert (0 < 2 ^ (db - 1)) by (apply Z.pow_pos_nonneg; lia). nia. }
    destruct (Z.lt_ge_cases dc (da + db - 1)) as [Hlt|]; [|lia].
    exfalso. assert (2 ^ dc <= 2 ^ (da + db - 2))
      by (apply Z.pow_le_mono_r; lia). lia. }
  set (n := 53 - da - db + dc).
  assert (Hn : 0 <= n) by (subst n; lia).
  assert (Hprod : Zpos (ma * mb) = Zpos mc * 2 ^ n).
  { rewrite Pos2Z.inj_mul, Hma, Hmb, Hmc. subst n.
    replace (a * 2 ^ (53 - da) * (b * 2 ^ (53 - db)))
      with (a * b * (2 ^ (53 - da) * 2 ^ (53 - db))) by ring.
    rewrite <- !Z.mul_assoc. do 2 f_equal.
    rewrite <- !Z.pow_add_r by lia. f_equal. lia. }
  rewrite Hprod.
  rewrite (binary_round_aux_exact mc n (da - 53 + (db - 53))) by lia.
  f_equal. subst n. lia.
Qed.

(** *** Rounding a mantissa of at least 53 bits *)

Lemma shr_1_value (mrs : shr_record) :
  0 <= shr_m mrs -> shr_m (shr_1 mrs) = shr_m mrs / 2.
Proof.
  destruct mrs as [m r s]. cbn [shr_m]. intros Hm.
  rewrite <- Z.div2_div. destruct m as [|[p|p|]|p]; try lia; reflexivity.
Qed.

Lemma iter_shr_1_value (n : positive) :
  forall mrs : shr_record,
  0 <= shr_m mrs ->
  shr_m (iter_pos shr_1 n mrs) = shr_m mrs / 2 ^ Zpos n.
Proof.
  induction n as [n IH|n IH|]; intros mrs Hm; cbn [iter_pos].
  - assert (Hp : 0 < 2 ^ Zpos n) by (apply Z.pow_pos_nonneg; lia).
    assert (H1 : 0 <= shr_m (shr_1 mrs))
      by (rewrite shr_1_value by lia; apply Z.div_pos; lia).
    assert (H2 : 0 <= shr_m (iter_pos shr_1 n (shr_1 mrs)))
      by (rewrite IH by lia; apply Z.div_pos; lia).
    rewrite IH, IH, shr_1_value by lia.
    rewrite !Z.div_div by lia. f_equal.
    assert (E : Zpos n~1 = 1 + Zpos n + Zpos n) by lia. rewrite E.
    rewrite !Z.pow_add_r by lia. change (2 ^ 1) with 2. ring.
  - assert (Hp : 0 < 2 ^ Zpos n) by (apply Z.pow_pos_nonneg; lia).
    assert (H2 : 0 <= shr_m (iter_pos shr_1 n mrs))
      by (rewrite IH by lia; apply Z.div_pos; lia).
    rewrite IH, IH by lia.
    rewrite !Z.div_div by lia. f_equal.
    assert (E : Zpos n~0 = Zpos n + Zpos n) by lia. rewrite E.
    rewrite !Z.pow_add_r by lia. ring.
  - change (2 ^ 1) with 2. now apply shr_1_value.
Qed.

Lemma round_nearest_even_step (m : Z) (l : location) :
  m <= round_nearest_even m l <= m + 1.
Proof.
  unfold round_nearest_even. destruct l as [|[]]; try destruct (Z.even m); lia.
Qed.

(** The mantissa is cut to its 53 leading bits and rounded; when it
    becomes [2^53] by that, the exponent goes up by one more. *)
Lemma binary_round_aux_normal (mx ex : Z) (lx : location) :
  53 <= Zdigits2 mx -> 0 < mx ->
  -1074 <= Zdigits2 mx + ex - 53 -> Zdigits2 mx + ex <= 1023 ->
  exists m e,
    binary_round_aux dbl_prec dbl_emax false mx ex lx = S754_finite false m e /\
    Zpos (digits2_pos m) = 53 /\
    ((53 + e = Zdigits2 mx + ex /\
      mx / 2 ^ (Zdigits2 mx - 53) <= Zpos m <= mx / 2 ^ (Zdigits2 mx - 53) + 1)
     \/
     (53 + e = Zdigits2 mx + ex + 1 /\
      mx / 2 ^ (Zdigits2 mx - 53) = 2 ^ 53 - 1 /\ Zpos m = 2 ^ 52)).
Proof.
  intros Hd Hm Hlo Hhi.
  pose proof (Zdigits2_spec mx Hm) as Hspec.
  set (D := Zdigits2 mx) in *.
  set (m1 := mx / 2 ^ (D - 53)).
  assert (Hm1 : 2 ^ 52 <= m1 < 2 ^ 53).
  { subst m1. assert (Hp : 0 < 2 ^ (D - 53)) by (apply Z.pow_pos_nonneg; lia).
    assert (E1 : 2 ^ (D - 1) = 2 ^ 52 * 2 ^ (D - 53))
      by (rewrite <- Z.pow_add_r by lia; f_equal; lia).
    assert (E2 : 2 ^ D = 2 ^ 53 * 2 ^ (D - 53))
      by (rewrite <- Z.pow_add_r by lia; f_equal; lia).
    split.
    - apply Z.div_le_lower_bound; [lia|]. lia.
    - apply Z.div_lt_upper_bound; [lia|]. lia. }
  unfold binary_round_aux.
  assert (Hfirst : shr_m (shr_fexp dbl_prec dbl_emax mx ex lx).1 = m1 /\
                   (shr_fexp dbl_prec dbl_emax mx ex lx).2 = ex + (D - 53)).
  { unfold shr_fexp, shr, fexp, emin, dbl_prec, dbl_emax. fold D.
    replace (Z.max (D + ex - 53) (3 - 1024 - 53) - ex) with (D - 53) by lia.
    destruct (D - 53) as [|n|n] eqn:Hn; try lia; cbn [fst snd].
    - rewrite shr_m_of_loc. subst m1.
      change (2 ^ 0) with 1. rewrite Z.div_1_r. split; [reflexivity|lia].
    - rewrite iter_shr_1_value by (rewrite shr_m_of_loc; lia).
      rewrite shr_m_of_loc. subst m1. auto. }
  destruct (shr_fexp dbl_prec dbl_emax mx ex lx) as [mrs1 e1].
  cbn [fst snd] in Hfirst. destruct Hfirst as [Hs1 He1].
  pose proof (round_nearest_even_step (shr_m mrs1) (loc_of_shr_record mrs1))
    as Hround.
  set (m2 := round_nearest_even (shr_m mrs1) (loc_of_shr_record mrs1)) in *.
  rewrite Hs1 in Hround.
  destruct (Z.eq_dec m2 (2 ^ 53)) as [Hcarry|Hnc].
  - (* the carry *)
    assert (Hsecond : shr_fexp dbl_prec dbl_emax m2 e1 loc_Exact
                      = ({| shr_m := 2 ^ 52; shr_r := false; shr_s := false |},
                         e1 + 1)).
    { rewrite Hcarry. unfold shr_fexp, shr, fexp, emin, dbl_prec, dbl_emax.
      change (Zdigits2 (2 ^ 53)) with 54.
      replace (Z.max (54 + e1 - 53) (3 - 1024 - 53) - e1) with 1 by lia.
      reflexivity. }
    rewrite Hsecond. cbn [shr_m]. change (2 ^ 52) with 4503599627370496.
    unfold dbl_emax, dbl_prec. destruct (Z.leb_spec (e1 + 1) (1024 - 53)); [|lia].
    eexists _, _. split; [reflexivity|]. split; [reflexivity|].
    right. fold m1. change (2 ^ 53) with 9007199254740992 in *.
    change (2 ^ 52) with 4503599627370496 in *. lia.
  - assert (Hm2 : 2 ^ 52 <= m2 < 2 ^ 53) by lia.
    assert (Hd2 : Zdigits2 m2 = 53) by (apply Zdigits2_unique; lia).
    assert (Hsecond : shr_fexp dbl_prec dbl_emax m2 e1 loc_Exact
                      = ({| shr_m := m2; shr_r := false; shr_s := false |}, e1)).
    { unfold shr_fexp, shr, fexp, emin, dbl_prec, dbl_emax. rewrite Hd2.
      replace (Z.max (53 + e1 - 53) (3 - 1024 - 53) - e1) with 0 by lia.
      reflexivity. }
    rewrite Hsecond. cbn [shr_m].
    destruct m2 as [|p|p] eqn:Hp; try lia.
    unfold dbl_emax, dbl_prec. destruct (Z.leb_spec e1 (1024 - 53)); [|lia].
    exists p, e1. split; [reflexivity|]. split; [exact Hd2|].
    left. fold m1. lia.
Qed.

(** *** Normal doubles *)

Lemma double_of_Z_normal (z : Z) :
  0 < z <= LONG_MAX ->
  exists mag, normal_with mag (double_of_Z z) /\
              Zdigits2 z <= mag <= Zdigits2 z + 1.
Proof.
  intros [Hz0 Hz1]. destruct (Z.lt_ge_cases z (2 ^ 53)) as [Hsmall|Hbig].
  - destruct (double_of_Z_exact z ltac:(lia)) as (m & -> & _ & Hd).
    exists (Zdigits2 z). cbn. split; [split; [exact Hd|lia]|lia].
  - destruct z as [|p|p]; try lia.
    assert (Hd : 54 <= Zpos (digits2_pos p) <= 63).
    { change (Zpos (digits2_pos p)) with (Zdigits2 (Zpos p)). split.
      - destruct (Z.lt_ge_cases (Zdigits2 (Zpos p)) 54) as [Hlt|]; [|lia].
        exfalso. pose proof (Zdigits2_bound (Zpos p) 53). lia.
      - change 63 with (Zdigits2 LONG_MAX). apply Zdigits2_mono. lia. }
    unfold double_of_Z, binary_normalize, binary_round, shl_align, fexp, emin,
      dbl_prec, dbl_emax.
    rewrite Z.add_0_r, Z.sub_0_r.
    destruct (Z.max (Zpos (digits2_pos p) - 53) (3 - 1024 - 53)) as [|k|k] eqn:Hk;
      try lia.
    destruct (binary_round_aux_normal (Zpos p) 0 loc_Exact)
      as (m & e & Hr & Hdm & Hmag); cbn [Zdigits2]; try lia.
    unfold dbl_prec, dbl_emax in Hr. rewrite Hr.
    cbn [Zdigits2] in Hmag. exists (53 + e). cbn.
    split; [split; [exact Hdm|reflexivity]|]. lia.
Qed.

Lemma dmul_normal (ma mb : Z) (x y : double) :
  normal_with ma x -> normal_with mb y ->
  -960 <= ma + mb <= 1020 ->
  exists mag, normal_with mag (dmul x y) /\ ma + mb - 1 <= mag <= ma + mb + 1.
Proof.
  intros Hx Hy Hr.
  destruct x as [| | |[] m1 e1]; try contradiction.
  destruct y as [| | |[] m2 e2]; try contradiction.
  destruct Hx as [Hd1 He1]. destruct Hy as [Hd2 He2].
  unfold dmul, SFmul. cbn [xorb].
  pose proof (Zdigits2_spec (Zpos m1) ltac:(lia)) as S1.
  pose proof (Zdigits2_spec (Zpos m2) ltac:(lia)) as S2.
  cbn [Zdigits2] in S1, S2. rewrite Hd1 in S1. rewrite Hd2 in S2.
  change (2 ^ (53 - 1)) with 4503599627370496 in *.
  change (2 ^ 53) with 9007199254740992 in *.
  assert (HD : 105 <= Zdigits2 (Zpos (m1 * m2)) <= 106).
  { rewrite Pos2Z.inj_mul. split.
    - destruct (Z.lt_ge_cases (Zdigits2 (Zpos m1 * Zpos m2)) 105) as [Hlt|];
        [|lia].
      exfalso.
      assert (Hb : Zpos m1 * Zpos m2 < 2 ^ 104)
        by (apply (Zdigits2_bound _ 104); lia).
      change (2 ^ 104) with (4503599627370496 * 4503599627370496) in Hb. nia.
    - apply (Zdigits2_bound _ 106); try lia.
      change (2 ^ 106) with (9007199254740992 * 9007199254740992). nia. }
  destruct (binary_round_aux_normal (Zpos (m1 * m2)) (e1 + e2) loc_Exact)
    as (m & e & Hres & Hdm & Hmag); try lia.
  rewrite Hres. exists (53 + e). cbn.
  split; [split; [exact Hdm|reflexivity]|]. lia.
Qed.

Lemma ddiv_core (mx my : positive) (ex ey : Z) :
  Zpos (digits2_pos mx) = 53 -> Zpos (digits2_pos my) = 53 ->
  -1074 <= ex - ey - 53 ->
  ddiv (S754_finite false mx ex) (S754_finite false my ey)
  = binary_round_aux dbl_prec dbl_emax false
      (Zpos mx * 2 ^ 53 / Zpos my) (ex - ey - 53)
      (new_location (Zpos my) (Zpos mx * 2 ^ 53 mod Zpos my)).
Proof.
  intros Hdx Hdy He. unfold ddiv, SFdiv, SFdiv_core_binary. cbn [xorb Zdigits2].
  rewrite Hdx, Hdy. unfold fexp, emin, dbl_prec, dbl_emax.
  replace (Z.min (Z.max (53 + ex - (53 + ey) - 53) (3 - 1024 - 53)) (ex - ey))
    with (ex - ey - 53) by lia.
  replace (ex - ey - (ex - ey - 53)) with 53 by lia.
  rewrite Z.shiftl_mul_pow2 by lia.
  unfold Z.div, Z.modulo.
  destruct (Z.div_eucl (Zpos mx * 2 ^ 53) (Zpos my)) as [q r]. reflexivity.
Qed.

(** The quotient of two positive normal doubles.  Its magnitude is the
    difference of the magnitudes, plus one when the mantissa of the
    dividend is not smaller; rounding could add one more only for the
    largest mantissa. *)
Lemma ddiv_normal (mx my : positive) (ex ey : Z) :
  Zpos (digits2_pos mx) = 53 -> Zpos (digits2_pos my) = 53 ->
  -1020 <= ex - ey <= 960 ->
  exists m e,
    ddiv (S754_finite false mx ex) (S754_finite false my ey)
    = S754_finite false m e /\
    Zpos (digits2_pos m) = 53 /\
    (53 + e = ex - ey + (if (my <=? mx)%positive then 1 else 0) \/
     (53 + e = ex - ey + (if (my <=? mx)%positive then 1 else 0) + 1 /\
      Zpos mx = 2 ^ 53 - 1)).
Proof.
  intros Hdx Hdy He. rewrite ddiv_core by lia.
  pose proof (Zdigits2_spec (Zpos mx) ltac:(lia)) as Sx.
  pose proof (Zdigits2_spec (Zpos my) ltac:(lia)) as Sy.
  cbn [Zdigits2] in Sx, Sy. rewrite Hdx in Sx. rewrite Hdy in Sy.
  change (2 ^ (53 - 1)) with 4503599627370496 in *.
  change (2 ^ 53) with 9007199254740992 in *.
  set (q := Zpos mx * 9007199254740992 / Zpos my).
  assert (Hq : q * Zpos my <= Zpos mx * 9007199254740992
               < (q + 1) * Zpos my).
  { subst q. pose proof (Z.div_mod (Zpos mx * 9007199254740992) (Zpos my)
                           ltac:(lia)) as Hdm.
    pose proof (Z.mod_pos_bound (Zpos mx * 9007199254740992) (Zpos my)
                  ltac:(lia)). nia. }
  destruct (Pos.leb_spec my mx) as [Hge|Hlt].
  - (* 54 bits *)
    assert (Hq54 : 2 ^ 53 <= q < 2 ^ 54).
    { change (2 ^ 53) with 9007199254740992.
      change (2 ^ 54) with 18014398509481984. split; nia. }
    assert (HD : Zdigits2 q = 54) by (apply Zdigits2_unique; lia).
    destruct (binary_round_aux_normal q (ex - ey - 53)
                (new_location (Zpos my)
                   (Zpos mx * 9007199254740992 mod Zpos my)))
      as (m & e & Hres & Hdm & Hmag);
      try (rewrite ?HD; change (2 ^ 53) with 9007199254740992 in Hq54; lia).
    rewrite Hres. exists m, e. split; [reflexivity|]. split; [exact Hdm|].
    rewrite HD in Hmag. change (2 ^ (54 - 53)) with 2 in Hmag.
    change (2 ^ 53) with 9007199254740992 in *.
    change (2 ^ 54) with 18014398509481984 in *.
    destruct Hmag as [[He1 _]|(He1 & Hq1 & _)]; [left; lia|].
    right. split; [lia|].
    assert (Hq2 : 18014398509481982 <= q).
    { pose proof (Z.div_mod q 2 ltac:(lia)).
      pose proof (Z.mod_pos_bound q 2 ltac:(lia)). lia. }
    assert (Hmy : Zpos my = 4503599627370496) by nia.
    rewrite Hmy in Hq. lia.
  - (* 53 bits *)
    assert (Hq53 : 2 ^ 52 <= q < 2 ^ 53).
    { change (2 ^ 53) with 9007199254740992.
      change (2 ^ 52) with 4503599627370496. split; nia. }
    assert (HD : Zdigits2 q = 53) by (apply Zdigits2_unique; lia).
    destruct (binary_round_aux_normal q (ex - ey - 53)
                (new_location (Zpos my)
                   (Zpos mx * 9007199254740992 mod Zpos my)))
      as (m & e & Hres & Hdm & Hmag);
      try (rewrite ?HD; change (2 ^ 52) with 4503599627370496 in Hq53; lia).
    rewrite Hres. exists m, e. split; [reflexivity|]. split; [exact Hdm|].
    rewrite HD in Hmag. change (2 ^ (53 - 53)) with 1 in Hmag.
    rewrite Z.div_1_r in Hmag.
    change (2 ^ 53) with 9007199254740992 in *.
    destruct Hmag as [[He1 _]|(He1 & Hq1 & _)]; [left; lia|].
    exfalso. rewrite Hq1 in Hq. lia.
Qed.

(** *** Comparison with a power of two *)

(** Order of two positive finite doubles: by exponent, then by mantissa. *)
Lemma dlt_finite (m1 m2 : positive) (e1 e2 : Z) :
  dlt (S754_finite false m1 e1) (S754_finite false m2 e2) = true <->
  e1 < e2 \/ (e1 = e2 /\ Zpos m1 < Zpos m2).
Proof.
  unfold dlt, SFltb. cbn. rewrite Pos.compare_cont_spec. cbn [Pos.switch_Eq].
  destruct (Z.compare_spec e1 e2) as [->|Hlt|Hgt];
    try destruct (Pos.compare_spec m1 m2) as [->|Hm|Hm];
    (split; [intros Hc|intros Hc]); try discriminate; try reflexivity;
    try (exfalso; lia); try (left; lia); right; split; try reflexivity; lia.
Qed.

Lemma dlt_dpow2 (m : positive) (e k : Z) :
  Zpos (digits2_pos m) = 53 ->
  dlt (S754_finite false m e) (dpow2 k) = true <-> 53 + e <= k.
Proof.
  intros Hd. pose proof (Zdigits2_spec (Zpos m) ltac:(lia)) as Sm.
  cbn [Zdigits2] in Sm. rewrite Hd in Sm.
  change (2 ^ (53 - 1)) with 4503599627370496 in Sm.
  change (2 ^ 53) with 9007199254740992 in Sm. clear Hd.
  unfold dpow2. rewrite dlt_finite.
  lia.
Qed.

Lemma scaled_lt (ma mb X Y : Z) :
  4503599627370496 <= ma < 9007199254740992 ->
  4503599627370496 <= mb < 9007199254740992 ->
  0 < X -> 2 <= Y -> ma * X < mb * (X * Y).
Proof.
  intros Ha Hb HX HY. rewrite Z.mul_assoc.
  assert (ma * X < 9007199254740992 * X)
    by (apply Z.mul_lt_mono_pos_r; lia).
  assert (4503599627370496 * X <= mb * X)
    by (apply Z.mul_le_mono_nonneg_r; lia).
  assert (mb * X * 2 <= mb * X * Y)
    by (apply Z.mul_le_mono_nonneg_l; lia).
  lia.
Qed.

(** Two integers and their mantissas of 53 bits: the quotient is below
    [2^k] exactly when the difference of the bit lengths, plus one when the
    mantissa of the dividend is not the smaller one, is at most [k]. *)
Lemma mantissa_order (a b da db k : Z) (ma mb : positive) :
  0 <= 53 - da -> 0 <= 53 - db -> 0 <= k ->
  Zpos ma = a * 2 ^ (53 - da) -> Zpos mb = b * 2 ^ (53 - db) ->
  Zpos (digits2_pos ma) = 53 -> Zpos (digits2_pos mb) = 53 ->
  a < 2 ^ k * b <-> da - db + (if (mb <=? ma)%positive then 1 else 0) <= k.
Proof.
  intros Hv Hu Hk Ha Hb Hda Hdb.
  pose proof (Zdigits2_spec (Zpos ma) ltac:(lia)) as Sa.
  pose proof (Zdigits2_spec (Zpos mb) ltac:(lia)) as Sb.
  cbn [Zdigits2] in Sa, Sb. rewrite Hda in Sa. rewrite Hdb in Sb.
  change (2 ^ (53 - 1)) with 4503599627370496 in *.
  change (2 ^ 53) with 9007199254740992 in *.
  set (v := 53 - da) in *. set (u := 53 - db) in *.
  assert (Pv : 0 < 2 ^ v) by (apply Z.pow_pos_nonneg; lia).
  assert (Pu : 0 < 2 ^ u) by (apply Z.pow_pos_nonneg; lia).
  assert (E : a < 2 ^ k * b <-> Zpos ma * 2 ^ u < Zpos mb * 2 ^ (k + v)).
  { rewrite Ha, Hb, Z.pow_add_r by lia.
    rewrite (Z.mul_lt_mono_pos_r (2 ^ v * 2 ^ u)) by nia.
    replace (a * 2 ^ v * 2 ^ u) with (a * (2 ^ v * 2 ^ u)) by ring.
    replace (b * 2 ^ u * (2 ^ k * 2 ^ v)) with (2 ^ k * b * (2 ^ v * 2 ^ u))
      by ring.
    reflexivity. }
  rewrite E. clear E.
  replace (da - db) with (u - v) by lia.
  destruct (Z.lt_trichotomy (k + v) u) as [Hlt|[Heq|Hgt]].
  - (* the divisor is too small *)
    replace u with ((k + v) + (u - (k + v))) at 1 by lia.
    rewrite Z.pow_add_r by lia.
    assert (P1 : 0 < 2 ^ (k + v)) by (apply Z.pow_pos_nonneg; lia).
    assert (P2 : 2 ^ 1 <= 2 ^ (u - (k + v))) by (apply Z.pow_le_mono_r; lia).
    change (2 ^ 1) with 2 in P2.
    pose proof (scaled_lt (Zpos mb) (Zpos ma) _ _ Sb Sa P1 P2) as Hs.
    split; [intros H; exfalso; lia|destruct (mb <=? ma)%positive; lia].
  - rewrite Heq.
    destruct (Pos.leb_spec mb ma) as [Hle|Hlt].
    + split; [intros H; exfalso|lia].
      apply Pos2Z.pos_le_pos in Hle.
      apply Z.mul_lt_mono_pos_r in H; [lia|assumption].
    + split; [lia|intros _]. apply Pos2Z.pos_lt_pos in Hlt.
      apply Z.mul_lt_mono_pos_r; assumption.
  - replace (k + v) with (u + (k + v - u)) by lia.
    rewrite Z.pow_add_r by lia.
    assert (P2 : 2 ^ 1 <= 2 ^ (k + v - u)) by (apply Z.pow_le_mono_r; lia).
    change (2 ^ 1) with 2 in P2.
    pose proof (scaled_lt (Zpos ma) (Zpos mb) _ _ Sa Sb Pu P2) as Hs.
    split; [intros _; destruct (mb <=? ma)%positive; lia|intros _; exact Hs].
Qed.

(** *** Exact quotients *)

Lemma new_location_exact (n : Z) : new_location n 0 = loc_Exact.
Proof. unfold new_location. destruct (Z.even n); reflexivity. Qed.

Lemma Zdigits2_positive (z : Z) : 0 < z -> 1 <= Zdigits2 z.
Proof. destruct z; cbn; lia. Qed.

(** The quotient of two converted integers is the converted quotient when
    the division leaves no remainder. *)
Lemma ddiv_double_of_Z (n b : Z) :
  0 < n -> 0 < b -> n * b < 2 ^ 53 ->
  ddiv (double_of_Z (n * b)) (double_of_Z b) = double_of_Z n.
Proof.
  intros Hn Hb Hnb.
  assert (Hab : 0 < n * b) by (apply Z.mul_pos_pos; assumption).
  assert (Hn53 : n < 2 ^ 53).
  { apply Z.le_lt_trans with (n * b); [|exact Hnb].
    rewrite <- (Z.mul_1_r n) at 1. apply Z.mul_le_mono_nonneg_l; lia. }
  assert (Hb53 : b < 2 ^ 53).
  { apply Z.le_lt_trans with (n * b); [|exact Hnb].
    rewrite <- (Z.mul_1_l b) at 1. apply Z.mul_le_mono_nonneg_r; lia. }
  destruct (double_of_Z_exact (n * b) ltac:(lia)) as (ma & -> & Hma & Hda).
  destruct (double_of_Z_exact b ltac:(lia)) as (mb & -> & Hmb & Hdb).
  destruct (double_of_Z_exact n ltac:(lia)) as (mn & -> & Hmn & Hdn).
  pose proof (Zdigits2_spec n Hn) as Sn.
  pose proof (Zdigits2_spec b Hb) as Sb.
  pose proof (proj2 (Zdigits2_bound (n * b) 53 Hab ltac:(lia)) Hnb) as Da53.
  pose proof (proj2 (Zdigits2_bound b 53 Hb ltac:(lia)) Hb53) as Db53.
  pose proof (proj2 (Zdigits2_bound n 53 Hn ltac:(lia)) Hn53) as Dn53.
  pose proof (Zdigits2_positive _ Hab) as Da1.
  pose proof (Zdigits2_positive _ Hb) as Db1.
  pose proof (Zdigits2_positive _ Hn) as Dn1.
  set (Da := Zdigits2 (n * b)) in *. set (Db := Zdigits2 b) in *.
  set (Dn := Zdigits2 n) in *.
  assert (Hj : Da <= Dn + Db).
  { apply Zdigits2_bound; [exact Hab|lia|]. rewrite Z.pow_add_r by lia.
    apply Z.mul_lt_mono_nonneg; lia. }
  rewrite ddiv_core by lia.
  assert (Hnum : Zpos ma * 2 ^ 53
                 = Zpos mn * 2 ^ (Dn + Db - Da) * Zpos mb).
  { rewrite Hma, Hmb, Hmn.
    transitivity (n * b * 2 ^ (106 - Da)).
    - rewrite <- Z.mul_assoc, <- Z.pow_add_r by lia. do 2 f_equal; lia.
    - replace (106 - Da) with ((53 - Dn) + (Dn + Db - Da) + (53 - Db)) by lia.
      rewrite !Z.pow_add_r by lia. ring. }
  rewrite Hnum, Z.div_mul, Z.mod_mul by lia.
  rewrite new_location_exact.
  rewrite binary_round_aux_exact by lia.
  f_equal. lia.
Qed.
(** *** The length of the printed number *)

Lemma string_length_app (s1 s2 : string) :
  String.length (s1 +:+ s2) = (String.length s1 + String.length s2)%nat.
Proof.
  induction s1 as [|c s1 IH]; [reflexivity|].
  change (S (String.length (s1 +:+ s2))
          = S (String.length s1 + String.length s2)).
  now rewrite IH.
Qed.

Lemma string_app_assoc (s1 s2 s3 : string) :
  (s1 +:+ s2) +:+ s3 = s1 +:+ (s2 +:+ s3).
Proof.
  induction s1 as [|c s1 IH]; [reflexivity|].
  change (String c ((s1 +:+ s2) +:+ s3) = String c (s1 +:+ (s2 +:+ s3))).
  now rewrite IH.
Qed.

Lemma spaces_length (n : nat) :
  String.length (String.concat "" (replicate n " ")) = n.
Proof.
  induction n as [|n IH]; [reflexivity|].
  cbn [replicate String.concat]. destruct n as [|n]; [reflexivity|].
  cbn [replicate] in *. rewrite !string_length_app, IH. reflexivity.
Qed.

Lemma pad_left_length (w : nat) (s : string) :
  String.length (pad_left w s) = Nat.max w (String.length s).
Proof. unfold pad_left. rewrite string_length_app, spaces_length. lia. Qed.

Lemma decimal_length (z : Z) :
  0 <= z <= 2048 -> (String.length (decimal z) <= 4)%nat.
Proof.
  intros Hz.
  assert (H : forallb (fun n => (String.length (decimal (Z.of_nat n)) <=? 4)%nat)
                (seq 0 2049) = true) by (vm_compute; reflexivity).
  rewrite forallb_forall in H. specialize (H (Z.to_nat z)).
  rewrite Z2Nat.id in H by lia. apply Nat.leb_le, H, in_seq. lia.
Qed.

Lemma two_digits_length (z : Z) :
  0 <= z < 100 -> String.length (two_digits z) = 2%nat.
Proof.
  intros Hz.
  assert (H : forallb (fun n => (String.length (two_digits (Z.of_nat n)) =? 2)%nat)
                (seq 0 100) = true) by (vm_compute; reflexivity).
  rewrite forallb_forall in H. specialize (H (Z.to_nat z)).
  rewrite Z2Nat.id in H by lia. apply Nat.eqb_eq, H, in_seq. lia.
Qed.

(** The hundredths of a double below [2^j]. *)
Lemma hundredths_bound (m : positive) (e j : Z) :
  Zpos (digits2_pos m) = 53 -> 53 + e <= j -> 0 <= j <= 52 ->
  0 <= hundredths m e <= 100 * 2 ^ j.
Proof.
  intros Hd He Hj.
  pose proof (Zdigits2_spec (Zpos m) ltac:(lia)) as Sm.
  cbn [Zdigits2] in Sm. rewrite Hd in Sm.
  destruct e as [|p|p]; try lia. unfold hundredths.
  assert (Pp : 0 < 2 ^ Zpos p) by (apply Z.pow_pos_nonneg; lia).
  assert (Pj : 0 < 2 ^ j) by (apply Z.pow_pos_nonneg; lia).
  assert (Hq0 : 0 <= Zpos m * 100 / 2 ^ Zpos p) by (apply Z.div_pos; lia).
  assert (Hq1 : Zpos m * 100 / 2 ^ Zpos p < 100 * 2 ^ j).
  { apply Z.div_lt_upper_bound; [exact Pp|].
    assert (Hpow : 2 ^ 53 <= 2 ^ Zpos p * 2 ^ j).
    { rewrite <- Z.pow_add_r by lia. apply Z.pow_le_mono_r; lia. }
    generalize dependent (2 ^ Zpos p). intros X PX _ HX.
    generalize dependent (2 ^ j). intros Y PY HX.
    generalize dependent (2 ^ 53). intros T Sm HX.
    assert (X * (100 * Y) = 100 * (X * Y)) by ring. lia. }
  destruct (2 * _ ?= _); [destruct (Z.even _)| |]; lia.
Qed.

Lemma sprintf_f2_length (pad : bool) (x : double) (mag : Z) :
  normal_with mag x -> mag <= 11 ->
  (String.length (sprintf_f2 pad x) <= 7)%nat.
Proof.
  intros Hx Hmag. destruct x as [| | |[] m e]; try contradiction.
  destruct Hx as [Hd He].
  pose proof (hundredths_bound m e 11 Hd ltac:(lia) ltac:(lia)) as Hh.
  change (2 ^ 11) with 2048 in Hh.
  assert (Hb : (String.length (decimal (hundredths m e / 100) +:+ "."
                  +:+ two_digits (hundredths m e mod 100)) <= 7)%nat).
  { rewrite !string_length_app.
    rewrite two_digits_length by (apply Z.mod_pos_bound; lia).
    pose proof (decimal_length (hundredths m e / 100)) as Hl.
    assert (0 <= hundredths m e / 100 <= 2048).
    { split; [apply Z.div_pos; lia|]. apply Z.div_le_upper_bound; lia. }
    specialize (Hl ltac:(assumption)). cbn [String.length]. lia. }
  unfold sprintf_f2.
  set (body := decimal (hundredths m e / 100) +:+ "."
                 +:+ two_digits (hundredths m e mod 100)) in *.
  change ("" +:+ body) with body.
  destruct pad; [rewrite pad_left_length; lia|exact Hb].
Qed.

(** A whole number is printed with two zeros after the point. *)
Lemma sprintf_f2_whole (n : Z) :
  0 <= n < 2 ^ 53 -> sprintf_f2 false (double_of_Z n) = decimal n +:+ ".00".
Proof.
  intros [Hn0 Hn1]. destruct (Z.eq_dec n 0) as [->|Hne]; [reflexivity|].
  destruct (double_of_Z_exact n ltac:(lia)) as (m & -> & Hm & Hd).
  pose proof (proj2 (Zdigits2_bound n 53 ltac:(lia) ltac:(lia)) Hn1) as D53.
  assert (Hh : hundredths m (Zdigits2 n - 53) = n * 100).
  { unfold hundredths. destruct (Zdigits2 n - 53) as [|p|p] eqn:Hp; try lia.
    - rewrite Hm. replace (53 - Zdigits2 n) with 0 by lia.
      change (2 ^ 0) with 1. ring.
    - assert (Pp : 0 < 2 ^ Zpos p) by (apply Z.pow_pos_nonneg; lia).
      assert (E : Zpos m * 100 = n * 100 * 2 ^ Zpos p).
      { rewrite Hm. replace (53 - Zdigits2 n) with (Zpos p) by lia. ring. }
      rewrite E, Z.div_mul, Z.mod_mul by lia.
      destruct (Z.compare_spec (2 * 0) (2 ^ Zpos p)); lia. }
  unfold sprintf_f2. rewrite Hh, Z.div_mul, Z.mod_mul by lia. reflexivity.
Qed.
Section Rate.
Context `{P : Platform}.

Lemma effective_msecs_positive (msecs : Z) :
  0 < wtimer_granularity <= LONG_MAX -> 0 <= msecs <= LONG_MAX ->
  0 < effective_msecs msecs <= LONG_MAX.
Proof.
  intros Hg Hm. unfold effective_msecs.
  destruct (Z.eqb_spec msecs 0); lia.
Qed.

(** The rate is a finite double that is not negative. *)
Lemma dlrate_finite (bytes msecs : Z) :
  0 < wtimer_granularity <= LONG_MAX ->
  0 <= bytes <= LONG_MAX -> 0 <= msecs <= LONG_MAX ->
  finite_within false (-220) 129 (dlrate bytes msecs).
Proof.
  intros Hg Hb Hm. unfold dlrate.
  destruct (double_of_Z_positive _ (effective_msecs_positive msecs Hg Hm))
    as (m2 & e2 & -> & Hd2 & He2).
  destruct (Z.eq_dec bytes 0) as [->|Hne].
  - reflexivity.
  - destruct (double_of_Z_positive bytes ltac:(lia)) as (mb & eb & -> & Hdb & Heb).
    destruct (double_of_Z_positive 1000 ltac:(unfold LONG_MAX; lia))
      as (mk & ek & -> & Hdk & Hek).
    apply (ddiv_bounds _ m2 e2 (-104) 76); try lia.
    apply dmul_bounds; assumption.
Qed.


(** Order of two positive finite doubles: by exponent, then by mantissa
    (their mantissas have the same number of digits when the exponents are
    equal and both are normal; the comparison itself needs no such fact). *)
Lemma dle_finite (m1 m2 : positive) (e1 e2 : Z) :
  dle (S754_finite false m1 e1) (S754_finite false m2 e2) = true <->
  e1 < e2 \/ (e1 = e2 /\ (m1 <= m2)%positive).
Proof.
  unfold dle, SFleb. cbn. rewrite Pos.compare_cont_spec. cbn [Pos.switch_Eq].
  destruct (Z.compare_spec e1 e2) as [->|Hlt|Hgt];
    try destruct (Pos.compare_spec m1 m2) as [->|Hm|Hm];
    (split; [intros Hc|intros Hc]); try discriminate; try reflexivity;
    try (exfalso; lia); try (left; lia); right; split; try reflexivity; lia.
Qed.

(** A double that is at least [1024^2] is at least [1024], and one that is
    at least [1024^3] is at least [1024^2]. *)
Lemma dle_thresholds (r : double) :
  (dle d1024_2 r = true -> dle d1024 r = true) /\
  (dle d1024_3 r = true -> dle d1024_2 r = true).
Proof.
  destruct r as [s|s| |s m e]; try (split; intros H; exact H);
    try (split; discriminate).
  destruct s; [split; discriminate|].
  change d1024 with (S754_finite false 4503599627370496 (-42)).
  change d1024_2 with (S754_finite false 4503599627370496 (-32)).
  change d1024_3 with (S754_finite false 4503599627370496 (-22)).
  rewrite !dle_finite. lia.
Qed.

(** The constants of [rate] are powers of two. *)
Lemma dpow2_thresholds :
  d1024 = dpow2 10 /\ d1024_2 = dpow2 20 /\ d1024_3 = dpow2 30.
Proof. repeat split. Qed.

Lemma normal_with_dpow2 (k : Z) : normal_with (k + 1) (dpow2 k).
Proof. split; [reflexivity|lia]. Qed.

Lemma Zdigits2_long (z : Z) : 0 < z <= LONG_MAX -> 1 <= Zdigits2 z <= 63.
Proof.
  intros Hz. split; [apply Zdigits2_positive; lia|].
  change 63 with (Zdigits2 LONG_MAX). apply Zdigits2_mono. lia.
Qed.

(** The quotient of two positive normal doubles, by magnitudes. *)
Lemma ddiv_normal_with (mx my : Z) (x y : double) :
  normal_with mx x -> normal_with my y -> -1020 <= mx - my <= 960 ->
  exists mag, normal_with mag (ddiv x y) /\ mx - my <= mag <= mx - my + 2.
Proof.
  intros Hx Hy Hr.
  destruct x as [| | |[] m1 e1]; try contradiction.
  destruct y as [| | |[] m2 e2]; try contradiction.
  destruct Hx as [Hd1 He1]. destruct Hy as [Hd2 He2].
  destruct (ddiv_normal m1 m2 e1 e2 Hd1 Hd2 ltac:(lia))
    as (m & e & -> & Hd & Hmag).
  exists (53 + e). split; [split; [exact Hd|reflexivity]|].
  destruct (m2 <=? m1)%positive; lia.
Qed.

(** Nothing transferred: the rate is zero. *)
Lemma dlrate_zero (msecs : Z) :
  0 < wtimer_granularity <= LONG_MAX -> 0 <= msecs <= LONG_MAX ->
  dlrate 0 msecs = S754_zero false.
Proof.
  intros Hg Hm. unfold dlrate.
  destruct (double_of_Z_positive _ (effective_msecs_positive msecs Hg Hm))
    as (m2 & e2 & -> & _).
  reflexivity.
Qed.

(** Otherwise it is a normal double. *)
Lemma dlrate_normal (bytes msecs : Z) :
  0 < wtimer_granularity <= LONG_MAX ->
  0 < bytes <= LONG_MAX -> 0 <= msecs <= LONG_MAX ->
  exists mag, normal_with mag (dlrate bytes msecs) /\ -60 <= mag <= 80.
Proof.
  intros Hg Hb Hm. unfold dlrate.
  pose proof (effective_msecs_positive msecs Hg Hm) as Hms.
  destruct (double_of_Z_normal 1000 ltac:(unfold LONG_MAX; lia))
    as (m1 & N1 & B1).
  destruct (double_of_Z_normal bytes Hb) as (m2 & N2 & B2).
  destruct (double_of_Z_normal _ Hms) as (m3 & N3 & B3).
  pose proof (Zdigits2_long bytes Hb). pose proof (Zdigits2_long _ Hms).
  change (Zdigits2 1000) with 10 in B1.
  destruct (dmul_normal m1 m2 _ _ N1 N2 ltac:(lia)) as (mp & Np & Bp).
  destruct (ddiv_normal_with mp m3 _ _ Np N3 ltac:(lia)) as (mq & Nq & Bq).
  exists mq. split; [exact Nq|lia].
Qed.

(** When the product [1000 * bytes] and the divisor have at most 53 bits,
    the rate is the correctly rounded quotient, and it is below [2^k]
    exactly when the true quotient is. *)
Lemma dlrate_below_pow2 (bytes msecs k : Z) :
  0 < wtimer_granularity <= LONG_MAX ->
  0 <= bytes -> 0 <= msecs <= LONG_MAX ->
  1000 * bytes < 2 ^ 53 -> effective_msecs msecs < 2 ^ 53 -> 0 <= k ->
  dlt (dlrate bytes msecs) (dpow2 k) = true
  <-> 1000 * bytes < 2 ^ k * effective_msecs msecs.
Proof.
  intros Hg Hb Hm Ha Hms53 Hk.
  pose proof (effective_msecs_positive msecs Hg Hm) as Hms.
  assert (Pk : 0 < 2 ^ k) by (apply Z.pow_pos_nonneg; lia).
  destruct (Z.eq_dec bytes 0) as [->|Hne].
  - rewrite dlrate_zero by assumption. split; [intros _|reflexivity].
    change (1000 * 0) with 0. apply Z.mul_pos_pos; lia.
  - unfold dlrate. rewrite dmul_double_of_Z by lia.
    set (a := 1000 * bytes) in *. set (b := effective_msecs msecs) in *.
    destruct (double_of_Z_exact a ltac:(lia)) as (ma & -> & Hma & Hda).
    destruct (double_of_Z_exact b ltac:(lia)) as (mb & -> & Hmb & Hdb).
    pose proof (proj2 (Zdigits2_bound a 53 ltac:(lia) ltac:(lia)) Ha) as Da53.
    pose proof (proj2 (Zdigits2_bound b 53 ltac:(lia) ltac:(lia)) Hms53) as Db53.
    pose proof (Zdigits2_positive a ltac:(lia)) as Da1.
    pose proof (Zdigits2_positive b ltac:(lia)) as Db1.
    destruct (ddiv_normal ma mb (Zdigits2 a - 53) (Zdigits2 b - 53) Hda Hdb
                ltac:(lia)) as (m & e & -> & Hd & Hmag).
    rewrite dlt_dpow2 by exact Hd.
    rewrite (mantissa_order a b (Zdigits2 a) (Zdigits2 b) k ma mb)
      by (assumption || lia).
    destruct Hmag as [He|[He Hodd]]; [lia|].
    exfalso. subst a. rewrite Hma in Hodd.
    change (2 ^ 53) with 9007199254740992 in Hodd.
    rewrite <- Z.mul_assoc in Hodd. lia.
Qed.

(** A rate that is a whole number of bytes per second is that number. *)
Lemma dlrate_whole (bytes msecs n : Z) :
  0 < wtimer_granularity <= LONG_MAX ->
  0 <= bytes -> 0 <= msecs <= LONG_MAX ->
  1000 * bytes < 2 ^ 53 -> 1000 * bytes = n * effective_msecs msecs ->
  dlrate bytes msecs = double_of_Z n.
Proof.
  intros Hg Hb Hm Ha Hn.
  pose proof (effective_msecs_positive msecs Hg Hm) as Hms.
  destruct (Z.eq_dec bytes 0) as [->|Hne].
  - rewrite dlrate_zero by assumption.
    assert (n = 0) by nia. subst n. reflexivity.
  - assert (0 < n) by nia.
    unfold dlrate. rewrite dmul_double_of_Z by lia. rewrite Hn.
    apply ddiv_double_of_Z; lia.
Qed.


(** *** The text fits [res] *)

Lemma sprintf_res_fits (pad : bool) (v : double) (u : string) :
  (String.length (sprintf_f2 pad v) <= 7)%nat -> (String.length u <= 5)%nat ->
  sprintf_res (sprintf_f2 pad v +:+ u) = Some (sprintf_f2 pad v +:+ u).
Proof.
  intros Hv Hu. unfold sprintf_res, res_size. rewrite string_length_app.
  destruct (Nat.ltb_spec (String.length (sprintf_f2 pad v) + String.length u) 15);
    [reflexivity|lia].
Qed.

Lemma normal_below_dpow2 (mag k : Z) (x : double) :
  normal_with mag x -> (dlt x (dpow2 k) = true <-> mag <= k).
Proof.
  intros Hx. destruct x as [| | |[] m e]; try contradiction.
  destruct Hx as [Hd <-]. now apply dlt_dpow2.
Qed.

(** A quotient by [2^k] of a double below [2^(k+10)] is printed with at
    most seven characters. *)
Lemma quotient_fits (pad : bool) (r : double) (mr k : Z) (u : string) :
  normal_with mr r -> -60 <= mr -> dlt r (dpow2 (k + 10)) = true ->
  0 <= k <= 30 -> (String.length u <= 5)%nat ->
  sprintf_res (sprintf_f2 pad (ddiv r (dpow2 k)) +:+ u)
  = Some (sprintf_f2 pad (ddiv r (dpow2 k)) +:+ u).
Proof.
  intros Nr Hlo Hlt Hk Hu.
  apply (normal_below_dpow2 mr (k + 10) r Nr) in Hlt.
  destruct (ddiv_normal_with mr (k + 1) r (dpow2 k) Nr (normal_with_dpow2 k)
              ltac:(lia)) as (mq & Nq & Bq).
  apply sprintf_res_fits; [|exact Hu].
  apply (sprintf_f2_length pad _ mq Nq). lia.
Qed.

Lemma rate_run (bytes msecs : Z) (pad : bool) :
  0 <= bytes -> 0 <= msecs ->
  rate bytes msecs pad =
  let r := dlrate bytes msecs in
  if dlt r d1024 then sprintf_res (sprintf_f2 pad r +:+ " B/s")
  else if dlt r d1024_2
       then sprintf_res (sprintf_f2 pad (ddiv r d1024) +:+ " K/s")
       else if dlt r d1024_3
            then sprintf_res (sprintf_f2 pad (ddiv r d1024_2) +:+ " M/s")
            else sprintf_res (sprintf_f2 pad (ddiv r d1024_3) +:+ " GB/s").
Proof.
  intros Hb Hm. unfold rate. destruct (Z.leb_spec 0 msecs); [|lia].
  destruct (Z.leb_spec 0 bytes); [|lia]. reflexivity.
Qed.

(** The four branches of [rate].  The text fits [res] in bytes, kilobytes
    and megabytes, and in gigabytes when the rate is below [2^40] bytes per
    second. *)
Lemma rate_units (bytes msecs : Z) (pad : bool) :
  0 < wtimer_granularity <= LONG_MAX ->
  0 <= bytes <= LONG_MAX -> 0 <= msecs <= LONG_MAX ->
  let r := dlrate bytes msecs in
  (dlt r d1024 = true ->
   rate bytes msecs pad = Some (sprintf_f2 pad r +:+ " B/s")) /\
  (dlt r d1024 = false -> dlt r d1024_2 = true ->
   rate bytes msecs pad = Some (sprintf_f2 pad (ddiv r d1024) +:+ " K/s")) /\
  (dlt r d1024 = false -> dlt r d1024_2 = false -> dlt r d1024_3 = true ->
   rate bytes msecs pad = Some (sprintf_f2 pad (ddiv r d1024_2) +:+ " M/s")) /\
  (dlt r d1024 = false -> dlt r d1024_2 = false -> dlt r d1024_3 = false ->
   rate bytes msecs pad
   = sprintf_res (sprintf_f2 pad (ddiv r d1024_3) +:+ " GB/s") /\
   (dlt r (dpow2 40) = true ->
    rate bytes msecs pad
    = Some (sprintf_f2 pad (ddiv r d1024_3) +:+ " GB/s"))).
Proof.
  intros Hg Hb Hm r. rewrite rate_run by lia. cbv zeta. fold r.
  destruct (Z.eq_dec bytes 0) as [Hz|Hne].
  - assert (Hr : r = S754_zero false)
      by (unfold r; rewrite Hz; now apply dlrate_zero).
    rewrite Hr. repeat split; try discriminate.
    intros _. destruct pad; reflexivity.
  - destruct (dlrate_normal bytes msecs Hg ltac:(lia) Hm) as (mr & Nr & Br).
    fold r in Nr.
    destruct dpow2_thresholds as (-> & -> & ->).
    split; [|split; [|split]].
    + intros H1. rewrite H1.
      apply sprintf_res_fits; [|cbn; lia].
      apply (sprintf_f2_length pad r mr Nr).
      apply (normal_below_dpow2 mr 10 r Nr) in H1. lia.
    + intros H1 H2. rewrite H1, H2.
      apply (quotient_fits pad r mr 10); try assumption; try lia. cbn; lia.
    + intros H1 H2 H3. rewrite H1, H2, H3.
      apply (quotient_fits pad r mr 20); try assumption; try lia. cbn; lia.
    + intros H1 H2 H3. rewrite H1, H2, H3. split; [reflexivity|].
      intros H4.
      apply (quotient_fits pad r mr 30); try assumption; try lia. cbn; lia.
Qed.

(** C9.  For [bytes] and [msecs] that are not negative, [rate] divides by
    the timer granularity when [msecs] is 0 and by [msecs] otherwise, so
    that the divisor is a non-zero finite double and the rate and the
    printed number are finite.  The unit is bytes below 1024, kilobytes
    from there below 1024^2, megabytes from there below 1024^3 and
    gigabytes above, these bounds being compared with the computed double;
    the text fits [res] in bytes, kilobytes and megabytes, and in gigabytes
    when the rate is below 2^40.  When [1000 * bytes] and the divisor have
    at most 53 bits, the same bounds hold of the quotient
    [1000 * bytes / msecs] itself, a rate that is a whole number [n] of
    bytes per second is the double [n], printed as [n.00 B/s] below 1024,
    and one of [k * 1024] bytes per second is printed as [k.00 K/s].
    [rate (500, 1000, 0)] is [500.00 B/s], [rate (2048, 1000, 0)] is
    [2.00 K/s], [rate (1024, 2000, 0)] is [512.00 B/s], [rate (1, 3, 0)]
    is [333.33 B/s] and [rate (0, 0, 0)] is [0.00 B/s]. *)
Theorem rate_spec (bytes msecs : Z) (pad : bool) :
  0 < wtimer_granularity <= LONG_MAX ->
  0 <= bytes <= LONG_MAX -> 0 <= msecs <= LONG_MAX ->
  let r := dlrate bytes msecs in
  let ms := effective_msecs msecs in
  (effective_msecs 0 = wtimer_granularity /\ (msecs <> 0 -> ms = msecs) /\
   rate bytes 0 pad = rate bytes wtimer_granularity pad /\
   exists m e, double_of_Z ms = S754_finite false m e) /\
  (is_finite r = true /\
   exists v u, rate bytes msecs pad = sprintf_res (sprintf_f2 pad v +:+ u) /\
               is_finite v = true) /\
  (d1024 = double_of_Z 1024 /\ d1024_2 = double_of_Z (1024 ^ 2) /\
   d1024_3 = double_of_Z (1024 ^ 3)) /\
  ((dlt r d1024 = true ->
    rate bytes msecs pad = Some (sprintf_f2 pad r +:+ " B/s")) /\
   (dle d1024 r = true -> dlt r d1024_2 = true ->
    rate bytes msecs pad = Some (sprintf_f2 pad (ddiv r d1024) +:+ " K/s")) /\
   (dle d1024_2 r = true -> dlt r d1024_3 = true ->
    rate bytes msecs pad = Some (sprintf_f2 pad (ddiv r d1024_2) +:+ " M/s")) /\
   (dle d1024_3 r = true ->
    rate bytes msecs pad
    = sprintf_res (sprintf_f2 pad (ddiv r d1024_3) +:+ " GB/s") /\
    (dlt r (dpow2 40) = true ->
     rate bytes msecs pad
     = Some (sprintf_f2 pad (ddiv r d1024_3) +:+ " GB/s")))) /\
  (1000 * bytes < 2 ^ 53 -> ms < 2 ^ 53 ->
   (1000 * bytes < 1024 * ms ->
    rate bytes msecs pad = Some (sprintf_f2 pad r +:+ " B/s")) /\
   (1024 * ms <= 1000 * bytes < 1024 ^ 2 * ms ->
    rate bytes msecs pad = Some (sprintf_f2 pad (ddiv r d1024) +:+ " K/s")) /\
   (1024 ^ 2 * ms <= 1000 * bytes < 1024 ^ 3 * ms ->
    rate bytes msecs pad = Some (sprintf_f2 pad (ddiv r d1024_2) +:+ " M/s")) /\
   (1024 ^ 3 * ms <= 1000 * bytes < 2 ^ 40 * ms ->
    rate bytes msecs pad
    = Some (sprintf_f2 pad (ddiv r d1024_3) +:+ " GB/s")) /\
   (forall n, 1000 * bytes = n * ms ->
      r = double_of_Z n /\
      (n < 1024 ->
       rate bytes msecs false = Some (decimal n +:+ ".00 B/s")) /\
      (forall k, n = k * 1024 -> 1 <= k < 1024 ->
       rate bytes msecs false = Some (decimal k +:+ ".00 K/s")))) /\
  (rate 500 1000 false = Some "500.00 B/s" /\
   rate 2048 1000 false = Some "2.00 K/s" /\
   rate 1024 2000 false = Some "512.00 B/s" /\
   rate 1 3 false = Some "333.33 B/s" /\
   rate 0 0 false = Some "0.00 B/s").
Proof.
  intros Hg Hb Hm r ms.
  pose proof (dlrate_finite bytes msecs Hg Hb Hm) as Hr. fold r in Hr.
  pose proof (is_finite_within _ _ _ _ Hr) as Hfin.
  pose proof (effective_msecs_positive msecs Hg Hm) as Hms. fold ms in Hms.
  pose proof (rate_run bytes msecs pad ltac:(lia) ltac:(lia)) as Hrun.
  cbv zeta in Hrun. fold r in Hrun.
  destruct (rate_units bytes msecs pad Hg Hb Hm) as (U1 & U2 & U3 & U4).
  fold r in U1, U2, U3, U4.
  assert (Hk : forall d m e, d = S754_finite false m e ->
                 Zpos (digits2_pos m) <= 53 -> -52 <= e <= 11 ->
                 is_finite (ddiv r d) = true).
  { intros d m e -> Hd He.
    eapply is_finite_within, (ddiv_bounds r m e (-220) 129); try eassumption;
      lia. }
  assert (H1 : is_finite (ddiv r d1024) = true)
    by (eapply Hk; [reflexivity | vm_compute; discriminate
                   | vm_compute; split; discriminate]).
  assert (H2 : is_finite (ddiv r d1024_2) = true)
    by (eapply Hk; [reflexivity | vm_compute; discriminate
                   | vm_compute; split; discriminate]).
  assert (H3 : is_finite (ddiv r d1024_3) = true)
    by (eapply Hk; [reflexivity | vm_compute; discriminate
                   | vm_compute; split; discriminate]).
  destruct (dle_thresholds r) as [T2 T3].
  pose proof (dlt_false_dle r d1024 Hfin eq_refl) as L1.
  pose proof (dlt_false_dle r d1024_2 Hfin eq_refl) as L2.
  pose proof (dlt_false_dle r d1024_3 Hfin eq_refl) as L3.
  split; [|split; [|split; [|split; [|split]]]].
  - split; [reflexivity|]. split; [|split].
    + intros Hne. unfold ms, effective_msecs.
      destruct (Z.eqb_spec msecs 0); [contradiction|reflexivity].
    + unfold rate, dlrate, effective_msecs.
      destruct (Z.eqb_spec wtimer_granularity 0); [lia|].
      destruct (Z.leb_spec 0 wtimer_granularity); [|lia]. reflexivity.
    + destruct (double_of_Z_positive _ Hms) as (m & e & He & _). eauto.
  - split; [exact Hfin|]. rewrite Hrun.
    destruct (dlt r d1024); [eauto|].
    destruct (dlt r d1024_2); [eauto|].
    destruct (dlt r d1024_3); eauto.
  - repeat split.
  - split; [exact U1|]. split; [|split].
    + intros Hle Hlt. apply L1 in Hle. now apply U2.
    + intros Hle Hlt. pose proof (T2 Hle) as Hle1.
      apply L1 in Hle1. apply L2 in Hle. now apply U3.
    + intros Hle. pose proof (T3 Hle) as Hle2. pose proof (T2 Hle2) as Hle1.
      apply L1 in Hle1. apply L2 in Hle2. apply L3 in Hle. now apply U4.
  - intros Ha Hms53.
    assert (B : forall k, 0 <= k ->
                  dlt r (dpow2 k) = true <-> 1000 * bytes < 2 ^ k * ms).
    { intros k Hk0. apply dlrate_below_pow2; assumption || lia. }
    assert (B' : forall k, 0 <= k ->
                   dlt r (dpow2 k) = false <-> 2 ^ k * ms <= 1000 * bytes).
    { intros k Hk0. specialize (B k Hk0).
      destruct (dlt r (dpow2 k)).
      - split; [discriminate|]. intros Hc. exfalso.
        assert (1000 * bytes < 2 ^ k * ms) by now apply B. lia.
      - split; [intros _|reflexivity].
        destruct (Z.lt_ge_cases (1000 * bytes) (2 ^ k * ms)) as [Hc|Hc];
          [|exact Hc]. apply B in Hc. discriminate. }
    destruct dpow2_thresholds as (E1 & E2 & E3).
    pose proof (B 10 ltac:(lia)) as B10. pose proof (B' 10 ltac:(lia)) as N10.
    pose proof (B 20 ltac:(lia)) as B20. pose proof (B' 20 ltac:(lia)) as N20.
    pose proof (B 30 ltac:(lia)) as B30. pose proof (B' 30 ltac:(lia)) as N30.
    pose proof (B 40 ltac:(lia)) as B40.
    rewrite <- E1 in B10, N10. rewrite <- E2 in B20, N20.
    rewrite <- E3 in B30, N30.
    change (2 ^ 10) with 1024 in *. change (2 ^ 20) with (1024 ^ 2) in *.
    change (2 ^ 30) with (1024 ^ 3) in *.
    assert (O1 : 1024 * ms <= 1024 ^ 2 * ms) by lia.
    assert (O2 : 1024 ^ 2 * ms <= 1024 ^ 3 * ms) by lia.
    split; [|split; [|split; [|split]]].
    + intros Hlt. apply U1, B10, Hlt.
    + intros [Hge Hlt]. apply U2; [apply N10, Hge|apply B20, Hlt].
    + intros [Hge Hlt].
      apply U3; [apply N10; lia|apply N20, Hge|apply B30, Hlt].
    + intros [Hge Hlt].
      apply U4; [apply N10; lia|apply N20; lia|apply N30, Hge|apply B40, Hlt].
    + intros n Hn.
      assert (Hrn : r = double_of_Z n)
        by (apply dlrate_whole; assumption || lia).
      assert (Hn0 : 0 <= n) by nia.
      assert (Hn53 : n < 2 ^ 53) by nia.
      destruct (rate_units bytes msecs false Hg Hb Hm) as (V1 & V2 & _).
      fold r in V1, V2.
      split; [exact Hrn|]. split.
      * intros Hlt. rewrite V1 by (apply B10; nia).
        rewrite Hrn, sprintf_f2_whole by lia.
        now rewrite string_app_assoc.
      * intros k -> Hk1. rewrite V2 by ((apply N10; nia) || (apply B20; nia)).
        rewrite Hrn. change d1024 with (double_of_Z 1024).
        rewrite ddiv_double_of_Z by lia.
        rewrite sprintf_f2_whole by lia.
        now rewrite string_app_assoc.
  - do 4 (split; [vm_compute; reflexivity|]).
    rewrite rate_run by lia. cbv zeta.
    rewrite dlrate_zero by (assumption || (unfold LONG_MAX; lia)).
    reflexivity.
Qed.

End Rate.

Lemma rate_spec_witness :
  @rate build64 500 1000 false = Some "500.00 B/s" /\
  @rate build64 2048 1000 false = Some "2.00 K/s" /\
  @rate build64 1024 2000 false = Some "512.00 B/s" /\
  @rate build64 1 3 false = Some "333.33 B/s" /\
  @rate build64 0 0 false = Some "0.00 B/s" /\
  @rate build_time 2048 0 false = Some "2.00 K/s" /\
  @rate build_time 2048 0 false = @rate build_time 2048 1000 false /\
  is_finite (@dlrate build64 123456789 0) = true /\
  @dlrate build_time 1536 0 = double_of_Z 1536 /\
  @rate build_time 1536 0 false = Some "1.50 K/s".
Proof.
  destruct (@rate_spec build64 123456789 0 false)
    as (_ & (Hfin & _) & _ & _ & _ & Hex);
    [vm_compute; split; [reflexivity | discriminate]
    |vm_compute; split; discriminate | vm_compute; split; discriminate|].
  destruct (@rate_spec build_time 2048 0 false)
    as ((_ & _ & Hg & _) & _ & _ & _ & Hx & _);
    [vm_compute; split; [reflexivity | discriminate]
    |vm_compute; split; discriminate | vm_compute; split; discriminate|].
  destruct (Hx ltac:(vm_compute; reflexivity) ltac:(vm_compute; reflexivity))
    as (_ & _ & _ & _ & Hw).
  destruct (Hw 2048 ltac:(vm_compute; reflexivity)) as (_ & _ & Hk).
  specialize (Hk 2 eq_refl ltac:(lia)).
  destruct (@rate_spec build_time 1536 0 false)
    as (_ & _ & _ & _ & Hy & _);
    [vm_compute; split; [reflexivity | discriminate]
    |vm_compute; split; discriminate | vm_compute; split; discriminate|].
  destruct (Hy ltac:(vm_compute; reflexivity) ltac:(vm_compute; reflexivity))
    as (_ & Hks & _ & _ & Hw2).
  destruct (Hw2 1536 ltac:(vm_compute; reflexivity)) as (Hd & _).
  destruct Hex as (E1 & E2 & E3 & E4 & E5).
  split; [exact E1|]. split; [exact E2|]. split; [exact E3|].
  split; [exact E4|]. split; [exact E5|]. split; [exact Hk|].
  split; [exact Hg|]. split; [exact Hfin|]. split; [exact Hd|].
  rewrite (Hks ltac:(vm_compute; split; [discriminate|reflexivity])).
  vm_compute. reflexivity.
Defined.

(** * Further properties *)

(** ** Accounting over a run of calls *)

Section AccountingRuns.
Context `{P : Platform}.

Lemma downloaded_increase_quota (b : Z) (o : options) :
  opt_quota (downloaded_increase b o) = opt_quota o.
Proof.
  unfold downloaded_increase. destruct (opt_downloaded_overflow o); [reflexivity|].
  cbn. destruct (_ <? _); reflexivity.
Qed.

(** X1.  Starting without overflow, a run of increments leaves exactly the
    sum in the counter, with the flag clear, when the sum fits the type of
    the counter; when it does not fit, the flag is set and the counter
    holds the largest value.  So the flag is set exactly when the sum of
    the bytes does not fit. *)
Theorem increase_all_exact (bs : list Z) (o : options) :
  0 <= VERY_LONG_BITS -> vl_range (opt_downloaded o) ->
  opt_downloaded_overflow o = false ->
  Forall (fun b => 0 <= b < vl_modulus) bs ->
  (opt_downloaded o + sum_list bs < vl_modulus ->
   increase_all bs o
   = set_downloaded (opt_downloaded o + sum_list bs) false o) /\
  (vl_modulus <= opt_downloaded o + sum_list bs ->
   opt_downloaded_overflow (increase_all bs o) = true /\
   opt_downloaded (increase_all bs o) = VERY_LONG_MAX).
Proof.
  intros Hb Hd Hovf Hbs. revert o Hd Hovf.
  induction Hbs as [|b bs Hbr Hbs IH]; intros o Hd Hovf.
  - cbn. rewrite Z.add_0_r. split.
    + intros _. destruct o. cbn in *. now subst.
    + unfold vl_range in Hd. lia.
  - change (increase_all (b :: bs) o)
      with (increase_all bs (downloaded_increase b o)).
    change (sum_list (b :: bs)) with (b + sum_list bs).
    assert (Hsum : 0 <= sum_list bs).
    { clear -Hbs. induction Hbs; cbn; [lia|]. unfold sum_list in *. cbn. lia. }
    destruct (Z.lt_ge_cases (opt_downloaded o + b) vl_modulus) as [Hfit|Hc].
    + rewrite downloaded_increase_fits by (try assumption; lia).
      destruct (IH (set_downloaded (opt_downloaded o + b) false o))
        as [IHfit IHc]; [cbn; unfold vl_range in *; lia | reflexivity|].
      cbn [set_downloaded opt_downloaded] in IHfit, IHc. split.
      * intros Hall. rewrite IHfit by lia. unfold set_downloaded. cbn.
        f_equal. lia.
      * intros Hall. apply IHc. lia.
    + destruct (downloaded_increase_carry o b Hb Hd Hbr Hovf Hc)
        as (_ & Hmax & Hl).
      split; [lia|]. intros _.
      rewrite increase_all_latched by assumption. auto.
Qed.

(** X2.  [downloaded_increase] never changes the quota, and once the
    overflow flag is set [downloaded_exceeds_quota] answers 0 after any
    further increments: an overflowed counter never stops a download. *)
Theorem overflow_disables_quota (bs : list Z) (o : options) :
  opt_quota (increase_all bs o) = opt_quota o /\
  (opt_downloaded_overflow o = true ->
   downloaded_exceeds_quota (increase_all bs o) = false).
Proof.
  split.
  - revert o. induction bs as [|b bs IH]; intros o; [reflexivity|].
    change (increase_all (b :: bs) o)
      with (increase_all bs (downloaded_increase b o)).
    now rewrite IH, downloaded_increase_quota.
  - intros Hovf. rewrite increase_all_latched by assumption.
    unfold downloaded_exceeds_quota. rewrite Hovf.
    now destruct (opt_quota o =? 0).
Qed.

End AccountingRuns.

Lemma increase_all_exact_witness :
  @increase_all build64 [100; 200; 300] plain_options
  = set_downloaded 600 false plain_options.
Proof.
  apply (@increase_all_exact build64 [100; 200; 300] plain_options).
  - vm_compute. discriminate.
  - vm_compute. split; [discriminate | reflexivity].
  - reflexivity.
  - repeat constructor; vm_compute; congruence.
  - vm_compute. reflexivity.
Defined.

Lemma overflow_disables_quota_witness :
  @downloaded_exceeds_quota build64
    (@increase_all build64 [5; 7]
       (set_quota 10 (set_downloaded 50 true plain_options))) = false.
Proof.
  apply (@overflow_disables_quota build64 [5; 7]
           (set_quota 10 (set_downloaded 50 true plain_options))).
  reflexivity.
Defined.

(** ** Delays over a run of retrievals *)

(** X3.  With waits that are not negative and in the range of
    [unsigned int], a call of [sleep_between_retrievals] sleeps at most
    once, and then for at least one second and at most the larger of
    [opt.wait] and [opt.waitretry]. *)
Theorem sleep_between_retrievals_bounded (o : options) (count : Z)
  (b : backoff) :
  0 <= opt_wait o <= UINT_MAX -> 0 <= opt_waitretry o <= UINT_MAX ->
  slept (sleep_between_retrievals o count b) = slept b \/
  exists secs,
    slept (sleep_between_retrievals o count b) = slept b ++ [secs] /\
    1 <= secs <= Z.max (opt_wait o) (opt_waitretry o).
Proof.
  intros Hw Hr. destruct (first_retrieval b) eqn:Hf.
  - left. now rewrite sleep_between_retrievals_first.
  - rewrite sleep_between_retrievals_later by assumption.
    destruct (Z.eqb_spec (opt_waitretry o) 0) as [Hr0|Hr0];
      destruct (Z.ltb_spec 1 count) as [Hc|Hc]; cbn [negb andb sleep slept];
      try (right; eexists; split; [reflexivity|];
           rewrite to_unsigned_int_small by lia; lia);
      destruct (Z.eqb_spec (opt_wait o) 0) as [Hw0|Hw0]; cbn [negb sleep slept];
      try (left; reflexivity);
      right; eexists; (split; [reflexivity|]);
      rewrite to_unsigned_int_small by lia; lia.
Qed.

Lemma retrievals_snoc (o : options) (counts : list Z) (count : Z) (b : backoff) :
  retrievals o (counts ++ [count]) b
  = sleep_between_retrievals o count (retrievals o counts b).
Proof. unfold retrievals. now rewrite foldl_app. Qed.

Lemma sleep_between_retrievals_clears (o : options) (count : Z) (b : backoff) :
  first_retrieval (sleep_between_retrievals o count b) = false.
Proof.
  destruct (first_retrieval b) eqn:Hf.
  - now rewrite sleep_between_retrievals_first.
  - rewrite sleep_between_retrievals_later by assumption.
    repeat match goal with |- context [if ?c then _ else _] => destruct c end;
      exact Hf.
Qed.

(** X4.  From the start of the process, with [opt.wait] set, a run of
    retrievals sleeps exactly once before each retrieval but the first;
    and after any call the first-retrieval flag stays cleared. *)
Theorem retrievals_sleep_count (o : options) (counts : list Z) :
  opt_wait o <> 0 ->
  length (slept (retrievals o counts backoff_init)) = pred (length counts) /\
  (counts <> [] -> first_retrieval (retrievals o counts backoff_init) = false).
Proof.
  intros Hw. induction counts as [|count counts IH] using rev_ind.
  - split; [reflexivity | congruence].
  - rewrite retrievals_snoc, length_app. cbn [length].
    destruct IH as [IHlen IHflag]. split; [|intros _; apply sleep_between_retrievals_clears].
    destruct counts as [|c0 counts'] using rev_ind.
    + reflexivity.
    + clear IHcounts'. specialize (IHflag ltac:(now destruct counts')).
      rewrite sleep_between_retrievals_later by assumption.
      rewrite length_app in *. cbn [length] in *.
      destruct (Z.eqb_spec (opt_wait o) 0); [contradiction|].
      destruct (negb (opt_waitretry o =? 0) && (1 <? count));
        cbn [negb sleep slept]; rewrite length_app; cbn [length]; lia.
Qed.

Lemma sleep_between_retrievals_bounded_witness :
  exists secs,
    slept (sleep_between_retrievals
             (set_quota 0 {| opt_verbose := false; opt_use_proxy := false;
                opt_no_proxy := []; opt_referer := None;
                opt_recursive := false; opt_delete_after := false;
                opt_quota := 0; opt_downloaded := 0;
                opt_downloaded_overflow := false;
                opt_wait := 2; opt_waitretry := 10 |}) 4
             (clear_first backoff_init)) = [secs] /\
    1 <= secs <= 10.
Proof.
  destruct (sleep_between_retrievals_bounded
              (set_quota 0 {| opt_verbose := false; opt_use_proxy := false;
                 opt_no_proxy := []; opt_referer := None;
                 opt_recursive := false; opt_delete_after := false;
                 opt_quota := 0; opt_downloaded := 0;
                 opt_downloaded_overflow := false;
                 opt_wait := 2; opt_waitretry := 10 |}) 4
              (clear_first backoff_init)) as [Hnone|(secs & Hs & Hb)].
  - vm_compute. split; discriminate.
  - vm_compute. split; discriminate.
  - vm_compute in Hnone. discriminate.
  - exists secs. split; [exact Hs | exact Hb].
Defined.

Lemma retrievals_sleep_count_witness :
  length (slept (retrievals
                   {| opt_verbose := false; opt_use_proxy := false;
                      opt_no_proxy := []; opt_referer := None;
                      opt_recursive := false; opt_delete_after := false;
                      opt_quota := 0; opt_downloaded := 0;
                      opt_downloaded_overflow := false;
                      opt_wait := 2; opt_waitretry := 0 |}
                   [1; 1; 2; 1] backoff_init)) = 3%nat.
Proof.
  apply (retrievals_sleep_count
           {| opt_verbose := false; opt_use_proxy := false;
              opt_no_proxy := []; opt_referer := None;
              opt_recursive := false; opt_delete_after := false;
              opt_quota := 0; opt_downloaded := 0;
              opt_downloaded_overflow := false;
              opt_wait := 2; opt_waitretry := 0 |} [1; 1; 2; 1]).
  discriminate.
Defined.

(** ** Notices *)

(** X5.  Over the attempts [1 .. limit] of a retrieval, [printwhat]
    announces a retry before every attempt but the last and gives up
    exactly at the last one. *)
Theorem printwhat_gives_up_last (limit : nat) :
  notices (S limit) (Z.of_nat (S limit))
  = replicate limit Retrying ++ [GivingUp].
Proof.
  unfold notices. rewrite seq_S, map_app. cbn [map Nat.add].
  f_equal.
  - assert (H : forall k, (k <= limit)%nat ->
                 map (fun i => printwhat (Z.of_nat (S i)) (Z.of_nat (S limit)))
                     (seq 0 k) = replicate k Retrying).
    { induction k as [|k IH]; intros Hk; [reflexivity|].
      rewrite seq_S, map_app, IH by lia. cbn [map Nat.add].
      unfold printwhat. destruct (Z.eqb_spec (Z.of_nat (S k)) (Z.of_nat (S limit)));
        [lia|]. now rewrite replicate_S_end. }
    apply H. lia.
  - unfold printwhat. now rewrite Z.eqb_refl.
Qed.

Section GetContentsAccounting.
Context {F : Type} `{SF : Stdio F} `{P : Platform}.

Lemma get_contents_accounting (o : options) (fd : Z) (conn : connection)
  (fp : F) (restval expected : Z) (rbufp : option rbuf) (use_expected : bool) :
  let r := get_contents o fd conn fp restval expected rbufp use_expected in
  restval <= gc_len r /\
  (opt_verbose o = true -> gc_len r = restval + progress_total (gc_log r)) /\
  (gc_code r <> -2 ->
   read_ahead fd (gc_rbuf r) = 0 /\
   restval + read_ahead fd rbufp <= gc_len r) /\
  Forall (read_sized use_expected expected restval) (gc_log r) /\
  (0 < gc_code r ->
   use_expected = true /\ expected <= gc_len r /\
   exists s a, EvRead s a (gc_code r) ∈ gc_log r) /\
  (use_expected = true -> Forall read_honest (gc_log r) ->
   gc_len r <= Z.max (restval + read_ahead fd rbufp) expected).
Proof.
  intros r. subst r. unfold get_contents.
  set (t1 := emit_if (opt_verbose o) (EvProgressCreate restval expected)
                     (Transfer 0 restval fp [])).
  assert (Ht1 : t_res t1 = 0 /\ t_len t1 = restval /\
                progress_total (t_log t1) = 0 /\
                Forall (read_sized use_expected expected restval) (t_log t1)).
  { subst t1. destruct (opt_verbose o); cbn; repeat split; auto.
    apply Forall_singleton. intros s a x [=]. }
  destruct Ht1 as (Hres1 & Hlen1 & Hprog1 & Hsz1).
  pose proof (flush_phase_len (opt_verbose o) fd rbufp t1) as Hflush.
  destruct (flush_phase_log (opt_verbose o) fd rbufp t1)
    as (new1 & Hlog2 & Hshape1 & _ & Hfl1).
  cbv zeta in Hflush.
  destruct (flush_phase (opt_verbose o) fd rbufp t1) as [fl1 rb1].
  cbn [fst snd] in *. destruct Hflush as (Hlen2 & Hprog2 & Hrun2).
  assert (Hsz2 : Forall (read_sized use_expected expected restval)
                        (t_log (flow_state fl1))).
  { rewrite Hlog2. apply Forall_app; split; [exact Hsz1|].
    eapply Forall_impl; [exact Hshape1|].
    intros ev [Hnr _] s a x ->. cbn in Hnr. tauto. }
  destruct fl1 as [code t2|t2]; cbn [flow_state] in *.
  - destruct Hfl1 as [-> _]. cbn [gc_return gc_code gc_len gc_log gc_rbuf].
    split; [lia|]. split; [intros Hv; specialize (Hprog2 Hv); lia|].
    split; [intros Hc; contradiction|]. split; [exact Hsz2|].
    split; [lia|]. intros _ _. lia.
  - destruct Hfl1 as [_ Hres2]. specialize (Hres2 Hres1).
    destruct Hrun2 as [Hempty Hlen2'].
    pose proof (main_loop_len (opt_verbose o) (reads_secure rbufp) use_expected
                  expected restval (conn_at_end conn) (conn_reads conn) t2
                  ltac:(lia)) as Hmain.
    cbv zeta in Hmain.
    destruct (main_loop_log (opt_verbose o) (reads_secure rbufp) use_expected
                expected (conn_at_end conn) (conn_reads conn) t2)
      as (new2 & _ & _ & _ & Hret).
    destruct (main_loop _ _ use_expected expected _ _ t2) as [fl2 rest].
    cbn [fst] in Hmain, Hret.
    destruct Hmain as (M1 & M2 & M3 & M4 & M5 & M6).
    destruct fl2 as [code t3|t3]; cbn [flow_state] in *.
    + destruct Hret as [-> _].
      cbn [gc_return gc_code gc_len gc_log gc_rbuf].
      split; [lia|]. split; [intros Hv; specialize (Hprog2 Hv);
                              specialize (M3 Hv); lia|].
      split; [intros Hc; contradiction|]. split; [auto|].
      split; [lia|]. intros Hue Hhon. specialize (M5 Hue Hhon). lia.
    + destruct M6 as [Hend Hlast].
      set (t4 := if t_res t3 <? -1 then set_res (-1) t3 else t3).
      assert (Ht4 : t_log t4 = t_log t3 /\ t_len t4 = t_len t3 /\
                    t_res t4 = Z.max (t_res t3) (-1)).
      { subst t4. destruct (Z.ltb_spec (t_res t3) (-1)); cbn;
          repeat split; auto; lia. }
      destruct Ht4 as (Hlog4 & Hlen4 & Hres4).
      set (t5 := emit_if (opt_verbose o) EvProgressFinish t4).
      assert (Ht5 : t_log t5 = t_log t4 ++ (if opt_verbose o
                                            then [EvProgressFinish] else [])
                    /\ t_len t5 = t_len t4 /\ t_res t5 = t_res t4).
      { subst t5. destruct (opt_verbose o); cbn; rewrite ?app_nil_r; auto. }
      destruct Ht5 as (Hlog5 & Hlen5 & Hres5).
      cbn [gc_return gc_code gc_len gc_log gc_rbuf].
      rewrite Hlog5, Hlen5, Hres5, Hlog4, Hlen4, Hres4.
      split; [lia|]. split.
      { intros Hv. rewrite Hv, progress_total_app. cbn.
        specialize (Hprog2 Hv). specialize (M3 Hv). lia. }
      split; [intros _; split; [exact Hempty | lia]|]. split.
      { apply Forall_app; split; [auto|].
        destruct (opt_verbose o);
          [apply Forall_singleton; intros s a x [=] | constructor]. }
      split.
      * intros Hpos. assert (Hr3 : Z.max (t_res t3) (-1) = t_res t3) by lia.
        rewrite Hr3. destruct Hend as [Hle|[Hue Hexp]]; [lia|].
        split; [exact Hue|]. split; [exact Hexp|].
        destruct Hlast as [Heq|(s & a & Hin)]; [lia|].
        exists s, a. apply elem_of_app. auto.
      * intros Hue Hhon. apply Forall_app in Hhon as [Hhon _].
        specialize (M5 Hue Hhon). lia.
Qed.



(** X8.  Every read from the connection asks for at least one byte and at
    most 8192, the size of the buffer, and with an expected length for no
    more than the bytes still missing from the restart offset on. *)
Theorem get_contents_read_sizes (o : options) (fd : Z) (conn : connection)
  (fp : F) (restval expected : Z) (rbufp : option rbuf) (use_expected : bool) :
  let r := get_contents o fd conn fp restval expected rbufp use_expected in
  forall s a x, EvRead s a x ∈ gc_log r ->
    0 < a <= 8192 /\ (use_expected = true -> a <= expected - restval).
Proof.
  intros r s a x Hin.
  destruct (get_contents_accounting o fd conn fp restval expected rbufp
              use_expected) as (_ & _ & _ & H4 & _).
  rewrite Forall_forall in H4. exact (H4 _ Hin s a x eq_refl).
Qed.

(** X9.  The result is -2, -1 or 0, or else positive; it is positive only
    when the loop ended because the expected length was reached, and it is
    then what the last read returned. *)
Theorem get_contents_positive_code (o : options) (fd : Z) (conn : connection)
  (fp : F) (restval expected : Z) (rbufp : option rbuf) (use_expected : bool) :
  let r := get_contents o fd conn fp restval expected rbufp use_expected in
  -2 <= gc_code r /\
  (0 < gc_code r ->
   use_expected = true /\ expected <= gc_len r /\
   exists s a, EvRead s a (gc_code r) ∈ gc_log r).
Proof.
  intros r.
  destruct (get_contents_accounting o fd conn fp restval expected rbufp
              use_expected) as (_ & _ & _ & _ & H5 & _).
  split; [|exact H5].
  destruct (get_contents_shape o fd conn fp restval expected rbufp use_expected)
    as (body & _ & _ & _ & Hok & _).
  destruct (Z.eq_dec (gc_code r) (-2)) as [Hc|Hc]; [lia|].
  destruct (Hok Hc) as [Hge _]. subst r. lia.
Qed.

(** X10.  With an expected length, when no read returns more than was
    asked for, [*len] never passes the larger of the expected length and
    the restart offset plus the read-ahead bytes. *)
Theorem get_contents_within_expected (o : options) (fd : Z)
  (conn : connection) (fp : F) (restval expected : Z) (rbufp : option rbuf) :
  let r := get_contents o fd conn fp restval expected rbufp true in
  Forall read_honest (gc_log r) ->
  gc_len r <= Z.max (restval + read_ahead fd rbufp) expected.
Proof.
  intros r Hhon.
  destruct (get_contents_accounting o fd conn fp restval expected rbufp true)
    as (_ & _ & _ & _ & _ & H6).
  exact (H6 eq_refl Hhon).
Qed.

Lemma omap_gauge_app {A} (f : io_event -> option A) (l1 l2 : list io_event) :
  length (omap f (l1 ++ l2)) = (length (omap f l1) + length (omap f l2))%nat.
Proof. now rewrite omap_app, length_app. Qed.

Lemma omap_gauge_none {A} (f : io_event -> option A) (l : list io_event) :
  Forall (fun ev => f ev = None) l -> length (omap f l) = 0%nat.
Proof. induction 1 as [|ev l Hev _ IH]; cbn; [|rewrite Hev]; auto. Qed.

(** X11.  Without verbose output the gauge is never touched.  With it, the
    gauge is created exactly once, and completed exactly once when the
    result is not -2 and not at all when it is. *)
Theorem get_contents_gauge_counts (o : options) (fd : Z) (conn : connection)
  (fp : F) (restval expected : Z) (rbufp : option rbuf) (use_expected : bool) :
  let r := get_contents o fd conn fp restval expected rbufp use_expected in
  gauge_creations (gc_log r) = (if opt_verbose o then 1%nat else 0%nat) /\
  gauge_finishes (gc_log r)
  = (if opt_verbose o && negb (gc_code r =? -2) then 1%nat else 0%nat).
Proof.
  intros r.
  destruct (get_contents_shape o fd conn fp restval expected rbufp use_expected)
    as (body & Hlog & Hgauge & _).
  fold r in Hlog. rewrite Hlog. unfold gauge_creations, gauge_finishes.
  rewrite !omap_gauge_app.
  rewrite !(omap_gauge_none _ body)
    by (eapply Forall_impl; [exact Hgauge|];
        intros [] Hev; cbn in *; first [reflexivity | tauto]).
  destruct (opt_verbose o); cbn [andb]; [|split; reflexivity].
  destruct (negb (gc_code r =? -2)); split; reflexivity.
Qed.

End GetContentsAccounting.



Lemma get_contents_read_sizes_witness :
  0 < 2 <= 8192 /\ (true = true -> 2 <= 12 - 0).
Proof.
  apply (@get_contents_read_sizes disk disk_stdio build64 verbose_options 3
           {| conn_reads := [2]; conn_at_end := Closed |} (empty_disk 100)
           0 12 (Some {| RBUF_FD := 3; rbuf_ssl := false; buffer_left := 10 |})
           true false 2 2).
  vm_compute.
  repeat first [apply list_elem_of_here | apply list_elem_of_further].
Defined.

(** The last read completes the expected length and its size is
    returned. *)
Lemma get_contents_positive_code_witness :
  gc_code (@get_contents disk disk_stdio build64 verbose_options 3
             {| conn_reads := [2]; conn_at_end := Closed |} (empty_disk 100)
             0 12 (Some {| RBUF_FD := 3; rbuf_ssl := false; buffer_left := 10 |})
             true) = 2 /\
  12 <= gc_len (@get_contents disk disk_stdio build64 verbose_options 3
                  {| conn_reads := [2]; conn_at_end := Closed |}
                  (empty_disk 100) 0 12
                  (Some {| RBUF_FD := 3; rbuf_ssl := false; buffer_left := 10 |})
                  true).
Proof.
  split; [reflexivity|].
  apply (@get_contents_positive_code disk disk_stdio build64 verbose_options 3
           {| conn_reads := [2]; conn_at_end := Closed |} (empty_disk 100)
           0 12 (Some {| RBUF_FD := 3; rbuf_ssl := false; buffer_left := 10 |})
           true).
  reflexivity.
Defined.

Lemma get_contents_within_expected_witness :
  gc_len (@get_contents disk disk_stdio build64 verbose_options 3
            {| conn_reads := [2]; conn_at_end := Closed |} (empty_disk 100)
            0 12 (Some {| RBUF_FD := 3; rbuf_ssl := false; buffer_left := 10 |})
            true) <= Z.max (0 + 10) 12.
Proof.
  apply (@get_contents_within_expected disk disk_stdio build64 verbose_options
           3 {| conn_reads := [2]; conn_at_end := Closed |} (empty_disk 100)
           0 12 (Some {| RBUF_FD := 3; rbuf_ssl := false; buffer_left := 10 |})).
  assert (Hlog : gc_log (@get_contents disk disk_stdio build64 verbose_options
                   3 {| conn_reads := [2]; conn_at_end := Closed |}
                   (empty_disk 100) 0 12
                   (Some {| RBUF_FD := 3; rbuf_ssl := false;
                            buffer_left := 10 |}) true)
                 = [EvProgressCreate 0 12; EvRbufFlush 10;
                    EvFwrite Buffered 10 10; EvProgressUpdate 10;
                    EvRbufFlush 0; EvFflush; EvFerror false;
                    EvRead false 2 2; EvFwrite Network 2 2; EvFflush;
                    EvFerror false; EvProgressUpdate 2; EvProgressFinish])
    by reflexivity.
  rewrite Hlog.
  repeat (apply Forall_cons; split; [intros s a x [=]; subst; lia|]).
  constructor.
Defined.

(** ** The calls made by [retrieve_url] *)

Lemma protocol_urls_app (l1 l2 : list call) :
  protocol_urls (l1 ++ l2) = protocol_urls l1 ++ protocol_urls l2.
Proof. unfold protocol_urls. apply omap_app. Qed.

Section RetrievalCalls.
Context {E : Type} `{C : Collaborators E} `{P : Platform}.

(** A dispatch enters at most one protocol loop, for the current URL. *)
Lemma dispatch_urls (u : struct_url) (redirections : option (gset string))
  (refurl : option string) (dt : Z) (s : state E) (d : dispatched E) :
  dispatch u redirections refurl dt s = Dispatched d ->
  exists l, st_calls (d_state d) = st_calls s ++ l /\
            Forall is_protocol_call l /\
            (protocol_urls l = [] \/ protocol_urls l = [u_url u]).
Proof.
  unfold dispatch. intros Hd.
  repeat match type of Hd with
         | (if ?b then _ else _) = _ => destruct b
         | match ?x with _ => _ end = _ => destruct x
         end;
    try discriminate; injection Hd as <-; cbn;
    try (eexists [_]; split; [reflexivity|];
         split; [apply Forall_singleton; exact I | right; reflexivity]).
  exists []. rewrite app_nil_r. split; [reflexivity|]. split; [constructor|].
  left. reflexivity.
Qed.

Lemma register_log (url : string) (local_file : option string) (dt : Z)
  (s : state E) :
  st_calls (register url local_file dt s)
  = st_calls s ++ register_calls url local_file dt.
Proof.
  unfold register, register_calls. destruct local_file as [lf|];
    [|now rewrite app_nil_r].
  destruct (negb (Z.land dt RETROKF =? 0)); [|now rewrite app_nil_r].
  destruct (negb (Z.land dt TEXTHTML =? 0)); cbn; [|reflexivity].
  now rewrite <- app_assoc.
Qed.

(** From [redirected:] to a [return]: the calls are protocol-loop calls
    for URLs that were not tried before in this retrieval, followed by the
    registrations, which are made only at the end of the function and for
    the URL and the file that are handed back; the status goes with the
    return statement. *)
Lemma redirected_calls (fuel : nat) :
  forall hops url u redirections refurl file newloc dt (s : state E) r vs,
  redirected fuel hops url u redirections refurl file newloc dt s
    = Finished r ->
  NoDup vs -> u_url u ∉ vs ->
  match redirections with
  | None => vs = []
  | Some ht => (forall x, x ∈ vs -> x ∈ ht) /\ u_url u ∈ ht
  end ->
  exists loops regs,
    st_calls (r_state r)
    = st_calls s ++ loops ++ regs ++ closing_mark (r_site r) /\
    Forall is_protocol_call loops /\
    NoDup (vs ++ protocol_urls loops) /\
    (hops <= r_hops r)%nat /\
    match r_site r with
    | AtUrlParse => False
    | AtNoProxy | AtProxyParse | AtProxyScheme =>
      r_status r = PROXERR /\ regs = []
    | AtRedirectParse => r_status r = NEWLOCATION /\ regs = []
    | AtCycle => r_status r = WRONGCODE /\ regs = []
    | AtEnd =>
      r_status r <> NEWLOCATION /\
      exists url' local_file,
        r_file r = store file local_file /\
        r_newloc r = store newloc (Some url') /\
        regs = register_calls url' local_file (r_dt r) /\
        (r_hops r = hops -> url' = url) /\
        ((hops < r_hops r)%nat ->
         exists base loc u', url_parse (uri_merge base loc) = Some u' /\
                             url' = u_url u')
    end.
Proof.
  induction fuel as [|fuel IH];
    intros hops url u redirections refurl file newloc dt s r vs Hrun Hnd Hnew
           Hinv; [discriminate|].
  cbn [redirected] in Hrun.
  destruct (dispatch u redirections refurl dt s) as [site|d] eqn:Hd.
  - injection Hrun as <-. exists [], []. cbn [r_site r_state r_status r_hops].
    rewrite !app_nil_r. unfold dispatch in Hd.
    repeat match type of Hd with
           | (if ?b then _ else _) = _ => destruct b
           | match ?x with _ => _ end = _ => destruct x
           end; try discriminate; injection Hd as <-; cbn;
      rewrite ?app_nil_r;
      (split; [reflexivity|]); (split; [constructor|]);
      (split; [exact Hnd|]); (split; [lia|]); auto.
  - destruct (dispatch_urls _ _ _ _ _ _ Hd) as (l & Hl & Hproto & Hurls).
    assert (Hnd' : NoDup (vs ++ protocol_urls l)).
    { destruct Hurls as [->| ->]; [now rewrite app_nil_r|].
      apply NoDup_app. split; [exact Hnd|]. split.
      - intros x Hx Hx'. apply list_elem_of_singleton in Hx'. now subst.
      - apply NoDup_singleton. }
    destruct (bool_decide (d_result d = NEWLOCATION)) eqn:Hloc.
    + destruct (d_mynewloc d) as [mynewloc|]; [|discriminate].
      destruct (url_parse (uri_merge url mynewloc)) as [newloc_struct|] eqn:Hp.
      * set (ht1 := match redirections with
                    | Some ht => ht
                    | None => string_set_add make_string_hash_table (u_url u)
                    end) in *.
        assert (Hht1 : (forall x, x ∈ vs ++ protocol_urls l -> x ∈ ht1)).
        { intros x Hx. apply elem_of_app in Hx as [Hx|Hx].
          - destruct redirections as [ht|]; [now apply Hinv|].
            subst vs. now apply not_elem_of_nil in Hx.
          - assert (Hxu : x = u_url u).
            { destruct Hurls as [Hn|Hn]; rewrite Hn in Hx;
                [now apply not_elem_of_nil in Hx
                |now apply list_elem_of_singleton in Hx]. }
            subst x. destruct redirections as [ht|]; [apply Hinv|].
            subst ht1. unfold string_set_add.
            apply elem_of_union; left. now apply elem_of_singleton. }
        unfold string_set_contains in Hrun.
        destruct (bool_decide (u_url newloc_struct ∈ ht1)) eqn:Hcyc.
        -- injection Hrun as <-. exists l, []. cbn. rewrite !app_nil_r.
           repeat split; auto.
        -- apply bool_decide_eq_false in Hcyc.
           apply (IH _ _ _ _ _ _ _ _ _ _ (vs ++ protocol_urls l)) in Hrun
             as (loops & regs & Hcalls & Hpl & Hnd2 & Hhops & Hsite);
             [|exact Hnd'|intros Hin; apply Hcyc, Hht1, Hin|].
           ++ exists (l ++ loops), regs.
              rewrite Hcalls, Hl, protocol_urls_app, <- !app_assoc.
              split; [reflexivity|]. split; [apply Forall_app; auto|].
              rewrite <- app_assoc in Hnd2. split; [exact Hnd2|].
              split; [lia|].
              destruct (r_site r); try exact Hsite.
              destruct Hsite as (Hst & url' & lf & Hf & Hn & Hregs & H0 & H1).
              split; [exact Hst|]. exists url', lf.
              repeat split; try assumption; [lia|].
              intros _. destruct (Nat.eq_dec (r_hops r) (S hops)) as [Heq|Hne].
              ** exists url, mynewloc, newloc_struct. auto.
              ** apply H1. lia.
           ++ unfold string_set_add. split.
              ** intros x Hx. apply elem_of_union; right. now apply Hht1.
              ** apply elem_of_union; left. now apply elem_of_singleton.
      * injection Hrun as <-. exists l, []. cbn. rewrite !app_nil_r.
        apply bool_decide_eq_true in Hloc. repeat split; auto.
    + injection Hrun as <-. apply bool_decide_eq_false in Hloc.
      exists l, (register_calls url (d_local_file d) (d_dt d)).
      cbn [r_state r_site r_status r_hops r_file r_newloc r_dt count_download
           st_calls closing_mark].
      rewrite register_log, Hl, <- !app_assoc.
      split; [reflexivity|]. split; [exact Hproto|]. split; [exact Hnd'|].
      split; [lia|]. split; [exact Hloc|].
      exists url, (d_local_file d). repeat split; auto. lia.
Qed.

Lemma retrieve_url_calls (fuel : nat) (origurl : string)
  (file newloc : out_param) (refurl : option string) (dt : Z) (s : state E)
  (r : retrieval E) :
  retrieve_url fuel origurl file newloc refurl dt s = Finished r ->
  exists loops regs,
    st_calls (r_state r)
    = st_calls s ++ [CallRetrieveUrl origurl] ++ loops ++ regs
      ++ closing_mark (r_site r) /\
    Forall is_protocol_call loops /\
    NoDup (protocol_urls loops) /\
    match r_site r with
    | AtUrlParse => r_status r = URLERROR /\ regs = []
    | AtNoProxy | AtProxyParse | AtProxyScheme =>
      r_status r = PROXERR /\ regs = []
    | AtRedirectParse => r_status r = NEWLOCATION /\ regs = []
    | AtCycle => r_status r = WRONGCODE /\ regs = []
    | AtEnd =>
      r_status r <> NEWLOCATION /\
      exists url' local_file,
        r_file r = store file local_file /\
        r_newloc r = store newloc (Some url') /\
        regs = register_calls url' local_file (r_dt r) /\
        (r_hops r = 0%nat -> url' = origurl) /\
        ((0 < r_hops r)%nat ->
         exists base loc u', url_parse (uri_merge base loc) = Some u' /\
                             url' = u_url u')
    end.
Proof.
  unfold retrieve_url. intros Hrun.
  destruct (url_parse origurl) as [u|].
  - apply (redirected_calls _ _ _ _ _ _ _ _ _ _ _ []) in Hrun
      as (loops & regs & Hcalls & Hpl & Hnd & _ & Hsite);
      [|constructor|apply not_elem_of_nil|reflexivity].
    exists loops, regs. cbn in Hcalls. rewrite Hcalls, <- !app_assoc.
    split; [reflexivity|]. split; [exact Hpl|]. split; [exact Hnd|].
    destruct (r_site r); try exact Hsite; try contradiction.
    destruct Hsite as (Hst & url' & lf & Hf & Hn & Hregs & H0 & H1).
    split; [exact Hst|]. exists url', lf.
    split; [rewrite Hf; now destruct file|].
    split; [rewrite Hn; now destruct newloc|]. auto.
  - injection Hrun as <-. exists [], []. cbn.
    repeat split; auto; constructor.
Qed.

End RetrievalCalls.

Section RetrievalProperties.
Context {E : Type} `{C : Collaborators E} `{P : Platform}.

(** X12.  The status that [retrieve_url] returns goes with the place it
    returns from: [URLERROR] for an unparsable URL, [PROXERR] for the three
    proxy errors, [WRONGCODE] for a redirection cycle, and [NEWLOCATION]
    when a redirection target does not parse; a return from the end of the
    function never has the status [NEWLOCATION]. *)
Theorem retrieve_url_status_by_site (fuel : nat) (origurl : string)
  (file newloc : out_param) (refurl : option string) (dt : Z) (s : state E)
  (r : retrieval E) :
  retrieve_url fuel origurl file newloc refurl dt s = Finished r ->
  match r_site r with
  | AtUrlParse => r_status r = URLERROR
  | AtNoProxy | AtProxyParse | AtProxyScheme => r_status r = PROXERR
  | AtRedirectParse => r_status r = NEWLOCATION
  | AtCycle => r_status r = WRONGCODE
  | AtEnd => r_status r <> NEWLOCATION
  end.
Proof.
  intros Hrun.
  apply retrieve_url_calls in Hrun as (loops & regs & _ & _ & _ & Hsite).
  destruct (r_site r); tauto.
Qed.

(** X13.  Within one call of [retrieve_url] no canonical URL is handed to
    a protocol loop twice. *)
Theorem retrieve_url_no_refetch (fuel : nat) (origurl : string)
  (file newloc : out_param) (refurl : option string) (dt : Z) (s : state E)
  (r : retrieval E) :
  retrieve_url fuel origurl file newloc refurl dt s = Finished r ->
  exists new, st_calls (r_state r) = st_calls s ++ new /\
              NoDup (protocol_urls new).
Proof.
  intros Hrun.
  apply retrieve_url_calls in Hrun as (loops & regs & Hcalls & _ & Hnd & Hsite).
  exists ([CallRetrieveUrl origurl] ++ loops ++ regs
          ++ closing_mark (r_site r)).
  split; [exact Hcalls|]. rewrite !protocol_urls_app.
  assert (Hregs : protocol_urls regs = []).
  { destruct (r_site r); try (destruct Hsite as [_ ->]; reflexivity).
    destruct Hsite as (_ & url' & lf & _ & _ & -> & _).
    unfold register_calls. destruct lf; [|reflexivity].
    destruct (negb _); [|reflexivity]. now destruct (negb _). }
  assert (Hmark : protocol_urls (closing_mark (r_site r)) = [])
    by now destruct (r_site r).
  rewrite Hregs, Hmark, !app_nil_r. exact Hnd.
Qed.

(** X14.  [retrieve_url] registers a download only when it returns from
    its end, and then for the URL handed back in [*newloc] and the file
    handed back in [*file], with [RETROKF] set in [*dt]; it registers the
    file as HTML only together with the download and with [TEXTHTML]
    set. *)
Theorem retrieve_url_registrations (fuel : nat) (origurl : string)
  (file0 newloc0 : option string) (refurl : option string) (dt : Z)
  (s : state E) (r : retrieval E) :
  retrieve_url fuel origurl (Some file0) (Some newloc0) refurl dt s
    = Finished r ->
  exists new,
    st_calls (r_state r) = st_calls s ++ new /\
    forall url lf,
      (CallRegisterDownload url lf ∈ new ->
       r_site r = AtEnd /\ r_newloc r = Some (Some url) /\
       r_file r = Some (Some lf) /\ Z.land (r_dt r) RETROKF <> 0) /\
      (CallRegisterHtml url lf ∈ new ->
       CallRegisterDownload url lf ∈ new /\ Z.land (r_dt r) TEXTHTML <> 0).
Proof.
  intros Hrun.
  apply retrieve_url_calls in Hrun as (loops & regs & Hcalls & Hpl & _ & Hsite).
  exists ([CallRetrieveUrl origurl] ++ loops ++ regs
          ++ closing_mark (r_site r)).
  split; [exact Hcalls|].
  assert (Hin : forall c, c ∈ [CallRetrieveUrl origurl] ++ loops ++ regs
                              ++ closing_mark (r_site r) ->
                          ~ is_protocol_call c ->
                          (forall o, c <> CallRetrieveUrl o) ->
                          c <> DownloadCounted -> c ∈ regs).
  { intros c Hc Hnp Hnr Hnm. rewrite !elem_of_app in Hc.
    destruct Hc as [Hc|[Hc|[Hc|Hc]]]; [| |exact Hc|].
    - apply list_elem_of_singleton in Hc. now apply Hnr in Hc.
    - rewrite Forall_forall in Hpl. now apply Hpl in Hc.
    - destruct (r_site r); cbn in Hc;
        try (now apply not_elem_of_nil in Hc).
      apply list_elem_of_singleton in Hc. contradiction. }
  assert (Hregs : forall c, c ∈ regs ->
            r_site r = AtEnd /\
            exists url lf,
              r_newloc r = Some (Some url) /\ r_file r = Some (Some lf) /\
              Z.land (r_dt r) RETROKF <> 0 /\
              (c = CallRegisterDownload url lf \/
               (c = CallRegisterHtml url lf /\
                Z.land (r_dt r) TEXTHTML <> 0 /\
                CallRegisterDownload url lf ∈ regs))).
  { intros c Hc.
    destruct (r_site r); try (destruct Hsite as [_ ->];
                              now apply not_elem_of_nil in Hc).
    split; [reflexivity|].
    destruct Hsite as (_ & url' & lf & Hf & Hn & Hr & _).
    cbn [store] in Hf, Hn. rewrite Hr in Hc |- *. unfold register_calls in *.
    destruct lf as [lf|]; [|now apply not_elem_of_nil in Hc].
    destruct (Z.eqb_spec (Z.land (r_dt r) RETROKF) 0) as [|Hok];
      cbn [negb] in *; [now apply not_elem_of_nil in Hc|].
    exists url', lf. split; [exact Hn|]. split; [exact Hf|].
    split; [exact Hok|].
    apply elem_of_cons in Hc as [->|Hc]; [now left|]. right.
    destruct (Z.eqb_spec (Z.land (r_dt r) TEXTHTML) 0) as [|Hhtml];
      cbn [negb] in *; [now apply not_elem_of_nil in Hc|].
    apply list_elem_of_singleton in Hc. subst c.
    split; [reflexivity|]. split; [exact Hhtml|]. apply list_elem_of_here. }
  intros url lf. split.
  - intros Hc. apply Hin in Hc; [|cbn; tauto|discriminate|discriminate].
    destruct (Hregs _ Hc) as (Hend & url' & lf' & Hn & Hf & Hok & Hkind).
    destruct Hkind as [[= -> ->]|[[=] _]]. auto.
  - intros Hc. apply Hin in Hc; [|cbn; tauto|discriminate|discriminate].
    destruct (Hregs _ Hc) as (Hend & url' & lf' & Hn & Hf & Hok & Hkind).
    destruct Hkind as [[=]|([= -> ->] & Hhtml & Hd)]. split; [|exact Hhtml].
    rewrite !elem_of_app. auto.
Qed.

(** X15.  When [retrieve_url] returns from its end, [*newloc] is the URL
    it was called with if no redirection was followed, and otherwise the
    canonical form of a parsed redirection target. *)
Theorem retrieve_url_final_location (fuel : nat) (origurl : string)
  (file : out_param) (newloc0 : option string) (refurl : option string)
  (dt : Z) (s : state E) (r : retrieval E) :
  retrieve_url fuel origurl file (Some newloc0) refurl dt s = Finished r ->
  r_site r = AtEnd ->
  (r_hops r = 0%nat -> r_newloc r = Some (Some origurl)) /\
  ((0 < r_hops r)%nat ->
   exists base loc u', url_parse (uri_merge base loc) = Some u' /\
                       r_newloc r = Some (Some (u_url u'))).
Proof.
  intros Hrun Hend.
  apply retrieve_url_calls in Hrun as (loops & regs & _ & _ & _ & Hsite).
  rewrite Hend in Hsite.
  destruct Hsite as (_ & url' & lf & _ & Hn & _ & H0 & H1). cbn [store] in Hn.
  split.
  - intros Hh. now rewrite Hn, (H0 Hh).
  - intros Hh. destruct (H1 Hh) as (base & loc & u' & Hp & ->). eauto.
Qed.

(** The loop that a dispatch enters fits the URL, and with [USE_PROXY_P]
    it is [http_loop] with a proxy, whatever the scheme of the URL. *)
Lemma dispatch_fits (u : struct_url) (redirections : option (gset string))
  (refurl : option string) (dt : Z) (s : state E) (d : dispatched E) :
  dispatch u redirections refurl dt s = Dispatched d ->
  exists l, st_calls (d_state d) = st_calls s ++ l /\
            Forall loop_fits l /\
            (USE_PROXY_P u s = true ->
             exists proxy, l = [CallHttpLoop u (Some proxy)]).
Proof.
  unfold dispatch. intros Hd. destruct (USE_PROXY_P u s).
  - destruct (getproxy (u_scheme u) (st_ext s)) as [proxy|]; [|discriminate].
    destruct (url_parse proxy) as [proxy_url|]; [|discriminate].
    destruct (bool_decide (u_scheme proxy_url = SCHEME_HTTP)) eqn:Hs;
      [|discriminate].
    apply bool_decide_eq_true in Hs. injection Hd as <-.
    eexists [_]. split; [reflexivity|]. split; [|eauto].
    apply Forall_singleton. exact Hs.
  - destruct (bool_decide (u_scheme u = SCHEME_HTTP)) eqn:Hh; cbn [orb] in Hd.
    + apply bool_decide_eq_true in Hh. injection Hd as <-.
      eexists [_]. split; [reflexivity|]. split; [|discriminate].
      apply Forall_singleton. cbn. auto.
    + destruct HAVE_SSL eqn:Hssl; cbn [andb] in Hd.
      * destruct (bool_decide (u_scheme u = SCHEME_HTTPS)) eqn:Hhs.
        -- apply bool_decide_eq_true in Hhs. injection Hd as <-.
           eexists [_]. split; [reflexivity|]. split; [|discriminate].
           apply Forall_singleton. cbn. auto.
        -- destruct (bool_decide (u_scheme u = SCHEME_FTP)) eqn:Hf;
             injection Hd as <-.
           ++ apply bool_decide_eq_true in Hf.
              eexists [_]. split; [reflexivity|]. split; [|discriminate].
              apply Forall_singleton. exact Hf.
           ++ exists []. cbn. rewrite app_nil_r.
              split; [reflexivity|]. split; [constructor | discriminate].
      * destruct (bool_decide (u_scheme u = SCHEME_FTP)) eqn:Hf;
          injection Hd as <-.
        -- apply bool_decide_eq_true in Hf.
           eexists [_]. split; [reflexivity|]. split; [|discriminate].
           apply Forall_singleton. exact Hf.
        -- exists []. cbn. rewrite app_nil_r.
           split; [reflexivity|]. split; [constructor | discriminate].
Qed.

Lemma register_fits (url : string) (local_file : option string) (dt : Z) :
  Forall loop_fits (register_calls url local_file dt).
Proof.
  unfold register_calls. destruct local_file; [|constructor].
  destruct (negb _); [|constructor]. destruct (negb _);
    repeat constructor.
Qed.

Lemma redirected_fits (fuel : nat) :
  forall hops url u redirections refurl file newloc dt (s : state E) r,
  redirected fuel hops url u redirections refurl file newloc dt s
    = Finished r ->
  exists new, st_calls (r_state r) = st_calls s ++ new /\
              Forall loop_fits new /\
              (USE_PROXY_P u s = true -> r_site r = AtEnd ->
               exists proxy rest, new = CallHttpLoop u (Some proxy) :: rest).
Proof.
  induction fuel as [|fuel IH];
    intros hops url u redirections refurl file newloc dt s r Hrun;
    [discriminate|].
  cbn [redirected] in Hrun.
  destruct (dispatch u redirections refurl dt s) as [site|d] eqn:Hd.
  - injection Hrun as <-. exists []. cbn. rewrite app_nil_r.
    split; [reflexivity|]. split; [constructor|]. intros _ Hsite.
    unfold dispatch in Hd.
    repeat match type of Hd with
           | (if ?b then _ else _) = _ => destruct b
           | match ?x with _ => _ end = _ => destruct x
           end; try discriminate; injection Hd as <-; discriminate.
  - destruct (dispatch_fits _ _ _ _ _ _ Hd) as (l & Hl & Hfits & Hproxy).
    assert (Hhere : forall r' : retrieval E, r_state r' = d_state d ->
              exists new, st_calls (r_state r') = st_calls s ++ new /\
                Forall loop_fits new /\
                (USE_PROXY_P u s = true -> r_site r' = AtEnd ->
                 exists proxy rest,
                   new = CallHttpLoop u (Some proxy) :: rest)).
    { intros r' ->. exists l. split; [exact Hl|]. split; [exact Hfits|].
      intros Hp _. destruct (Hproxy Hp) as [proxy ->]. eauto. }
    destruct (bool_decide (d_result d = NEWLOCATION)).
    + destruct (d_mynewloc d) as [mynewloc|]; [|discriminate].
      destruct (url_parse (uri_merge url mynewloc)) as [newloc_struct|].
      * destruct (string_set_contains _ _).
        -- injection Hrun as <-. now apply Hhere.
        -- apply IH in Hrun as (new & Hcalls & Hnew & _).
           exists (l ++ new). rewrite Hcalls, Hl, <- app_assoc.
           split; [reflexivity|]. split; [apply Forall_app; auto|].
           intros Hp _. destruct (Hproxy Hp) as [proxy ->]. eauto.
      * injection Hrun as <-. now apply Hhere.
    + injection Hrun as <-.
      cbn [r_state r_site count_download st_calls].
      rewrite register_log, Hl, <- !app_assoc.
      eexists. split; [reflexivity|]. split.
      * apply Forall_app; split; [exact Hfits|].
        apply Forall_app; split; [apply register_fits|].
        repeat constructor.
      * intros Hp _. destruct (Hproxy Hp) as [proxy ->]. cbn. eauto.
Qed.

(** X16.  Whatever redirections are followed, [retrieve_url] enters
    [ftp_loop] only for an FTP URL and [http_loop] without a proxy only for
    an HTTP URL (or an HTTPS URL with [HAVE_SSL]), and every proxy that it
    hands to [http_loop] is an HTTP URL.  When [USE_PROXY_P] holds for the
    URL it is called with and it returns from its end, the first protocol
    loop is [http_loop] with a proxy, whatever the scheme of the URL is,
    FTP included. *)
Theorem retrieve_url_loop_fits (fuel : nat) (origurl : string)
  (file newloc : out_param) (refurl : option string) (dt : Z) (s : state E)
  (r : retrieval E) :
  retrieve_url fuel origurl file newloc refurl dt s = Finished r ->
  exists new,
    st_calls (r_state r) = st_calls s ++ CallRetrieveUrl origurl :: new /\
    Forall loop_fits new /\
    (forall u, url_parse origurl = Some u ->
       USE_PROXY_P u s = true -> r_site r = AtEnd ->
       exists proxy rest, new = CallHttpLoop u (Some proxy) :: rest /\
                          u_scheme proxy = SCHEME_HTTP).
Proof.
  unfold retrieve_url. intros Hrun. destruct (url_parse origurl) as [u|].
  - apply redirected_fits in Hrun as (new & Hcalls & Hfits & Hproxy).
    exists new. cbn in Hcalls. rewrite Hcalls, <- app_assoc.
    split; [reflexivity|]. split; [exact Hfits|].
    intros u' [= <-] Hp Hend.
    destruct (Hproxy Hp Hend) as (proxy & rest & ->).
    exists proxy, rest. split; [reflexivity|].
    apply Forall_cons in Hfits as [Hfit _]. exact Hfit.
  - injection Hrun as <-. exists []. cbn.
    split; [reflexivity|]. split; [constructor|]. discriminate.
Qed.

End RetrievalProperties.

Section FtpRecursion.
Context {E : Type} `{C : Collaborators E} `{P : Platform}.

(** [opt.recursive] is not a concern of [http_loop]. *)
Hypothesis http_loop_keeps_recursive :
  forall u refurl proxy dt count o e,
    opt_recursive (hr_opt (http_loop u refurl proxy dt count o e))
    = opt_recursive o.

Lemma dispatch_recursive (u : struct_url) (redirections : option (gset string))
  (refurl : option string) (dt : Z) (s : state E) (d : dispatched E) :
  dispatch u redirections refurl dt s = Dispatched d ->
  opt_recursive (st_opt (d_state d)) = opt_recursive (st_opt s) /\
  exists l, st_calls (d_state d) = st_calls s ++ l /\
            (length l <= 1)%nat /\
            (is_Some redirections -> forall u', CallFtpLoop u' true ∉ l).
Proof.
  unfold dispatch. intros Hd.
  repeat match type of Hd with
         | (if ?b then _ else _) = _ => destruct b
         | match ?x with _ => _ end = _ => destruct x
         end;
    try discriminate; injection Hd as <-;
    cbn [d_state call_http_loop call_ftp_loop set_env st_opt st_calls
         record_call];
    rewrite ?http_loop_keeps_recursive; cbn.
  1-2: split; [reflexivity|]; eexists [_]; split; [reflexivity|];
    split; [cbn; lia|]; intros _ u' Hin;
    apply list_elem_of_singleton in Hin; discriminate.
  - split; [reflexivity|]. eexists [_]. split; [reflexivity|].
    split; [cbn; lia|]. intros Hsome u' Hin.
    apply list_elem_of_singleton in Hin. destruct redirections as [ht|].
    + cbn in Hin. discriminate.
    + now destruct Hsome.
  - split; [reflexivity|]. exists []. rewrite app_nil_r.
    split; [reflexivity|]. split; [cbn; lia|].
    intros _ u' Hin. now apply not_elem_of_nil in Hin.
Qed.

Lemma register_recursive (url : string) (local_file : option string) (dt : Z)
  (s : state E) :
  st_opt (register url local_file dt s) = st_opt s /\
  forall u', CallFtpLoop u' true ∉ register_calls url local_file dt.
Proof.
  split.
  - unfold register. destruct local_file; [|reflexivity].
    destruct (negb _); [|reflexivity]. now destruct (negb _).
  - intros u' Hin. unfold register_calls in Hin.
    destruct local_file; [|now apply not_elem_of_nil in Hin].
    destruct (negb _); [|now apply not_elem_of_nil in Hin].
    apply elem_of_cons in Hin as [Hin|Hin]; [discriminate|].
    destruct (negb _); [|now apply not_elem_of_nil in Hin].
    apply list_elem_of_singleton in Hin. discriminate.
Qed.

Lemma redirected_recursive (fuel : nat) :
  forall hops url u redirections refurl file newloc dt (s : state E) r,
  redirected fuel hops url u redirections refurl file newloc dt s
    = Finished r ->
  opt_recursive (st_opt (r_state r)) = opt_recursive (st_opt s) /\
  exists first later,
    st_calls (r_state r) = st_calls s ++ first ++ later /\
    (length first <= 1)%nat /\
    (is_Some redirections -> forall u', CallFtpLoop u' true ∉ first) /\
    forall u', CallFtpLoop u' true ∉ later.
Proof.
  induction fuel as [|fuel IH];
    intros hops url u redirections refurl file newloc dt s r Hrun;
    [discriminate|].
  cbn [redirected] in Hrun.
  assert (Hnone : forall (s' : state E), s' = s ->
    opt_recursive (st_opt s') = opt_recursive (st_opt s) /\
    exists first later : list call,
      st_calls s' = st_calls s ++ first ++ later /\
      (length first <= 1)%nat /\
      (is_Some redirections -> forall u', CallFtpLoop u' true ∉ first) /\
      forall u', CallFtpLoop u' true ∉ later).
  { intros s' ->. split; [reflexivity|]. exists [], [].
    rewrite !app_nil_r. repeat split; auto; try (cbn; lia);
      intros; apply not_elem_of_nil. }
  destruct (dispatch u redirections refurl dt s) as [site|d] eqn:Hd.
  - injection Hrun as <-. now apply Hnone.
  - destruct (dispatch_recursive _ _ _ _ _ _ Hd) as (Hrec & l & Hl & Hlen & Hftp).
    assert (Hhere : forall s' : state E, s' = d_state d ->
      opt_recursive (st_opt s') = opt_recursive (st_opt s) /\
      exists first later : list call,
        st_calls s' = st_calls s ++ first ++ later /\
        (length first <= 1)%nat /\
        (is_Some redirections -> forall u', CallFtpLoop u' true ∉ first) /\
        forall u', CallFtpLoop u' true ∉ later).
    { intros s' ->. split; [exact Hrec|]. exists l, [].
      rewrite app_nil_r. repeat split; auto. intros; apply not_elem_of_nil. }
    destruct (bool_decide (d_result d = NEWLOCATION)).
    + destruct (d_mynewloc d) as [mynewloc|]; [|discriminate].
      destruct (url_parse (uri_merge url mynewloc)) as [newloc_struct|].
      * destruct (string_set_contains _ _).
        -- injection Hrun as <-. now apply Hhere.
        -- apply IH in Hrun as (Hrec' & first & later & Hcalls & _ & Hf & Hl').
           split; [congruence|]. exists l, (first ++ later).
           rewrite Hcalls, Hl, <- !app_assoc. split; [reflexivity|].
           split; [exact Hlen|]. split; [exact Hftp|].
           intros u' Hin. apply elem_of_app in Hin as [Hin|Hin].
           ++ exact (Hf ltac:(eauto) u' Hin).
           ++ exact (Hl' u' Hin).
      * injection Hrun as <-. now apply Hhere.
    + injection Hrun as <-. cbn [r_state count_download st_opt st_calls].
      destruct (register_recursive url (d_local_file d) (d_dt d) (d_state d))
        as [Hopt Hregs].
      rewrite Hopt, register_log. split; [exact Hrec|].
      exists l, (register_calls url (d_local_file d) (d_dt d)
                 ++ [DownloadCounted]).
      rewrite Hl, <- !app_assoc. repeat split; auto.
      intros u' Hin. apply elem_of_app in Hin as [Hin|Hin].
      * exact (Hregs u' Hin).
      * apply list_elem_of_singleton in Hin. discriminate.
Qed.

(** X17.  Provided [http_loop] leaves [opt.recursive] alone, so does
    [retrieve_url], whatever [ftp_loop] does to it; and [ftp_loop] is
    entered with [opt.recursive] set at most as the first protocol loop of
    the call, never after a redirection. *)
Theorem retrieve_url_ftp_recursion (fuel : nat) (origurl : string)
  (file newloc : out_param) (refurl : option string) (dt : Z) (s : state E)
  (r : retrieval E) :
  retrieve_url fuel origurl file newloc refurl dt s = Finished r ->
  opt_recursive (st_opt (r_state r)) = opt_recursive (st_opt s) /\
  exists first later,
    st_calls (r_state r)
    = st_calls s ++ [CallRetrieveUrl origurl] ++ first ++ later /\
    (length first <= 1)%nat /\
    forall u', CallFtpLoop u' true ∉ later.
Proof.
  unfold retrieve_url. intros Hrun. destruct (url_parse origurl) as [u|].
  - apply redirected_recursive in Hrun
      as (Hrec & first & later & Hcalls & Hlen & _ & Hlater).
    split; [exact Hrec|]. exists first, later. cbn in Hcalls.
    rewrite Hcalls, <- app_assoc. auto.
  - injection Hrun as <-. split; [reflexivity|]. exists [], []. cbn.
    repeat split; auto. intros; apply not_elem_of_nil.
Qed.

End FtpRecursion.

(** ** The loop over a list of URLs *)

Section BatchProperties.
Context {E : Type} `{C : Collaborators E} `{P : Platform}.

(** X18.  When the loop of [retrieve_from_file] gets through the whole
    list, the status it ends with is the status of the last item alone:
    what [retrieve_url], and [recursive_retrieve] after it, gave for that
    item, whatever the earlier items gave. *)
Theorem retrieve_list_last_status (fuel : nat) (dt0 : Z) :
  forall (l : list string) (x : string) (status : uerr_t) (count : Z)
         (s : state E) (b : batch E),
  retrieve_list fuel (l ++ [x]) status count dt0 s = Finished b ->
  b_count b = count + Z.of_nat (length l) + 1 ->
  exists b' r,
    retrieve_list fuel l status count dt0 s = Finished b' /\
    b_count b' = count + Z.of_nat (length l) /\
    retrieve_url fuel x (Some None) (Some None) None dt0 (b_state b')
      = Finished r /\
    b_status b = (after_retrieval x r).1 /\
    b_state b = (after_retrieval x r).2.
Proof.
  induction l as [|y l IH]; intros x status count s b Hrun Hcount;
    cbn [app retrieve_list] in Hrun.
  - destruct (downloaded_exceeds_quota (st_opt s)) eqn:Hq.
    + injection Hrun as <-. cbn in Hcount. lia.
    + destruct (retrieve_url fuel x _ _ None dt0 s) as [r| |] eqn:Hr;
        try discriminate.
      destruct (after_retrieval x r) as [status1 s1] eqn:Ha.
      cbn [retrieve_list] in Hrun. injection Hrun as <-.
      eexists _, r. cbn [retrieve_list b_count b_state b_status length].
      split; [reflexivity|]. cbn. split; [lia|]. split; [exact Hr|].
      rewrite Ha. auto.
  - destruct (downloaded_exceeds_quota (st_opt s)) eqn:Hq.
    + injection Hrun as <-. cbn in Hcount. lia.
    + destruct (retrieve_url fuel y _ _ None dt0 s) as [r0| |] eqn:Hr;
        try discriminate.
      destruct (after_retrieval y r0) as [status1 s1] eqn:Ha.
      apply IH in Hrun as (b' & r & Hrun' & Hc' & Hlast & Hst & Hs);
        [|cbn [length] in Hcount; lia].
      exists b', r. cbn [retrieve_list]. rewrite Hq, Hr, Ha.
      split; [exact Hrun'|]. cbn [length]. split; [lia|]. auto.
Qed.

(** X19.  A list of URLs that is empty gives [RETROK] and the count 0,
    even with the quota exceeded; a list that is not empty, met with the
    quota exceeded, gives [QUOTEXC] and the count 0 without any retrieval.
    In both cases only [recursive_reset] has touched the state. *)
Theorem retrieve_from_file_nothing_to_do (fuel : nat) (file : string)
  (html : bool) (dt0 : Z) (s : state E) :
  let url_list := if html then get_urls_html file (st_ext s)
                  else get_urls_file file (st_ext s) in
  let s1 := set_env (st_opt s) (recursive_reset (st_ext s)) s in
  (url_list = [] ->
   retrieve_from_file fuel file html dt0 s
   = Finished {| b_status := RETROK; b_count := 0; b_state := s1 |}) /\
  (url_list <> [] -> downloaded_exceeds_quota (st_opt s) = true ->
   retrieve_from_file fuel file html dt0 s
   = Finished {| b_status := QUOTEXC; b_count := 0; b_state := s1 |}).
Proof.
  intros url_list s1. unfold retrieve_from_file. fold url_list. fold s1.
  split.
  - intros ->. reflexivity.
  - intros Hne Hq. destruct url_list as [|x l]; [contradiction|].
    cbn [retrieve_list]. subst s1. cbn [set_env st_opt]. now rewrite Hq.
Qed.

End BatchProperties.

(** ** A rate of nothing *)

Section RateZero.
Context `{P : Platform}.

(** X20.  When no byte was transferred, [rate] prints [0.00 B/s] (padded
    to seven characters if asked), whatever the elapsed time and the timer
    granularity are. *)
Theorem rate_zero_bytes (msecs : Z) (pad : bool) :
  0 < wtimer_granularity <= LONG_MAX -> 0 <= msecs <= LONG_MAX ->
  rate 0 msecs pad = Some (if pad then "   0.00 B/s" else "0.00 B/s").
Proof.
  intros Hg Hm. unfold rate, dlrate.
  destruct (Z.leb_spec 0 msecs); [|lia]. cbn [negb Z.leb Z.compare].
  destruct (double_of_Z_positive _ (effective_msecs_positive msecs Hg Hm))
    as (m & e & -> & _).
  destruct pad; reflexivity.
Qed.

End RateZero.

(** ** A rate beyond the array [res] *)

(** X21.  With a 64-bit [long], [rate (LONG_MAX, 1, 0)] selects gigabytes
    and formats a text of 21 characters, [8589934592000.00 GB/s]: more than
    the 15 bytes of [res] hold, so that [sprintf] writes beyond the
    array. *)
Theorem rate_beyond_res :
  @rate build64 LONG_MAX 1 false = None /\
  sprintf_f2 false (ddiv (@dlrate build64 LONG_MAX 1) d1024_3) +:+ " GB/s"
  = "8589934592000.00 GB/s" /\
  String.length "8589934592000.00 GB/s" = 21%nat /\ res_size = 15%nat.
Proof. vm_compute. repeat split. Qed.

(** ** The properties above on the demonstration server *)

Lemma retrieve_url_status_by_site_witness :
  match @retrieve_url unit demo_web build64 2 "http://a/" None None None 0
          (demo_state plain_options) with
  | Finished r => r_status r = WRONGCODE
  | _ => False
  end.
Proof.
  destruct (@retrieve_url unit demo_web build64 2 "http://a/" None None None 0
              (demo_state plain_options)) as [r| |] eqn:Hrun.
  - pose proof (@retrieve_url_status_by_site unit demo_web build64 2
                  "http://a/" None None None 0 (demo_state plain_options)
                  r Hrun) as H.
    vm_compute in Hrun. injection Hrun as <-. exact H.
  - vm_compute in Hrun. discriminate.
  - vm_compute in Hrun. discriminate.
Defined.

Lemma retrieve_url_no_refetch_witness :
  match @retrieve_url unit demo_web build64 2 "http://a/" None None None 0
          (demo_state plain_options) with
  | Finished r =>
    exists new, st_calls (r_state r) = [] ++ new /\ NoDup (protocol_urls new)
  | _ => False
  end.
Proof.
  destruct (@retrieve_url unit demo_web build64 2 "http://a/" None None None 0
              (demo_state plain_options)) as [r| |] eqn:Hrun.
  - exact (@retrieve_url_no_refetch unit demo_web build64 2 "http://a/" None
             None None 0 (demo_state plain_options) r Hrun).
  - vm_compute in Hrun. discriminate.
  - vm_compute in Hrun. discriminate.
Defined.

Lemma retrieve_url_registrations_witness :
  match @retrieve_url unit demo_web build64 1 "http://c/" (Some None)
          (Some None) None 0 (demo_state plain_options) with
  | Finished r =>
    r_site r = AtEnd /\ r_newloc r = Some (Some "http://c/") /\
    r_file r = Some (Some "c.html") /\ Z.land (r_dt r) 2 <> 0
  | _ => False
  end.
Proof.
  destruct (@retrieve_url unit demo_web build64 1 "http://c/" (Some None)
              (Some None) None 0 (demo_state plain_options))
    as [r| |] eqn:Hrun.
  - destruct (@retrieve_url_registrations unit demo_web build64 1 "http://c/"
                None None None 0 (demo_state plain_options) r Hrun)
      as (new & Hcalls & Hreg).
    apply (Hreg "http://c/" "c.html").
    vm_compute in Hrun. injection Hrun as <-. cbn in Hcalls. subst new.
    repeat first [apply list_elem_of_here | apply list_elem_of_further].
  - vm_compute in Hrun. discriminate.
  - vm_compute in Hrun. discriminate.
Defined.

Lemma retrieve_url_final_location_witness :
  match @retrieve_url unit demo_web build64 1 "http://c/" None (Some None)
          None 0 (demo_state plain_options) with
  | Finished r => r_newloc r = Some (Some "http://c/")
  | _ => False
  end.
Proof.
  destruct (@retrieve_url unit demo_web build64 1 "http://c/" None (Some None)
              None 0 (demo_state plain_options)) as [r| |] eqn:Hrun.
  - apply (@retrieve_url_final_location unit demo_web build64 1 "http://c/"
             None None None 0 (demo_state plain_options) r Hrun);
      vm_compute in Hrun; injection Hrun as <-; reflexivity.
  - vm_compute in Hrun. discriminate.
  - vm_compute in Hrun. discriminate.
Defined.

(** With a proxy in the environment an FTP URL is fetched by [http_loop]
    through the proxy, which is an HTTP URL; [ftp_loop] is not entered. *)
Lemma retrieve_url_loop_fits_witness :
  match @retrieve_url bool demo_mirror build64 1 "ftp://new/" None None None 0
          (State proxy_options true 0 []) with
  | Finished r =>
    exists proxy rest,
      st_calls (r_state r)
      = CallRetrieveUrl "ftp://new/"
        :: CallHttpLoop {| u_url := "ftp://new/"; u_scheme := SCHEME_FTP;
                           u_host := "demo" |} (Some proxy) :: rest /\
      u_scheme proxy = SCHEME_HTTP /\
      Forall (fun c => forall u rec, c <> CallFtpLoop u rec) rest
  | _ => False
  end.
Proof.
  destruct (@retrieve_url bool demo_mirror build64 1 "ftp://new/" None None
              None 0 (State proxy_options true 0 [])) as [r| |] eqn:Hrun.
  - destruct (@retrieve_url_loop_fits bool demo_mirror build64 1 "ftp://new/"
                None None None 0 (State proxy_options true 0 []) r Hrun)
      as (new & Hcalls & _ & Hproxy).
    destruct (Hproxy {| u_url := "ftp://new/"; u_scheme := SCHEME_FTP;
                        u_host := "demo" |})
      as (proxy & rest & -> & Hscheme).
    + reflexivity.
    + reflexivity.
    + vm_compute in Hrun. injection Hrun as <-. reflexivity.
    + exists proxy, rest. split; [exact Hcalls|]. split; [exact Hscheme|].
      vm_compute in Hrun. injection Hrun as <-. cbn in Hcalls.
      injection Hcalls as _ <-. repeat constructor; discriminate.
  - vm_compute in Hrun. discriminate.
  - vm_compute in Hrun. discriminate.
Defined.

Lemma mirror_http_loop_keeps_recursive :
  forall u refurl proxy dt count o e,
    opt_recursive (hr_opt (mirror_http_loop u refurl proxy dt count o e))
    = opt_recursive o.
Proof.
  intros. unfold mirror_http_loop. destruct proxy; [reflexivity|].
  now destruct (String.eqb _ _).
Qed.

(** Recursive retrieval is on.  An HTTP URL is redirected to an FTP URL:
    [ftp_loop] is entered with [opt.recursive] off; it is entered with
    [opt.recursive] on for an FTP URL that [retrieve_url] is called with.
    This [ftp_loop] switches [opt.recursive] off, and in both runs it is
    on again when [retrieve_url] returns. *)
Lemma retrieve_url_ftp_recursion_witness :
  match @retrieve_url bool demo_mirror build64 2 "http://old/" None None None
          0 (State recursive_options false 0 []),
        @retrieve_url bool demo_mirror build64 2 "ftp://new/" None None None
          0 (State recursive_options false 0 []) with
  | Finished r1, Finished r2 =>
    opt_recursive (st_opt (r_state r1)) = true /\
    st_calls (r_state r1)
    = [CallRetrieveUrl "http://old/";
       CallHttpLoop {| u_url := "http://old/"; u_scheme := SCHEME_HTTP;
                       u_host := "demo" |} None;
       CallFtpLoop {| u_url := "ftp://new/"; u_scheme := SCHEME_FTP;
                      u_host := "demo" |} false;
       DownloadCounted] /\
    opt_recursive (st_opt (r_state r2)) = true /\
    st_calls (r_state r2)
    = [CallRetrieveUrl "ftp://new/";
       CallFtpLoop {| u_url := "ftp://new/"; u_scheme := SCHEME_FTP;
                      u_host := "demo" |} true;
       DownloadCounted]
  | _, _ => False
  end.
Proof.
  destruct (@retrieve_url bool demo_mirror build64 2 "http://old/" None None
              None 0 (State recursive_options false 0 [])) as [r1| |] eqn:Hrun1;
    [|vm_compute in Hrun1; discriminate..].
  destruct (@retrieve_url bool demo_mirror build64 2 "ftp://new/" None None
              None 0 (State recursive_options false 0 [])) as [r2| |] eqn:Hrun2;
    [|vm_compute in Hrun2; discriminate..].
  pose proof (proj1 (@retrieve_url_ftp_recursion bool demo_mirror build64
                       mirror_http_loop_keeps_recursive 2 "http://old/" None
                       None None 0 (State recursive_options false 0 []) r1
                       Hrun1)) as Hrec1.
  pose proof (proj1 (@retrieve_url_ftp_recursion bool demo_mirror build64
                       mirror_http_loop_keeps_recursive 2 "ftp://new/" None
                       None None 0 (State recursive_options false 0 []) r2
                       Hrun2)) as Hrec2.
  split; [exact Hrec1|]. split.
  { vm_compute in Hrun1. injection Hrun1 as <-. reflexivity. }
  split; [exact Hrec2|].
  vm_compute in Hrun2. injection Hrun2 as <-. reflexivity.
Defined.

(** A page followed by an unparsable URL: the failure of the last item is
    what is reported. *)
Lemma retrieve_list_last_status_witness :
  match @retrieve_list unit demo_web build64 1 (["http://c/"] ++ ["bogus"])
          RETROK 0 0 (demo_state plain_options) with
  | Finished b =>
    exists b' r,
      @retrieve_list unit demo_web build64 1 ["http://c/"] RETROK 0 0
        (demo_state plain_options) = Finished b' /\
      b_count b' = 0 + Z.of_nat 1 /\
      @retrieve_url unit demo_web build64 1 "bogus" (Some None) (Some None)
        None 0 (b_state b') = Finished r /\
      b_status b = (@after_retrieval unit demo_web build64 "bogus" r).1 /\
      b_state b = (@after_retrieval unit demo_web build64 "bogus" r).2
  | _ => False
  end.
Proof.
  destruct (@retrieve_list unit demo_web build64 1 (["http://c/"] ++ ["bogus"])
              RETROK 0 0 (demo_state plain_options)) as [b| |] eqn:Hrun.
  - apply (@retrieve_list_last_status unit demo_web build64 1 0 ["http://c/"]
             "bogus" RETROK 0 (demo_state plain_options) b Hrun).
    vm_compute in Hrun. injection Hrun as <-. reflexivity.
  - vm_compute in Hrun. discriminate.
  - vm_compute in Hrun. discriminate.
Defined.

Lemma retrieve_from_file_nothing_to_do_witness :
  @retrieve_from_file unit demo_web build64 0 "list" false 0
    (demo_state (set_quota 10 (set_downloaded 50 false plain_options)))
  = Finished
      {| b_status := QUOTEXC; b_count := 0;
         b_state :=
           demo_state (set_quota 10 (set_downloaded 50 false plain_options)) |}.
Proof.
  apply (@retrieve_from_file_nothing_to_do unit demo_web build64 0 "list" false
           0 (demo_state (set_quota 10 (set_downloaded 50 false plain_options)))).
  - discriminate.
  - reflexivity.
Defined.

Lemma rate_zero_bytes_witness :
  @rate build64 0 0 true = Some "   0.00 B/s".
Proof.
  apply (@rate_zero_bytes build64 0 true).
  - vm_compute. split; [reflexivity | discriminate].
  - vm_compute. split; discriminate.
Defined.

Lemma get_contents_gauge_counts_witness :
  gauge_finishes
    (gc_log (@get_contents disk disk_stdio build64 verbose_options 3
               {| conn_reads := [5]; conn_at_end := Closed |} (empty_disk 0)
               0 0 (Some {| RBUF_FD := 3; rbuf_ssl := false;
                            buffer_left := 0 |}) false)) = 0%nat.
Proof.
  apply (@get_contents_gauge_counts disk disk_stdio build64 verbose_options 3
           {| conn_reads := [5]; conn_at_end := Closed |} (empty_disk 0)
           0 0 (Some {| RBUF_FD := 3; rbuf_ssl := false; buffer_left := 0 |})
           false).
Defined.
